(** * DensePacking: the PPO agent of [model/ppo/ppo.py]

    A shallow embedding of the class [PPO]: the advantage estimator
    [get_gaes], the action path [act] / [evaluate_actions], the loss of
    [learn] and the rollout / update loop of [train].

    Numbers.  Python is duck typed and the arithmetic of the source runs on
    whatever the environment and the network hand over, in practice IEEE
    binary64 ([np.float64], [tf.float64]).  The embedding is therefore
    written once over an interface of arithmetic operations: [Arith], with
    instances at Rocq's primitive binary64 floats, where the code evaluates
    bit for bit, and at the real numbers, the exact arithmetic that the float
    operations round; and [Elementary], which adds the exponential, the
    logarithm, minimum and maximum, with an instance at the reals and one at
    binary64 that takes [exp] and [log] as parameters (primitive floats
    carry neither).  Results proved at the reals only say so.

    Shapes.  Vectors are lists and element-wise operations are [zip_with],
    which stops at the shorter list where numpy and TensorFlow would raise on
    mismatched shapes; results that depend on shapes state them.

    Black boxes.  The Keras network, the optimizer step, the gym environment
    and the random number generators are parameters of the sections below. *)

From Stdlib Require Import ZArith List Reals Lra Lia Floats Bool.
From stdpp Require Import base list.

Set Warnings "-inexact-float".

(** ** The numeric interface *)

(** The operations binary64 and the reals share.  [of_nat] is the conversion
    numpy applies to an element count. *)
Class Arith (num : Type) := {
  zero : num;
  one : num;
  nadd : num → num → num;
  nsub : num → num → num;
  nmul : num → num → num;
  ndiv : num → num → num;
  nneg : num → num;
  nsqrt : num → num;
  of_nat : nat → num
}.

(** What the source takes from the numerical libraries on top of that:
    [tf.exp], the logarithm and the constant pi inside the Gaussian density
    of [tfd.Normal], [tf.minimum] and [tf.maximum]. *)
Class Elementary (num : Type) `{Arith num} := {
  nexp : num → num;
  nlog : num → num;
  npi : num;
  nmin : num → num → num;
  nmax : num → num → num
}.

Declare Scope num_scope.
Delimit Scope num_scope with num.
Infix "+" := nadd : num_scope.
Infix "-" := nsub : num_scope.
Infix "*" := nmul : num_scope.
Infix "/" := ndiv : num_scope.
Notation "- x" := (nneg x) : num_scope.

(** IEEE binary64, as numpy and TensorFlow compute. *)
#[export] Instance float_arith : Arith float := {|
  zero := 0%float;
  one := 1%float;
  nadd := PrimFloat.add;
  nsub := PrimFloat.sub;
  nmul := PrimFloat.mul;
  ndiv := PrimFloat.div;
  nneg := PrimFloat.opp;
  nsqrt := PrimFloat.sqrt;
  of_nat n := PrimFloat.of_uint63 (Uint63.of_Z (Z.of_nat n))
|}.

(** Exact real arithmetic. *)
#[export] Instance real_arith : Arith R := {|
  zero := 0%R;
  one := 1%R;
  nadd := Rplus;
  nsub := Rminus;
  nmul := Rmult;
  ndiv := Rdiv;
  nneg := Ropp;
  nsqrt := R_sqrt.sqrt;
  of_nat := INR
|}.

#[export] Instance real_elementary : Elementary R := {|
  nexp := Rtrigo_def.exp;
  nlog := ln;
  npi := PI;
  nmin := Rmin;
  nmax := Rmax
|}.

(** Binary64 with the elementary functions of the numerical libraries.
    Rocq's primitive floats carry no [exp] or [log], and the libraries do
    not specify theirs bit for bit: both are parameters.  [tf.minimum] and
    [tf.maximum] are documented as [x < y ? x : y] and [x > y ? x : y]; the
    kernels return NaN when an operand is NaN, and the model follows them
    (older kernels differ on a single NaN operand: the binary64 results
    below use the two on numbers, or on two NaN operands, only).  The
    constant is [np.pi]. *)
Definition float_min (x y : float) : float :=
  if is_nan x then x else if is_nan y then y
  else if PrimFloat.ltb x y then x else y.
Definition float_max (x y : float) : float :=
  if is_nan x then x else if is_nan y then y
  else if PrimFloat.ltb y x then x else y.

Definition float_elementary (fexp flog : float → float) : Elementary float := {|
  nexp := fexp;
  nlog := flog;
  npi := 3.141592653589793%float;
  nmin := float_min;
  nmax := float_max
|}.

(** ** Exceptions and loops *)

Inductive exn := IndexError | ValueError | ZeroDivisionError.

(** The outcome of running a piece of the program: a value, a Python
    exception, or a loop that was cut off by the fuel of the model. *)
Inductive outcome (A : Type) :=
  | Ok (a : A)
  | Raise (e : exn)
  | OutOfFuel.
Arguments Ok {A} a.
Arguments Raise {A} e.
Arguments OutOfFuel {A}.

#[export] Instance outcome_ret : MRet outcome := λ A a, Ok a.
#[export] Instance outcome_bind : MBind outcome := λ A B f m,
  match m with
  | Ok a => f a
  | Raise e => Raise e
  | OutOfFuel => OutOfFuel
  end.

(** [for x in xs: s = body(s, x)] *)
Fixpoint for_each {S X : Type} (xs : list X) (body : S → X → outcome S) (s : S)
  : outcome S :=
  match xs with
  | [] => Ok s
  | x :: xs' => s' ← body s x; for_each xs' body s'
  end.

(** [while cond(s): s = body(s)] *)
Fixpoint while {S : Type} (fuel : nat) (cond : S → bool) (body : S → outcome S)
  (s : S) : outcome S :=
  if cond s then
    match fuel with
    | 0 => OutOfFuel
    | S fuel' => s' ← body s; while fuel' cond body s'
    end
  else Ok s.

(** [range(n)] and [reversed(...)] *)
Definition range (n : nat) : list nat := seq 0 n.
Definition reversed {A : Type} (l : list A) : list A := rev l.

(** [l[i]] and [l[i] = x] on a Python list: both raise out of range. *)
Definition getitem {A : Type} (l : list A) (i : nat) : outcome A :=
  match l !! i with
  | Some x => Ok x
  | None => Raise IndexError
  end.

Definition setitem {A : Type} (l : list A) (i : nat) (x : A) : outcome (list A) :=
  if decide (i < length l) then Ok (<[i := x]> l) else Raise IndexError.

(** ** The agent *)

(** The attributes of [self] that [__init__] fixes once and for all. *)
Record Hyper (num : Type) := {
  action_dim : nat;
  action_bound : list num;
  action_shift : list num;
  gamma : num;
  lam : num;
  c1 : num;
  c2 : num;
  clip_ratio : num;
  batch_size : nat;
  n_updates : nat
}.
Arguments action_dim {num} _.
Arguments action_bound {num} _.
Arguments action_shift {num} _.
Arguments gamma {num} _.
Arguments lam {num} _.
Arguments c1 {num} _.
Arguments c2 {num} _.
Arguments clip_ratio {num} _.
Arguments batch_size {num} _.
Arguments n_updates {num} _.

(** ** Advantage estimation: [PPO.get_gaes] *)

Section GAE.
Context {num : Type} `{Arith num}.
Variable self : Hyper num.
Local Open Scope num_scope.

(** [[r_t + gamma * v_next - v for r_t, v_next, v in zip(rewards,
    next_v_preds, v_preds)]]; [zip] stops at the shortest list. *)
Definition deltas (rewards v_preds next_v_preds : list num) : list num :=
  zip_with (λ r_t '(v_next, v), r_t + gamma self * v_next - v)
    rewards (zip next_v_preds v_preds).

(** [gaes[t] = gaes[t] + lam * gamma * gaes[t + 1]] on the list [gaes],
    updated in place. *)
Definition gae_update (gaes : list num) (t : nat) : outcome (list num) :=
  g_t ← getitem gaes t;
  g_next ← getitem gaes (t + 1)%nat;
  setitem gaes t (g_t + lam self * gamma self * g_next).

Definition get_gaes (rewards v_preds next_v_preds : list num)
  : outcome (list num) :=
  let deltas := deltas rewards v_preds next_v_preds in
  let gaes := deltas in
  for_each (reversed (range (length gaes - 1))) gae_update gaes.

(** The backward recursion as section 4.3 of the specification words it:
    the last advantage is the last delta, every earlier one adds the
    discounted advantage of its successor. *)
Fixpoint gae_backward (delta : list num) : list num :=
  match delta with
  | [] => []
  | d :: delta' =>
      match gae_backward delta' with
      | [] => [d]
      | g :: gs => (d + lam self * gamma self * g) :: g :: gs
      end
  end.
End GAE.

(** ** numpy and TensorFlow reductions *)

Section Reductions.
Context {num : Type} `{Arith num}.
Local Open Scope num_scope.

(** [tf.reduce_sum] over one axis.  TensorFlow does not fix the order of the
    additions; the model adds from left to right.  Over the reals the order
    is immaterial, and no binary64 result below depends on it. *)
Definition reduce_sum (l : list num) : num := foldl nadd zero l.

(** [tf.reduce_mean] of a vector: sum over count. *)
Definition mean (l : list num) : num := reduce_sum l / of_nat (length l).

(** [tf.reduce_mean] of a matrix without [axis]: the mean of all entries. *)
Definition reduce_mean (m : list (list num)) : num := mean (concat m).

(** [np.sum], that is [np.add.reduce], on a contiguous one-dimensional
    float64 array.  numpy fills the result with the identity 0 and adds to
    it the pairwise sum of the array ([DOUBLE_pairwise_sum]): fewer than 8
    elements are added from left to right onto 0; up to 128 elements are
    added in 8 interleaved lanes, the lanes combined as a balanced tree and
    the remaining [n mod 8] elements added from left to right; a longer
    array is split at [n / 2] rounded down to a multiple of 8 and the sums of
    the two parts are added.  In binary64 the grouping decides the rounding
    (and, between numpy versions, the sign of a zero sum, which no result
    below depends on). *)
Definition lanes_sum (r : list num) : num :=
  match r with
  | [r0; r1; r2; r3; r4; r5; r6; r7] =>
      ((r0 + r1) + (r2 + r3)) + ((r4 + r5) + (r6 + r7))
  | _ => zero
  end.

(** [for (i = 8; i < n - (n % 8); i += 8) r[j] += a[i + j]] *)
Fixpoint add_blocks (blocks : nat) (r a : list num) : list num :=
  match blocks with
  | 0 => r
  | S blocks' => add_blocks blocks' (zip_with nadd r (take 8 a)) (drop 8 a)
  end.

Definition pairwise_block (a : list num) : num :=
  let n := length a in
  let full := (n - n mod 8)%nat in
  let r := add_blocks (full / 8 - 1) (take 8 a) (drop 8 a) in
  foldl nadd (lanes_sum r) (drop full a).

(** The recursion halves the array, so [length a] levels of fuel are more
    than it uses (lemma [pairwise_sum_fuel] below). *)
Fixpoint pairwise_sum (fuel : nat) (a : list num) : num :=
  let n := length a in
  if (n <? 8)%nat then foldl nadd zero a
  else if (n <=? 128)%nat then pairwise_block a
  else
    match fuel with
    | 0 => zero
    | S fuel' =>
        let n2 := (n / 2 - (n / 2) mod 8)%nat in
        pairwise_sum fuel' (take n2 a) + pairwise_sum fuel' (drop n2 a)
    end.

Definition np_sum (a : list num) : num := zero + pairwise_sum (length a) a.

(** [ndarray.mean]: [np.add.reduce] over the count. *)
Definition np_mean (l : list num) : num := np_sum l / of_nat (length l).

(** [ndarray.std] with the default [ddof = 0]: numpy subtracts the mean,
    squares, averages and takes the root. *)
Definition std (l : list num) : num :=
  let arrmean := np_mean l in
  let x := fmap (λ a, a - arrmean) l in
  let x := fmap (λ a, a * a) x in
  nsqrt (np_mean x).

(** [(gaes - gaes.mean()) / gaes.std()], line 178 of [train]. *)
Definition normalize (gaes : list num) : list num :=
  let m := np_mean gaes in
  let s := std gaes in
  fmap (λ g, (g - m) / s) gaes.

(** [np.expand_dims(v, axis=-1)]: a vector becomes a column. *)
Definition expand_dims (v : list num) : list (list num) := fmap (λ x, [x]) v.
End Reductions.

(** ** The action distribution: [tfd.Normal] *)

Section Distribution.
Context {num : Type} `{Elementary num}.
Local Open Scope num_scope.

Record Normal := { loc : list num; scale : list num }.

Definition half : num := one / (one + one).

(** [tf.clip_by_value(t, lo, hi)], which TensorFlow computes as
    [maximum(minimum(t, hi), lo)]. *)
Definition clip (lo hi : num) (x : num) : num := nmax (nmin x hi) lo.
Definition clip_by_value (t : list num) (lo hi : num) : list num :=
  fmap (clip lo hi) t.

(** [Normal.log_prob], per dimension, as TensorFlow Probability computes it:
    [-0.5 * squared_difference(x / scale, loc / scale)
      - (0.5 * log(2 pi) + log scale)]. *)
Definition log_density (mu sigma x : num) : num :=
  let d := x / sigma - mu / sigma in
  (- half) * (d * d) - (half * nlog ((one + one) * npi) + nlog sigma).

Definition log_prob (dist : Normal) (x : list num) : list num :=
  zip_with (λ '(mu, sigma) a, log_density mu sigma a) (zip (loc dist) (scale dist)) x.

(** [Normal.entropy]: [0.5 + 0.5 * log(2 pi) + log scale], broadcast to the
    shape of [loc]. *)
Definition entropy1 (sigma : num) : num :=
  half + (half * nlog ((one + one) * npi) + nlog sigma).

Definition entropy (dist : Normal) : list num :=
  zip_with (λ _ sigma, entropy1 sigma) (loc dist) (scale dist).
End Distribution.
Arguments Normal : clear implicits.

(** ** The policy: [get_dist], [act], [evaluate_actions], [learn] *)

Section PPO.
Context {num : Type} `{Elementary num}.
Local Open Scope num_scope.

(** The Keras model is a black box from its weights and an observation to
    [(actions_mean, value_pred)]; [Rng] is the state of the random number
    generators, [sample] stands for [dist.sample()], and [apply_gradients]
    for the tape gradient of a loss, seen as a function of the trainable
    variables, followed by the Adam step on the optimizer state [Opt]. *)
Context {Weights Obs Rng Opt : Type}.
Variable network : Weights → Obs → list num * num.
Variable sample : Normal num → Rng → list num * Rng.
Variable apply_gradients :
  Opt → (Weights * list num → num) → Weights * list num → (Weights * list num) * Opt.

Variable self : Hyper num.

(** The trainable variables: the weights of [self.policy] and
    [self.policy_log_std]. *)
Record Params := { weights : Weights; policy_log_std : list num }.

Definition get_dist (θ : Params) (output : list num) : Normal num :=
  let std := fmap nexp (policy_log_std θ) in
  {| loc := output; scale := std |}.

(** [act] on one observation.  The source adds a batch axis of length one
    and strips it again with [action[0]], [value[0][0]], [log_probs[0]]; the
    model works on the single row. *)
Definition act (θ : Params) (state : Obs) (test : bool) (g : Rng)
  : (list num * num * num) * Rng :=
  let '(output, value) := network (weights θ) state in
  let dist := get_dist θ output in
  let '(action, g) := if test then (output, g) else sample dist g in
  let action := clip_by_value action (- one) one in
  let log_probs := reduce_sum (log_prob dist action) in
  let action :=
    zip_with nadd (zip_with nmul action (action_bound self)) (action_shift self) in
  ((action, value, log_probs), g).

(** [evaluate_actions] on a batch: row [i] of every result belongs to
    [state[i]], [action[i]].  [value] keeps the shape (batch, 1) of the
    network head and [entropy] the shape (batch, action_dim) of the
    distribution; only [log_probs] is reduced over the last axis. *)
Definition evaluate_actions (θ : Params) (state : list Obs) (action : list (list num))
  : list num * list (list num) * list (list num) :=
  let outs := fmap (network (weights θ)) state in
  let output := fmap fst outs in
  let value := fmap (λ o, [snd o]) outs in
  let dist := fmap (get_dist θ) output in
  let action :=
    fmap (λ a, zip_with ndiv (zip_with nsub a (action_shift self)) (action_bound self))
      action in
  let log_probs := zip_with log_prob dist action in
  let log_probs := fmap reduce_sum log_probs in
  let entropy := fmap entropy dist in
  (log_probs, entropy, value).

(** The four scalars [learn] leaves in [self.summaries]. *)
Record Summaries := {
  total_loss : num;
  surr_loss : num;
  vf_loss : num;
  entropy_loss : num
}.

(** The body of the [GradientTape] block of [learn], as a function of the
    trainable variables. *)
Definition losses (observations : list Obs) (actions : list (list num))
  (log_probs next_v_preds rewards gaes : list num) (θ : Params) : Summaries :=
  let rewards := expand_dims rewards in
  let next_v_preds := expand_dims next_v_preds in
  let '(new_log_probs, entropy, state_values) :=
    evaluate_actions θ observations actions in
  let ratios := fmap nexp (zip_with nsub new_log_probs log_probs) in
  let clipped_ratios :=
    clip_by_value ratios (one - clip_ratio self) (one + clip_ratio self) in
  let loss_clip :=
    zip_with nmin (zip_with nmul gaes ratios) (zip_with nmul gaes clipped_ratios) in
  let loss_clip := mean loss_clip in
  let target_values :=
    zip_with (zip_with nadd) rewards
      (fmap (fmap (M:=list) (nmul (gamma self))) next_v_preds) in
  let vf_loss :=
    reduce_mean
      (fmap (fmap (M:=list) (λ x : num, x * x))
         (zip_with (zip_with nsub) state_values target_values)) in
  let entropy := reduce_mean entropy in
  let total_loss := - loss_clip + c1 self * vf_loss - c2 self * entropy in
  {| total_loss := total_loss; surr_loss := loss_clip;
     vf_loss := vf_loss; entropy_loss := entropy |}.

Definition variables (θ : Params) : Weights * list num :=
  (weights θ, policy_log_std θ).
Definition of_variables (v : Weights * list num) : Params :=
  {| weights := v.1; policy_log_std := v.2 |}.

(** [learn]: one gradient step on [total_loss]; returns the new variables,
    the new optimizer state and the recorded summaries. *)
Definition learn (θ : Params) (o : Opt) (observations : list Obs)
  (actions : list (list num)) (log_probs next_v_preds rewards gaes : list num)
  : Params * Opt * Summaries :=
  let tape θ' :=
    losses observations actions log_probs next_v_preds rewards gaes θ' in
  let summ := tape θ in
  let '(v, o') :=
    apply_gradients o (λ v, total_loss (tape (of_variables v))) (variables θ) in
  (of_variables v, o', summ).

(** ** The training loop: [PPO.train] *)

(** The gym environment, with its hidden state made explicit, and
    [np.random.randint(low=0, high, size)]. *)
Context {Env : Type}.
Variable env_reset : Env → Obs * Env.
Variable env_step : Env → list num → (Obs * num * bool) * Env.
Variable randint : Rng → nat → nat → list nat * Rng.

(** The local variables of one rollout (lines 157 to 173). *)
Record Rollout := {
  done : bool;
  steps : nat;
  cur_state : Obs;
  obs : list Obs;
  actions : list (list num);
  log_probs : list num;
  rewards : list num;
  v_preds : list num;
  r_env : Env;
  r_rng : Rng
}.

Definition rollout_cond (max_steps : Z) (s : Rollout) : bool :=
  negb (done s) && (Z.of_nat (steps s) <? max_steps)%Z.

Definition rollout_body (θ : Params) (s : Rollout) : Rollout :=
  let '((action, value, log_prob), g) := act θ (cur_state s) false (r_rng s) in
  let '((next_state, reward, done), e) := env_step (r_env s) action in
  {| done := done;
     steps := steps s + 1;
     cur_state := next_state;
     obs := obs s ++ [cur_state s];
     actions := actions s ++ [action];
     log_probs := log_probs s ++ [log_prob];
     rewards := rewards s ++ [reward];
     v_preds := v_preds s ++ [value];
     r_env := e;
     r_rng := g |}.

Definition rollout_init (cur_state : Obs) (e : Env) (g : Rng) : Rollout :=
  {| done := false; steps := 0; cur_state := cur_state;
     obs := []; actions := []; log_probs := []; rewards := []; v_preds := [];
     r_env := e; r_rng := g |}.

(** The five trajectory lists grow together, one entry per step; the loop
    invariant of the rollout. *)
Definition aligned (s : Rollout) : Prop :=
  length (obs s) = steps s ∧ length (actions s) = steps s ∧
  length (log_probs s) = steps s ∧ length (rewards s) = steps s ∧
  length (v_preds s) = steps s.

(** The inner [while not done and steps < max_steps].  Every pass adds one
    to [steps], so [max_steps] passes of fuel are enough (lemma
    [rollout_fuel] below). *)
Definition rollout (θ : Params) (max_steps : Z) (cur_state : Obs) (e : Env) (g : Rng)
  : outcome Rollout :=
  while (Z.to_nat max_steps) (rollout_cond max_steps)
    (λ s, Ok (rollout_body θ s)) (rollout_init cur_state e g).

(** Files written by [save_model] and entries written by
    [tf.summary.scalar]. *)
Inductive Checkpoint :=
  | ppo_episode (episode : nat)
  | ppo_final_episode (episode : nat).

Inductive Tag :=
  | Loss_total_loss | Loss_clipped_surr | Loss_vf_loss | Loss_entropy
  | Main_episode_reward | Main_episode_steps.

Record Scalar := { tag : Tag; value : num; step : nat }.

(** What [train] carries from one episode to the next, with the files and
    the log entries written so far, oldest first. *)
Record Trainer := {
  params : Params;
  opt : Opt;
  env : Env;
  rng : Rng;
  episode : nat;
  epoch : nat;
  saved : list Checkpoint;
  scalars : list Scalar
}.

(** The entries under [Loss/...], which [train] writes once per update. *)
Definition is_loss (t : Tag) : bool :=
  match t with
  | Loss_total_loss | Loss_clipped_surr | Loss_vf_loss | Loss_entropy => true
  | Main_episode_reward | Main_episode_steps => false
  end.

Definition count_loss (l : list Scalar) : nat :=
  length (List.filter (λ s, is_loss (tag s)) l).

(** The six parallel arrays of line 179. *)
Definition Data : Type :=
  list Obs * list (list num) * list num * list num * list num * list num.

(** Lines 175 to 179: the bootstrap shift, the advantages and their
    normalization. *)
Definition episode_data (r : Rollout) : outcome Data :=
  let next_v_preds := drop 1 (v_preds r) ++ [zero] in
  gaes ← get_gaes self (rewards r) (v_preds r) next_v_preds;
  let gaes := normalize gaes in
  Ok (obs r, actions r, log_probs r, next_v_preds, rewards r, gaes).

(** [np.take(a, indices, axis=0)] *)
Fixpoint np_take {A : Type} (a : list A) (indices : list nat) : outcome (list A) :=
  match indices with
  | [] => Ok []
  | i :: indices' => x ← getitem a i; xs ← np_take a indices'; Ok (x :: xs)
  end.

(** One pass of [for i in range(self.n_updates)] (lines 182 to 197);
    [randint] raises when [high] is not above [low = 0]. *)
Definition update (data : Data) (t : Trainer) (i : nat) : outcome Trainer :=
  let '(obs, actions, log_probs, next_v_preds, rewards, gaes) := data in
  let high := length rewards in
  '(sample_indices, g) ←
    (if decide (0 < high) then Ok (randint (rng t) high (batch_size self))
     else Raise ValueError);
  s_obs ← np_take obs sample_indices;
  s_actions ← np_take actions sample_indices;
  s_log_probs ← np_take log_probs sample_indices;
  s_next_v_preds ← np_take next_v_preds sample_indices;
  s_rewards ← np_take rewards sample_indices;
  s_gaes ← np_take gaes sample_indices;
  let '(θ, o, summ) :=
    learn (params t) (opt t) s_obs s_actions s_log_probs s_next_v_preds s_rewards s_gaes in
  Ok {| params := θ; opt := o; env := env t; rng := g;
        episode := episode t;
        epoch := epoch t + 1;
        saved := saved t;
        scalars := scalars t ++
          [ {| tag := Loss_total_loss; value := total_loss summ; step := epoch t |};
            {| tag := Loss_clipped_surr; value := surr_loss summ; step := epoch t |};
            {| tag := Loss_vf_loss; value := vf_loss summ; step := epoch t |};
            {| tag := Loss_entropy; value := entropy_loss summ; step := epoch t |} ] |}.


Definition save_model (fn : Checkpoint) (t : Trainer) : Trainer :=
  {| params := params t; opt := opt t; env := env t; rng := rng t;
     episode := episode t; epoch := epoch t;
     saved := saved t ++ [fn]; scalars := scalars t |}.

(** The body of [while epoch < max_epochs] (lines 157 to 215). *)
Definition train_body (max_steps save_freq : Z) (t : Trainer) : outcome Trainer :=
  let '(cur_state, e) := env_reset (env t) in
  r ← rollout (params t) max_steps cur_state e (rng t);
  data ← episode_data r;
  t ← for_each (range (n_updates self)) (update data)
        {| params := params t; opt := opt t; env := r_env r; rng := r_rng r;
           episode := episode t; epoch := epoch t;
           saved := saved t; scalars := scalars t |};
  let t :=
    {| params := params t; opt := opt t; env := env t; rng := rng t;
       episode := episode t + 1; epoch := epoch t;
       saved := saved t;
       scalars := scalars t ++
         [ {| tag := Main_episode_reward; value := np_sum (rewards r);
              step := episode t + 1 |};
           {| tag := Main_episode_steps; value := of_nat (steps r);
              step := episode t + 1 |} ] |} in
  let t :=
    if (max_steps <=? Z.of_nat (steps r))%Z
    then save_model (ppo_episode (episode t)) t else t in
  if (save_freq =? 0)%Z then Raise ZeroDivisionError
  else
    Ok (if (Z.of_nat (episode t) mod save_freq =? 0)%Z
        then save_model (ppo_episode (episode t)) t else t).

(** [train]: [episode, epoch = 0, 0], the outer loop, then the unconditional
    final save.  The agent enters with its variables [θ], optimizer state
    [o], environment [e] and generator state [g]. *)
Definition train_init (θ : Params) (o : Opt) (e : Env) (g : Rng) : Trainer :=
  {| params := θ; opt := o; env := e; rng := g;
     episode := 0; epoch := 0; saved := []; scalars := [] |}.

Definition train (fuel : nat) (max_epochs max_steps save_freq : Z)
  (θ : Params) (o : Opt) (e : Env) (g : Rng) : outcome Trainer :=
  t ← while fuel (λ t, (Z.of_nat (epoch t) <? max_epochs)%Z)
        (train_body max_steps save_freq) (train_init θ o e g);
  Ok (save_model (ppo_final_episode (episode t)) t).
End PPO.
Arguments Params : clear implicits.
Arguments Summaries : clear implicits.
Arguments Rollout : clear implicits.
Arguments Scalar : clear implicits.
Arguments Trainer : clear implicits.
Arguments Data : clear implicits.

(** The checkpoints one pass of the outer loop writes, given the number of
    steps of its rollout and the number of the episode it completes. *)
Definition episode_saves (max_steps save_freq : Z) (steps episode : nat)
  : list Checkpoint :=
  (if (max_steps <=? Z.of_nat steps)%Z then [ppo_episode episode] else [])
  ++ (if (Z.of_nat episode mod save_freq =? 0)%Z then [ppo_episode episode] else []).

(** * The loss as the specification words it *)

(** Section 4.4 of the specification, steps 2 to 8, on flat vectors with one
    entry per sample of the minibatch; these definitions follow the text and
    are compared with [losses] below. *)
Section LossSpec.
Context {num : Type} `{Elementary num}.
Variable self : Hyper num.
Local Open Scope num_scope.

(** [ratio = exp(new_log_probs - stored_log_probs)] *)
Definition spec_ratio (new_log_probs stored_log_probs : list num) : list num :=
  nexp <$> zip_with nsub new_log_probs stored_log_probs.

(** [surrogate = mean(min(advantages * ratio, advantages * clipped_ratio))]
    with [clipped_ratio = clip(ratio, 1 - clip_ratio, 1 + clip_ratio)]: the
    minimum is taken entry by entry, then the mean. *)
Definition spec_surrogate (advantages ratio : list num) : num :=
  let clipped_ratio :=
    clip (one - clip_ratio self) (one + clip_ratio self) <$> ratio in
  mean (zip_with nmin (zip_with nmul advantages ratio)
          (zip_with nmul advantages clipped_ratio)).

(** The other order, minimum of the two means, which the specification
    rules out. *)
Definition min_of_means (advantages ratio : list num) : num :=
  let clipped_ratio :=
    clip (one - clip_ratio self) (one + clip_ratio self) <$> ratio in
  nmin (mean (zip_with nmul advantages ratio))
       (mean (zip_with nmul advantages clipped_ratio)).

(** [value_loss = mean((state_values - (reward + gamma * next_v_pred))^2)] *)
Definition spec_value_loss (state_values reward next_v_pred : list num) : num :=
  mean (zip_with (λ v target, (v - target) * (v - target)) state_values
          (zip_with (λ r nv, r + gamma self * nv) reward next_v_pred)).

(** [total_loss = -surrogate + c1 * value_loss - c2 * entropy_bonus] *)
Definition spec_total_loss (surrogate value_loss entropy_bonus : num) : num :=
  - surrogate + c1 self * value_loss - c2 self * entropy_bonus.

End LossSpec.

(** * Concrete inputs *)

(** The hyperparameters of section 8 of the specification for the advantage
    estimator: [gamma = 1], [lam = 1]; the remaining attributes keep the
    defaults of [__init__] on a one-dimensional action space [[-1, 1]]. *)
Definition unit_discount : Hyper float :=
  {| action_dim := 1; action_bound := [1%float]; action_shift := [0%float];
     gamma := 1%float; lam := 1%float; c1 := 1%float; c2 := 0.01%float;
     clip_ratio := 0.2%float; batch_size := 64; n_updates := 4 |}.

(** A one-dimensional action space [[-1, 1]] over the reals with the
    default hyperparameters of [__init__]. *)
Definition unit_box : Hyper R :=
  {| action_dim := 1; action_bound := [1%R]; action_shift := [0%R];
     gamma := (95 / 100)%R; lam := 1%R; c1 := 1%R; c2 := (1 / 100)%R;
     clip_ratio := (2 / 10)%R; batch_size := 64; n_updates := 4 |}.

(** A network without weights whose mean head always answers [2] and whose
    value head answers [0], and a sampler that returns the mean. *)
Definition constant_network : unit → unit → list R * R := λ _ _, ([2%R], 0%R).
Definition mean_sampler : Normal R → unit → list R * unit := λ d g, (loc d, g).
Definition no_weights : Params R unit := {| weights := tt; policy_log_std := [0%R] |}.


(** A trivial fixed-reward environment: the observation is [tt], every step
    pays reward 1, and the episode is done after [horizon] steps.  Its hidden
    state counts the steps since the last reset. *)
Definition fixed_reward_reset : nat → unit * nat := λ _, (tt, 0).
Definition fixed_reward_step (horizon : nat) : nat → list R → (unit * R * bool) * nat :=
  λ n _, ((tt, 1%R, horizon <=? n + 1), n + 1).

(** An optimizer that leaves the variables alone and a generator that always
    draws index 0. *)
Definition idle_optimizer
  : unit → (unit * list R → R) → unit * list R → (unit * list R) * unit :=
  λ o _ v, (v, o).
Definition first_index : unit → nat → nat → list nat * unit :=
  λ g _ size, (replicate size 0, g).


(** Binary64 inputs: a one-dimensional network without weights whose mean
    head answers [mu] and whose value head answers [0], a sampler that
    returns the mean, and the initial [policy_log_std = zeros(1)]. *)
Definition float_network (mu : float) : unit → unit → list float * float :=
  λ _ _, ([mu], 0%float).
Definition float_mean_sampler : Normal float → unit → list float * unit :=
  λ d g, (loc d, g).
Definition float_unit_std : Params float unit :=
  {| weights := tt; policy_log_std := [0%float] |}.

(** The action space [[0, inf)], unbounded above: [__init__] computes the
    bound [(inf - 0) / 2 = inf] and the shift [(inf + 0) / 2 = inf]. *)
Definition half_line : Hyper float :=
  {| action_dim := 1; action_bound := [infinity]; action_shift := [infinity];
     gamma := 0.95%float; lam := 1%float; c1 := 1%float; c2 := 0.01%float;
     clip_ratio := 0.2%float; batch_size := 64; n_updates := 4 |}.

(** The action space [[1e16, 1e16 + 4]], far from the origin: bound
    [4 / 2 = 2] and shift [(2e16 + 4) / 2 = 1e16 + 2], all of them binary64
    numbers. *)
Definition far_box : Hyper float :=
  {| action_dim := 1; action_bound := [2%float];
     action_shift := [10000000000000002%float];
     gamma := 0.95%float; lam := 1%float; c1 := 1%float; c2 := 0.01%float;
     clip_ratio := 0.2%float; batch_size := 64; n_updates := 4 |}.


(** * Notions used to state further properties *)

(** The discounted sum [x0 + c * (x1 + c * (x2 + ...))] of a list. *)
Definition discounted (c : R) (l : list R) : R :=
  foldr (λ x acc, (x + c * acc)%R) 0%R l.

(** ** Evaluation: [PPO.test] *)

Section Evaluation.
Context {num : Type} `{Elementary num}.
Context {Weights Obs Rng Env Frame : Type}.
Variable network : Weights → Obs → list num * num.
Variable sample : Normal num → Rng → list num * Rng.
Variable self : Hyper num.
Variable env_reset : Env → Obs * Env.
Variable env_step : Env → list num → (Obs * num * bool) * Env.
Variable env_render : Env → Frame.
Local Open Scope num_scope.

(** The local variables of [test]; [video] collects the frames handed to
    the writer, oldest first. *)
Record Playback := {
  p_state : Obs;
  p_done : bool;
  p_rewards : num;
  p_video : list Frame;
  p_env : Env;
  p_rng : Rng
}.

(** The body of [while not done] (lines 223 to 228). *)
Definition test_body (render : bool) (θ : Params num Weights) (s : Playback)
  : Playback :=
  let '((action, value, log_prob), g) := act network sample self θ (p_state s) true (p_rng s) in
  let '((next_state, reward, done), e) := env_step (p_env s) action in
  {| p_state := next_state;
     p_done := done;
     p_rewards := p_rewards s + reward;
     p_video := if render then p_video s ++ [env_render e] else p_video s;
     p_env := e;
     p_rng := g |}.

(** [test]: reset, play until the environment reports [done], return the
    summed rewards (and, in the model, the frames written).  The loop has no
    step limit, so the model needs fuel. *)
Definition test (fuel : nat) (render : bool) (θ : Params num Weights) (e : Env)
  (g : Rng) : outcome (num * list Frame) :=
  let '(cur_state, e) := env_reset e in
  s ← while fuel (λ s, negb (p_done s)) (λ s, Ok (test_body render θ s))
        {| p_state := cur_state; p_done := false; p_rewards := zero;
           p_video := []; p_env := e; p_rng := g |};
  Ok (p_rewards s, p_video s).
End Evaluation.
Arguments Playback : clear implicits.

(** ** More concrete inputs *)

(** The hyperparameters of [unit_box] with [lam = 0]. *)
Definition one_step : Hyper R :=
  {| action_dim := 1; action_bound := [1%R]; action_shift := [0%R];
     gamma := (95 / 100)%R; lam := 0%R; c1 := 1%R; c2 := (1 / 100)%R;
     clip_ratio := (2 / 10)%R; batch_size := 64; n_updates := 4 |}.

(** The hyperparameters of [unit_box] without updates ([n_updates = 0]). *)
Definition no_updates : Hyper R :=
  {| action_dim := 1; action_bound := [1%R]; action_shift := [0%R];
     gamma := (95 / 100)%R; lam := 1%R; c1 := 1%R; c2 := (1 / 100)%R;
     clip_ratio := (2 / 10)%R; batch_size := 64; n_updates := 0 |}.

(** A fixed-reward environment that never reports [done]. *)
Definition endless_step : nat → list R → (unit * R * bool) * nat :=
  λ n _, ((tt, 1%R, false), n + 1).

(** A network whose mean head answers [1/2], inside [[-1, 1]] as the [tanh]
    activation of [Out_mean] guarantees. *)
Definition half_network : unit → unit → list R * R := λ _ _, ([(1 / 2)%R], 0%R).

(** ** The invariant of the outer loop of [train] *)

Section TrainInvariant.
Context {num Weights Rng Opt Env : Type}.

(** Between two episodes: [epoch] has grown by [n_updates] per episode, four
    loss entries were written per epoch, no final checkpoint exists yet, the
    checkpoint of every episode whose number [save_freq] divides has been
    written, and only completed episodes have checkpoints. *)
Definition train_inv (self : Hyper num) (save_freq : Z)
  (t : Trainer num Weights Rng Opt Env) : Prop :=
  epoch t = n_updates self * episode t
  ∧ count_loss (scalars t) = 4 * epoch t
  ∧ (∀ k, ppo_final_episode k ∉ saved t)
  ∧ (∀ k, 1 ≤ k ≤ episode t → (Z.of_nat k mod save_freq = 0)%Z →
          ppo_episode k ∈ saved t)
  ∧ (∀ k, ppo_episode k ∈ saved t → 1 ≤ k ≤ episode t).
End TrainInvariant.

(** ** The shape of the metric log *)

(** The tag and the step of every entry, in the order written. *)
Definition log_of {num : Type} (l : list (Scalar num)) : list (Tag * nat) :=
  (λ s, (tag s, step s)) <$> l.

(** The four loss entries of update number [e], and the entries of episode
    number [k + 1]: its [n_updates] groups of loss entries, then the two
    episode entries. *)
Definition loss_group (e : nat) : list (Tag * nat) :=
  [(Loss_total_loss, e); (Loss_clipped_surr, e); (Loss_vf_loss, e);
   (Loss_entropy, e)].

Definition episode_log (n_updates k : nat) : list (Tag * nat) :=
  flat_map loss_group (seq (n_updates * k) n_updates)
  ++ [(Main_episode_reward, k + 1); (Main_episode_steps, k + 1)].

(** * Binary64 rounding

    Notions used to follow the rounding of [SpecFloat], the specification of
    Rocq's primitive floats, through the rescaling of [act]. *)

Section Rounding64_defs.
Local Open Scope Z_scope.

(** Iterating [shr_1]: after [n >= 1] shifts the record holds the quotient by
    [2^n], the last bit shifted out and whether anything below it was set. *)
Definition shifted (M n : Z) (mrs : shr_record) : Prop :=
  shr_m mrs = M / 2 ^ n
  ∧ shr_r mrs = Z.odd (M / 2 ^ (n - 1))
  ∧ shr_s mrs = negb (M mod 2 ^ (n - 1) =? 0).

(** Rounding [M / 2^n] to the nearest integer, ties to even, as
    [round_nearest_even] does on the record [shr] leaves. *)
Definition rne (M n : Z) : Z :=
  let q := M / 2 ^ n in
  if Z.odd (M / 2 ^ (n - 1)) then
    if negb (M mod 2 ^ (n - 1) =? 0) then q + 1
    else if Z.even q then q else q + 1
  else q.

(** The value of a binary64 number in units of [2^-1074], with the infinities
    placed at [± 2^1024]. *)
Definition sval (x : spec_float) : Z :=
  match x with
  | S754_zero _ => 0
  | S754_finite s m e => if s then - (Zpos m * 2 ^ (e + 1074)) else Zpos m * 2 ^ (e + 1074)
  | S754_infinity s => if s then - 2 ^ 2098 else 2 ^ 2098
  | S754_nan => 0
  end.

(** Rounding to binary64, to nearest with ties to even: from an exact value
    [N * 2^-2148] to a value in units of [2^-1074]. *)
Definition round_pos (N : Z) : Z :=
  let t := Z.max (Z.log2 N + 1 - 2148 - 53) (-1074) in
  Z.min (rne N (t + 2148) * 2 ^ (t + 1074)) (2 ^ 2098).

Definition round_units (N : Z) : Z :=
  if N =? 0 then 0 else if 0 <? N then round_pos N else - round_pos (- N).

(** Numbers: zeros and finite values. *)
Definition SFnumber (x : spec_float) : Prop :=
  match x with
  | S754_zero _ | S754_finite _ _ _ => True
  | S754_infinity _ | S754_nan => False
  end.

End Rounding64_defs.

(** * Properties *)

(** ** Generic facts about the monad and the loops *)

Lemma for_each_app {S X : Type} (xs ys : list X) (body : S → X → outcome S) (s : S) :
  for_each (xs ++ ys) body s = (s' ← for_each xs body s; for_each ys body s').
Proof.
  revert s. induction xs as [|x xs IH]; intros s; simpl; [done|].
  destruct (body s x); simpl; auto.
Qed.

Lemma getitem_Ok {A : Type} (l : list A) (i : nat) (x : A) :
  l !! i = Some x → getitem l i = Ok x.
Proof. intros E. unfold getitem. by rewrite E. Qed.

Lemma setitem_Ok {A : Type} (l : list A) (i : nat) (x : A) :
  i < length l → setitem l i x = Ok (<[i := x]> l).
Proof. intros Hi. unfold setitem. by rewrite decide_True. Qed.

(** ** [get_gaes] is the backward recursion *)

Section GAE_correct.
Context {num : Type} `{Arith num}.
Variable self : Hyper num.

Lemma length_deltas (r v nv : list num) (T : nat) :
  length r = T → length v = T → length nv = T →
  length (deltas self r v nv) = T.
Proof.
  intros Hr Hv Hnv. unfold deltas.
  rewrite length_zip_with, length_zip_with. lia.
Qed.

Lemma nth_deltas (r v nv : list num) (t : nat) :
  t < length r → t < length v → t < length nv →
  nth t (deltas self r v nv) zero =
  (nth t r zero + gamma self * nth t nv zero - nth t v zero)%num.
Proof.
  unfold deltas. revert r v nv.
  induction t as [|t IH]; intros [|a r] [|b v] [|c nv]; simpl; try lia; auto.
  intros. apply IH; lia.
Qed.

Lemma length_gae_backward (delta : list num) :
  length (gae_backward self delta) = length delta.
Proof.
  induction delta as [|d delta IH]; simpl; [done|].
  destruct (gae_backward self delta); simpl in *; lia.
Qed.

Lemma gae_backward_last (delta : list num) :
  nth (length delta - 1) (gae_backward self delta) zero =
  nth (length delta - 1) delta zero.
Proof.
  induction delta as [|d delta IH]; simpl; [done|].
  pose proof (length_gae_backward delta) as Hl.
  destruct (gae_backward self delta) as [|g gs] eqn:E; simpl in *.
  - destruct delta; simpl in *; [done|lia].
  - destruct delta as [|d' delta]; simpl in *; [lia|].
    rewrite Nat.sub_0_r in *. exact IH.
Qed.

Lemma gae_backward_step (delta : list num) (t : nat) :
  t + 1 < length delta →
  nth t (gae_backward self delta) zero =
  (nth t delta zero
   + lam self * gamma self * nth (t + 1) (gae_backward self delta) zero)%num.
Proof.
  revert t. induction delta as [|d delta IH]; intros t Ht; simpl in *; [lia|].
  pose proof (length_gae_backward delta) as Hl.
  destruct (gae_backward self delta) as [|g gs] eqn:E; simpl in *; [lia|].
  destruct t as [|t]; simpl; [done|].
  apply IH. lia.
Qed.

(** The state of the list after the loop has visited [t = n-2, ..., k]:
    untouched deltas below [k], finished advantages from [k] on. *)
Lemma gae_loop_invariant (delta : list num) (m k : nat) :
  k + m = length delta - 1 →
  for_each (rev (seq k m)) (gae_update self) delta =
  Ok (take k delta ++ gae_backward self (drop k delta)).
Proof.
  revert k. induction m as [|m IH]; intros k Hk.
  - simpl. f_equal.
    destruct (decide (length delta = 0)) as [Hz|Hz].
    + destruct delta; simpl in *; [|lia]. by destruct k.
    + assert (Hd : length (drop k delta) = 1) by (rewrite length_drop; lia).
      destruct (drop k delta) as [|x [|y l]] eqn:E; simpl in Hd; try lia.
      simpl. rewrite <- E. by rewrite take_drop.
  - simpl. rewrite for_each_app. rewrite (IH (S k)) by lia. simpl.
    assert (Hlt : k < length delta) by lia.
    destruct (lookup_lt_is_Some_2 delta k Hlt) as [d Hd].
    pose proof (length_gae_backward (drop (S k) delta)) as Hl.
    rewrite length_drop in Hl.
    destruct (gae_backward self (drop (S k) delta)) as [|g gs] eqn:E;
      simpl in Hl; [lia|].
    unfold gae_update.
    rewrite (getitem_Ok _ k d).
    2:{ rewrite lookup_app_l by (rewrite length_take; lia).
        rewrite lookup_take_lt by lia. done. }
    simpl.
    rewrite (getitem_Ok _ (k + 1) g).
    2:{ rewrite lookup_app_r by (rewrite length_take; lia).
        rewrite length_take. replace (k + 1 - _) with 0 by lia. done. }
    simpl.
    rewrite setitem_Ok.
    2:{ rewrite length_app, length_take, length_cons. lia. }
    f_equal.
    rewrite (take_S_r _ _ d Hd), <- app_assoc. simpl.
    rewrite insert_app_r_alt by (rewrite length_take; lia).
    rewrite length_take. replace (k - _) with 0 by lia. simpl.
    rewrite (drop_S _ _ _ Hd). simpl. rewrite E. done.
Qed.

(** The loop of [get_gaes] never raises and computes [gae_backward]. *)
Lemma get_gaes_backward (r v nv : list num) :
  get_gaes self r v nv = Ok (gae_backward self (deltas self r v nv)).
Proof.
  unfold get_gaes, reversed, range.
  rewrite gae_loop_invariant by lia. by rewrite take_0, drop_0.
Qed.
End GAE_correct.

(** C1.  For an episode of length [T >= 1] whose rewards, value predictions
    and next-value predictions all have length [T], [get_gaes] returns
    (without raising) the vector [gae] of length [T] with
    [delta[t] = r[t] + gamma * nv[t] - v[t]], [gae[T-1] = delta[T-1]] and
    [gae[t] = delta[t] + lam * gamma * gae[t+1]] for [t < T-1]; its loop
    visits [t = T-2, T-3, ..., 0], in that order.  In binary64, with
    [gamma = lam = 1], rewards [[1,1,1]] and all value predictions zero, the
    result is [[3,2,1]]. *)
Theorem get_gaes_spec :
  (∀ (num : Type) (A : Arith num) (self : Hyper num) (T : nat) (r v nv : list num),
     1 ≤ T → length r = T → length v = T → length nv = T →
     ∃ delta gae : list num,
       delta = deltas self r v nv ∧
       get_gaes self r v nv = for_each (reversed (range (T - 1))) (gae_update self) delta ∧
       (∀ i, i < T - 1 → reversed (range (T - 1)) !! i = Some (T - 2 - i)) ∧
       get_gaes self r v nv = Ok gae ∧
       length delta = T ∧ length gae = T ∧
       (∀ t, t < T →
          nth t delta zero
          = (nth t r zero + gamma self * nth t nv zero - nth t v zero)%num) ∧
       nth (T - 1) gae zero = nth (T - 1) delta zero ∧
       (∀ t, t + 1 < T →
          nth t gae zero
          = (nth t delta zero + lam self * gamma self * nth (t + 1) gae zero)%num))
  ∧ get_gaes unit_discount [1; 1; 1]%float [0; 0; 0]%float [0; 0; 0]%float
    = Ok [3; 2; 1]%float.
Proof.
  split; [|vm_compute; reflexivity].
  intros num A self T r v nv HT Hr Hv Hnv.
  pose proof (length_deltas self r v nv T Hr Hv Hnv) as Hd.
  exists (deltas self r v nv), (gae_backward self (deltas self r v nv)).
  split; [reflexivity|]. split.
  { unfold get_gaes. by rewrite Hd. }
  split.
  { intros i Hi. unfold reversed, range.
    rewrite rev_alt. fold (reverse (seq 0 (T - 1))).
    rewrite reverse_lookup; rewrite length_seq; [|lia].
    rewrite lookup_seq_lt by lia. f_equal. lia. }
  split; [apply get_gaes_backward|].
  split; [exact Hd|].
  split; [by rewrite length_gae_backward|].
  split.
  { intros t Ht. apply nth_deltas; lia. }
  split.
  { rewrite <- Hd. apply gae_backward_last. }
  intros t Ht. apply gae_backward_step. lia.
Qed.

Lemma get_gaes_spec_witness :
  ∃ gae : list float,
    get_gaes unit_discount [1; 1; 1]%float [0; 0; 0]%float [0; 0; 0]%float = Ok gae ∧
    length gae = 3.
Proof.
  destruct (proj1 get_gaes_spec float _ unit_discount 3
              [1; 1; 1]%float [0; 0; 0]%float [0; 0; 0]%float)
    as (delta & gae & _ & _ & _ & Hg & _ & Hl & _);
    [lia | reflexivity | reflexivity | reflexivity |].
  exists gae. split; assumption.
Defined.

(** ** Action selection *)

Section Act.
Context {num : Type} `{Elementary num}.
Context {Weights Obs Rng : Type}.
Variable network : Weights → Obs → list num * num.
Variable self : Hyper num.

(** What [act] returns when [test] is set, whatever the sampler and the
    generator state: the clipped, rescaled mean of the network, the value
    head, and the log-density of the clipped mean. *)
Lemma act_test (sample : Normal num → Rng → list num * Rng)
  (θ : Params num Weights) (state : Obs) (g : Rng) :
  act network sample self θ state true g =
  (let output := (network (weights θ) state).1 in
   let dist := get_dist θ output in
   let action := clip_by_value output (- one)%num one in
   (zip_with nadd (zip_with nmul action (action_bound self)) (action_shift self),
    (network (weights θ) state).2,
    reduce_sum (log_prob dist action)), g).
Proof.
  unfold act. destruct (network (weights θ) state) as [output value]. reflexivity.
Qed.
End Act.

(** C8.  In deterministic mode ([test=True]) [act] does not consult the
    sampler or the generator: two calls on the same state under the same
    trainable variables return the same action (and the same value and
    log-probability), whatever sampler and generator state each call sees,
    and leave the generator state untouched.  The action is the network mean,
    clipped and rescaled. *)
Theorem act_deterministic :
  ∀ (num : Type) (A : Arith num) (E : Elementary num) (Weights Obs Rng : Type)
    (network : Weights → Obs → list num * num)
    (sample1 sample2 : Normal num → Rng → list num * Rng)
    (self : Hyper num) (θ : Params num Weights) (state : Obs) (g1 g2 : Rng),
    (act network sample1 self θ state true g1).1
    = (act network sample2 self θ state true g2).1
    ∧ (act network sample1 self θ state true g1).2 = g1
    ∧ (act network sample1 self θ state true g1).1.1.1
      = zip_with nadd
          (zip_with nmul
             (clip_by_value (network (weights θ) state).1 (- one)%num one)
             (action_bound self))
          (action_shift self).
Proof.
  intros. rewrite !act_test. simpl. auto.
Qed.

(** ** Rounding in binary64 *)

(** [SpecFloat] rounds a mantissa by shifting it right and inspecting the
    bits shifted out.  The lemmas below read that algorithm as a function of
    the exact value, rounding to nearest with ties to even, show that this
    function is monotone, and conclude that binary64 multiplication, addition
    and subtraction round the exact result monotonically, and that
    multiplying and dividing by one are exact. *)

Section Rounding64.
Local Open Scope Z_scope.

Ltac std_ops :=
  change IntDef.Z.add with Z.add in *; change IntDef.Z.sub with Z.sub in *;
  change IntDef.Z.mul with Z.mul in *; change IntDef.Z.max with Z.max in *;
  change IntDef.Z.min with Z.min in *; change IntDef.Z.leb with Z.leb in *;
  change IntDef.Z.eqb with Z.eqb in *; change IntDef.Z.compare with Z.compare in *;
  change IntDef.Z.even with Z.even in *; change IntDef.Z.opp with Z.opp in *.

(** The exponent of the format at magnitude [x]. *)
Lemma fexp_eq (x : Z) : fexp prec emax x = Z.max (x - 53) (-1074).
Proof. reflexivity. Qed.

(** [digits2_pos] counts binary digits. *)
Lemma digits2_bounds (p : positive) :
  2 ^ (Zpos (digits2_pos p) - 1) <= Zpos p < 2 ^ Zpos (digits2_pos p).
Proof.
  induction p as [p IH|p IH|]; cbn [digits2_pos].
  - rewrite Pos2Z.inj_succ.
    replace (Z.succ (Zpos (digits2_pos p)) - 1) with (Z.succ (Zpos (digits2_pos p) - 1))
      by lia.
    rewrite !Z.pow_succ_r by lia. lia.
  - rewrite Pos2Z.inj_succ.
    replace (Z.succ (Zpos (digits2_pos p)) - 1) with (Z.succ (Zpos (digits2_pos p) - 1))
      by lia.
    rewrite !Z.pow_succ_r by lia. lia.
  - simpl. lia.
Qed.

Lemma digits2_unique (p : positive) (d : Z) :
  2 ^ (d - 1) <= Zpos p < 2 ^ d → Zpos (digits2_pos p) = d.
Proof.
  intros [Hlo Hhi]. pose proof (digits2_bounds p) as [Hlo' Hhi'].
  set (d' := Zpos (digits2_pos p)) in *.
  assert (0 < d') by (unfold d'; lia).
  assert (0 < d).
  { destruct (Z.lt_ge_cases 0 d) as [|Hd]; [done|].
    assert (2 ^ d <= 1); [|lia].
    destruct (Z.eq_dec d 0) as [->|]; [simpl; lia|].
    rewrite Z.pow_neg_r by lia. lia. }
  destruct (Z.lt_trichotomy d d') as [Hlt|[Heq|Hgt]]; [|done|].
  - assert (2 ^ d <= 2 ^ (d' - 1)) by (apply Z.pow_le_mono_r; lia). lia.
  - assert (2 ^ d' <= 2 ^ (d - 1)) by (apply Z.pow_le_mono_r; lia). lia.
Qed.

Lemma shr_1_div2 (mrs : shr_record) :
  0 <= shr_m mrs →
  shr_m (shr_1 mrs) = shr_m mrs / 2
  ∧ shr_r (shr_1 mrs) = Z.odd (shr_m mrs)
  ∧ shr_s (shr_1 mrs) = shr_r mrs || shr_s mrs.
Proof.
  destruct mrs as [m r s]. cbn [shr_m shr_r shr_s]. intros Hm.
  destruct m as [|[p|p|]|p]; cbn [shr_1 shr_m shr_r shr_s]; try lia.
  - repeat split. 
  - repeat split; try reflexivity. rewrite Pos2Z.inj_xI.
    Z.div_mod_to_equations. lia.
  - repeat split; try reflexivity. rewrite Pos2Z.inj_xO.
    Z.div_mod_to_equations. lia.
  - repeat split.
Qed.

Lemma shifted_first (M : Z) :
  0 <= M → shifted M 1 (shr_1 {| shr_m := M; shr_r := false; shr_s := false |}).
Proof.
  intros HM. destruct (shr_1_div2 {| shr_m := M; shr_r := false; shr_s := false |} HM)
    as (Hm & Hr & Hs). cbn [shr_m shr_r shr_s] in *.
  unfold shifted. rewrite Hm, Hr, Hs. simpl (1 - 1). rewrite Z.pow_0_r, Z.pow_1_r.
  rewrite Z.div_1_r, Z.mod_1_r. done.
Qed.

Lemma shifted_next (M n : Z) (mrs : shr_record) :
  0 <= M → 1 <= n → shifted M n mrs → shifted M (n + 1) (shr_1 mrs).
Proof.
  intros HM Hn (Hm & Hr & Hs).
  assert (Hpos : 0 < 2 ^ (n - 1)) by (apply Z.pow_pos_nonneg; lia).
  assert (Hpow : 2 ^ n = 2 ^ (n - 1) * 2).
  { replace n with ((n - 1) + 1) at 1 by lia. rewrite Z.pow_add_r by lia. lia. }
  assert (Hm0 : 0 <= shr_m mrs).
  { rewrite Hm. apply Z.div_pos; [lia|]. lia. }
  destruct (shr_1_div2 mrs Hm0) as (Hm' & Hr' & Hs').
  unfold shifted. rewrite Hm', Hr', Hs', Hm, Hr, Hs.
  replace (n + 1 - 1) with n by lia.
  split; [|split; [reflexivity|]].
  - rewrite Z.pow_add_r by lia. rewrite Z.pow_1_r. apply Z.div_div; lia.
  - (* M mod 2^n = 0 <-> bit (n-1) is even and M mod 2^(n-1) = 0 *)
    rewrite Hpow.
    rewrite Z.rem_mul_r by lia.
    set (lo := M mod 2 ^ (n - 1)). set (q := M / 2 ^ (n - 1)).
    assert (Hlo : 0 <= lo < 2 ^ (n - 1)) by (apply Z.mod_pos_bound; lia).
    assert (Hq : 0 <= q mod 2 < 2) by (apply Z.mod_pos_bound; lia).
    rewrite Zodd_mod.
    destruct (Z.eqb_spec (q mod 2) 1) as [H1|H1];
      destruct (Z.eqb_spec lo 0) as [H0|H0];
      destruct (Z.eqb_spec (lo + 2 ^ (n - 1) * (q mod 2)) 0) as [H2|H2];
      simpl; try reflexivity; try nia.
Qed.

Lemma iter_pos_shifted (M : Z) (p : positive) :
  0 <= M →
  shifted M (Zpos p)
    (SpecFloat.iter_pos shr_1 p {| shr_m := M; shr_r := false; shr_s := false |}).
Proof.
  intros HM.
  assert (Hgen : ∀ (q : positive) (mrs : shr_record) (n : Z),
             1 <= n → shifted M n mrs →
             shifted M (n + Zpos q) (SpecFloat.iter_pos shr_1 q mrs)).
  { induction q as [q IH|q IH|]; intros mrs n Hn Hs; cbn [SpecFloat.iter_pos].
    - replace (n + Zpos q~1) with (((n + 1) + Zpos q) + Zpos q) by lia.
      apply IH; [lia|]. apply IH; [lia|]. by apply shifted_next.
    - replace (n + Zpos q~0) with ((n + Zpos q) + Zpos q) by lia.
      apply IH; [lia|]. by apply IH.
    - by apply shifted_next. }
  destruct p as [q|q|]; cbn [SpecFloat.iter_pos].
  - replace (Zpos q~1) with ((1 + Zpos q) + Zpos q) by lia.
    apply Hgen; [lia|]. apply Hgen; [lia|]. by apply shifted_first.
  - (* xO: iter q (iter q x): first inner starts from the unshifted record *)
    assert (Hq : shifted M (Zpos q)
                   (SpecFloat.iter_pos shr_1 q
                      {| shr_m := M; shr_r := false; shr_s := false |})).
    { clear -HM Hgen. induction q as [q IH|q IH|]; cbn [SpecFloat.iter_pos].
      - replace (Zpos q~1) with ((1 + Zpos q) + Zpos q) by lia.
        apply Hgen; [lia|]. apply Hgen; [lia|]. by apply shifted_first.
      - replace (Zpos q~0) with (Zpos q + Zpos q) by lia.
        apply Hgen; [lia|]. exact IH.
      - by apply shifted_first. }
    replace (Zpos q~0) with (Zpos q + Zpos q) by lia.
    apply Hgen; [lia|]. exact Hq.
  - by apply shifted_first.
Qed.

Lemma round_shifted (M n : Z) (mrs : shr_record) :
  shifted M n mrs →
  round_nearest_even (shr_m mrs) (loc_of_shr_record mrs) = rne M n.
Proof.
  intros (Hm & Hr & Hs). unfold rne. rewrite <- Hm, <- Hr, <- Hs.
  destruct mrs as [m [|] [|]]; cbn [shr_m shr_r shr_s loc_of_shr_record
    round_nearest_even negb]; std_ops; reflexivity.
Qed.

Lemma rne_spec (M n : Z) :
  0 <= M → 1 <= n →
  let q := M / 2 ^ n in
  let r := M mod 2 ^ n in
  (2 * r < 2 ^ n → rne M n = q)
  ∧ (2 ^ n < 2 * r → rne M n = q + 1)
  ∧ (2 * r = 2 ^ n → rne M n = if Z.even q then q else q + 1).
Proof.
  intros HM Hn q r.
  assert (Hh : 0 < 2 ^ (n - 1)) by (apply Z.pow_pos_nonneg; lia).
  assert (Hpow : 2 ^ n = 2 ^ (n - 1) * 2).
  { replace n with ((n - 1) + 1) at 1 by lia. rewrite Z.pow_add_r by lia. lia. }
  set (h := 2 ^ (n - 1)) in *.
  set (a := M / h). set (lo := M mod h).
  assert (Hlo : 0 <= lo < h) by (apply Z.mod_pos_bound; lia).
  assert (Hq : q = a / 2).
  { unfold q, a. rewrite Hpow. symmetry. apply Z.div_div; lia. }
  assert (Hr : r = lo + h * (a mod 2)).
  { unfold r, lo, a. rewrite Hpow. apply Z.rem_mul_r; lia. }
  assert (Ha : 0 <= a mod 2 < 2) by (apply Z.mod_pos_bound; lia).
  unfold rne. fold h. fold a. fold lo. fold q.
  rewrite Zodd_mod.
  destruct (Z.eqb_spec (a mod 2) 1) as [H1|H1];
    destruct (Z.eqb_spec lo 0) as [H0|H0]; cbn [negb];
    repeat split; intros; try reflexivity; try nia.
Qed.

Lemma rne_bounds (M n : Z) :
  0 <= M → 1 <= n →
  M / 2 ^ n <= rne M n <= M / 2 ^ n + 1
  ∧ (M mod 2 ^ n = 0 → rne M n = M / 2 ^ n).
Proof.
  intros HM Hn. destruct (rne_spec M n HM Hn) as (Hlt & Hgt & Heq).
  assert (Hp : 0 < 2 ^ n) by (apply Z.pow_pos_nonneg; lia).
  pose proof (Z.mod_pos_bound M (2 ^ n) Hp) as Hr.
  destruct (Z.lt_trichotomy (2 * (M mod 2 ^ n)) (2 ^ n)) as [H|[H|H]].
  - rewrite (Hlt H). split; [lia|done].
  - rewrite (Heq H). split; [destruct (Z.even _); lia|]. intros. lia.
  - rewrite (Hgt H). split; [lia|]. intros. lia.
Qed.

(** The rounded quotient does not cross a point of the grid. *)
Lemma rne_ge_grid (M n G : Z) :
  0 <= M → 1 <= n → G * 2 ^ n <= M → G <= rne M n.
Proof.
  intros HM Hn HG. destruct (rne_bounds M n HM Hn) as [[Hlo _] _].
  assert (Hp : 0 < 2 ^ n) by (apply Z.pow_pos_nonneg; lia).
  assert (G <= M / 2 ^ n) by (apply Z.div_le_lower_bound; lia). lia.
Qed.

Lemma rne_le_grid (M n G : Z) :
  0 <= M → 1 <= n → M <= G * 2 ^ n → rne M n <= G.
Proof.
  intros HM Hn HG. destruct (rne_bounds M n HM Hn) as [[_ Hhi] Hex].
  assert (Hp : 0 < 2 ^ n) by (apply Z.pow_pos_nonneg; lia).
  destruct (Z.eq_dec M (G * 2 ^ n)) as [->|Hne].
  - rewrite Hex by (apply Z.mod_mul; lia). rewrite Z.div_mul by lia. lia.
  - assert (M / 2 ^ n < G) by (apply Z.div_lt_upper_bound; lia). lia.
Qed.

Lemma rne_exact (G n : Z) : 0 <= G → 1 <= n → rne (G * 2 ^ n) n = G.
Proof.
  intros HG Hn.
  assert (Hp : 0 < 2 ^ n) by (apply Z.pow_pos_nonneg; lia).
  apply Z.le_antisymm.
  - apply rne_le_grid; [nia | lia | lia].
  - apply rne_ge_grid; [nia | lia | lia].
Qed.

Lemma rne_mono (M1 M2 n : Z) :
  0 <= M1 → M1 <= M2 → 1 <= n → rne M1 n <= rne M2 n.
Proof.
  intros HM1 HM Hn.
  assert (Hp : 0 < 2 ^ n) by (apply Z.pow_pos_nonneg; lia).
  destruct (rne_spec M1 n HM1 Hn) as (Hlt1 & Hgt1 & Heq1).
  destruct (rne_spec M2 n ltac:(lia) Hn) as (Hlt2 & Hgt2 & Heq2).
  destruct (rne_bounds M1 n HM1 Hn) as [[Hlo1 Hhi1] _].
  destruct (rne_bounds M2 n ltac:(lia) Hn) as [[Hlo2 Hhi2] _].
  pose proof (Z.div_le_mono M1 M2 (2 ^ n) Hp HM) as Hq.
  destruct (Z.eq_dec (M1 / 2 ^ n) (M2 / 2 ^ n)) as [Heq|Hne]; [|lia].
  assert (Hr : M1 mod 2 ^ n <= M2 mod 2 ^ n).
  { pose proof (Z.div_mod M1 (2 ^ n) ltac:(lia)).
    pose proof (Z.div_mod M2 (2 ^ n) ltac:(lia)). nia. }
  destruct (Z.lt_trichotomy (2 * (M1 mod 2 ^ n)) (2 ^ n)) as [H1|[H1|H1]];
    destruct (Z.lt_trichotomy (2 * (M2 mod 2 ^ n)) (2 ^ n)) as [H2|[H2|H2]];
    try lia;
    rewrite ?(Hlt1 H1), ?(Hgt1 H1), ?(Heq1 H1), ?(Hlt2 H2), ?(Hgt2 H2), ?(Heq2 H2);
    rewrite ?Heq; try destruct (Z.even _); lia.
Qed.

(** Rounding sees the value, not its representation. *)
Lemma rne_scale (M n j : Z) :
  0 <= M → 1 <= n → 0 <= j → rne (M * 2 ^ j) (n + j) = rne M n.
Proof.
  intros HM Hn Hj. unfold rne.
  assert (Hpj : 0 < 2 ^ j) by (apply Z.pow_pos_nonneg; lia).
  assert (Hpn : 0 < 2 ^ n) by (apply Z.pow_pos_nonneg; lia).
  assert (Hph : 0 < 2 ^ (n - 1)) by (apply Z.pow_pos_nonneg; lia).
  replace (n + j - 1) with ((n - 1) + j) by lia.
  rewrite !Z.pow_add_r by lia.
  rewrite !Z.div_mul_cancel_r by lia.
  rewrite Z.mul_mod_distr_r by lia.
  replace (M mod 2 ^ (n - 1) * 2 ^ j =? 0) with (M mod 2 ^ (n - 1) =? 0).
  2:{ destruct (Z.eqb_spec (M mod 2 ^ (n - 1)) 0) as [->|H0]; [done|].
      symmetry. apply Z.eqb_neq. nia. }
  reflexivity.
Qed.

Lemma shr_fexp_exact (m e : Z) :
  0 <= m →
  let k := fexp prec emax (Zdigits2 m + e) - e in
  ∃ mrs,
    shr_fexp prec emax m e loc_Exact = (mrs, if 0 <? k then e + k else e)
    ∧ (k <= 0 → mrs = {| shr_m := m; shr_r := false; shr_s := false |})
    ∧ (0 < k → shifted m k mrs).
Proof.
  intros Hm k. unfold shr_fexp. std_ops. fold k.
  cbn [shr_record_of_loc]. unfold shr.
  destruct k as [|p|p] eqn:Hk.
  - eexists. split; [reflexivity|]. split; [done|lia].
  - eexists. split; [reflexivity|]. split; [lia|].
    intros _. by apply iter_pos_shifted.
  - eexists. split; [reflexivity|]. split; [done|lia].
Qed.

Lemma Zdigits2_pow2 (w : Z) : 0 <= w → Zdigits2 (2 ^ w) = w + 1.
Proof.
  intros Hw. assert (Hp : 0 < 2 ^ w) by (apply Z.pow_pos_nonneg; lia).
  destruct (2 ^ w) as [|p|p] eqn:E; try lia.
  cbn [Zdigits2]. apply digits2_unique. rewrite <- E.
  replace (w + 1 - 1) with w by lia. split; [lia|].
  apply Z.pow_lt_mono_r; lia.
Qed.

Lemma Zdigits2_between (q w : Z) :
  1 <= w → 2 ^ (w - 1) <= q < 2 ^ w → Zdigits2 q = w.
Proof.
  intros Hw Hq. assert (Hp : 0 < 2 ^ (w - 1)) by (apply Z.pow_pos_nonneg; lia).
  destruct q as [|p|p]; try lia. cbn [Zdigits2]. by apply digits2_unique.
Qed.

(** What [binary_round_aux] returns on an exact mantissa that is not too
    short: the quotient rounded to nearest, ties to even, at the exponent of
    the format, renormalized after a carry, or an infinity. *)
Lemma binary_round_aux_spec (s : bool) (M : positive) (E : Z) :
  let t := fexp prec emax (Zpos (digits2_pos M) + E) in
  let k := t - E in
  0 <= k →
  let q := if k =? 0 then Zpos M else rne (Zpos M) k in
  ∃ m e,
    binary_round_aux prec emax s (Zpos M) E loc_Exact
    = match m with
      | Z0 => S754_zero s
      | Zpos m' => if e <=? 971 then S754_finite s m' e else S754_infinity s
      | Zneg _ => S754_nan
      end
    ∧ 0 <= m ∧ t <= e ∧ m * 2 ^ (e - t) = q
    ∧ (0 < m → fexp prec emax (Zdigits2 m + e) = e).
Proof.
  intros t k Hk q.
  pose proof (digits2_bounds M) as [HMlo HMhi].
  set (dM := Zpos (digits2_pos M)) in *.
  assert (HdM : 1 <= dM) by (unfold dM; lia).
  set (w := dM - k).
  assert (Ht : t = Z.max (dM + E - 53) (-1074)) by (unfold t; apply fexp_eq).
  (* first shift *)
  unfold binary_round_aux.
  destruct (shr_fexp_exact (Zpos M) E ltac:(lia)) as (mrs1 & Hs1 & Hz1 & Hp1).
  cbn [Zdigits2] in Hs1, Hz1, Hp1. fold dM in Hs1, Hz1, Hp1.
  fold t in Hs1, Hz1, Hp1. fold k in Hs1, Hz1, Hp1.
  rewrite Hs1.
  assert (Hq1 : round_nearest_even (shr_m mrs1) (loc_of_shr_record mrs1) = q
                ∧ (if 0 <? k then E + k else E) = t).
  { unfold q. destruct (Z.eqb_spec k 0) as [Hk0|Hk0].
    - rewrite Hz1 by lia. rewrite Hk0. simpl. split; [reflexivity|lia].
    - assert (0 < k) by lia. rewrite (round_shifted _ _ _ (Hp1 ltac:(lia))).
      split; [reflexivity|]. destruct (Z.ltb_spec 0 k); lia. }
  destruct Hq1 as [-> ->].
  (* bounds on the rounded quotient *)
  assert (Hq0 : 0 <= q).
  { unfold q. destruct (Z.eqb_spec k 0); [lia|].
    apply (rne_ge_grid (Zpos M) k 0); lia. }
  assert (Hqw : 0 < q → 0 <= w ∧ q <= 2 ^ w ∧ (1 <= w → 2 ^ (w - 1) <= q)).
  { intros Hqpos. unfold q in *. destruct (Z.eqb_spec k 0) as [Hk0|Hk0].
    - assert (w = dM) by (unfold w; lia). subst w. rewrite H.
      split; [lia|]. split; [lia|]. intros _. lia.
    - assert (Hk1 : 1 <= k) by lia.
      assert (Hpk : 0 < 2 ^ k) by (apply Z.pow_pos_nonneg; lia).
      assert (Hw0 : 0 <= w).
      { destruct (Z.lt_ge_cases w 0) as [Hneg|]; [|done]. exfalso.
        assert (Hsmall : Zpos M < 2 ^ (k - 1)).
        { eapply Z.lt_le_trans; [exact HMhi|].
          apply Z.pow_le_mono_r; unfold w in Hneg; lia. }
        assert (Hpow : 2 ^ k = 2 ^ (k - 1) * 2).
        { replace k with ((k - 1) + 1) at 1 by lia.
          rewrite Z.pow_add_r by lia. lia. }
        destruct (rne_spec (Zpos M) k ltac:(lia) Hk1) as (Hlt & _ & _).
        rewrite Z.mod_small in Hlt by lia. rewrite Z.div_small in Hlt by lia.
        rewrite Hlt in Hqpos by lia. lia. }
      split; [exact Hw0|]. split.
      + apply rne_le_grid; [lia|lia|].
        rewrite <- Z.pow_add_r by lia. replace (w + k) with dM by (unfold w; lia). lia.
      + intros Hw1. apply rne_ge_grid; [lia|lia|].
        rewrite <- Z.pow_add_r by lia.
        replace (w - 1 + k) with (dM - 1) by (unfold w; lia). lia. }
  (* second shift *)
  destruct (shr_fexp_exact q t Hq0) as (mrs2 & Hs2 & Hz2 & Hp2).
  rewrite Hs2.
  set (k2 := fexp prec emax (Zdigits2 q + t) - t) in *.
  destruct (Z.eq_dec q 0) as [Hq00|Hqne].
  { (* the quotient is zero *)
    assert (Hk2 : k2 <= 0).
    { unfold k2. rewrite Hq00. cbn [Zdigits2]. rewrite fexp_eq. lia. }
    rewrite (Hz2 Hk2). cbn [shr_m]. rewrite Hq00.
    exists 0, t. split; [reflexivity|]. split; [lia|]. split; [lia|].
    split; [lia|lia]. }
  assert (Hqpos : 0 < q) by lia.
  destruct (Hqw Hqpos) as (Hw0 & Hqhi & Hqlo).
  assert (Hdq : Zdigits2 q = w ∨ (q = 2 ^ w ∧ Zdigits2 q = w + 1)).
  { destruct (Z.eq_dec q (2 ^ w)) as [->|Hne].
    - right. split; [done|]. by apply Zdigits2_pow2.
    - left. assert (1 <= w).
      { destruct (Z.eq_dec w 0) as [Hw|]; [|lia]. rewrite Hw in *. simpl in *. lia. }
      apply Zdigits2_between; [lia|]. split; [by apply Hqlo | lia]. }
  assert (Hwt : w + t = dM + E) by (unfold w, k; lia).
  destruct Hdq as [Hdq|[Hq2 Hdq]].
  - (* no carry *)
    assert (Hk2 : k2 = 0).
    { unfold k2. rewrite Hdq, Hwt. fold t. lia. }
    rewrite (Hz2 ltac:(lia)). rewrite Hk2. cbn [Z.ltb Z.compare shr_m].
    exists q, t. split; [reflexivity|]. split; [lia|]. split; [lia|].
    split; [rewrite Z.sub_diag; simpl; lia|].
    intros _. unfold k2 in Hk2. lia.
  - (* carry: the quotient is a power of two *)
    assert (Hk2 : k2 = 0 ∨ k2 = 1).
    { unfold k2. rewrite Hdq. replace (w + 1 + t) with (dM + E + 1) by lia.
      rewrite fexp_eq. lia. }
    destruct Hk2 as [Hk2|Hk2].
    + rewrite (Hz2 ltac:(lia)). rewrite Hk2. cbn [Z.ltb Z.compare shr_m].
      exists q, t. split; [reflexivity|]. split; [lia|]. split; [lia|].
      split; [rewrite Z.sub_diag; simpl; lia|].
      intros _. unfold k2 in Hk2. lia.
    + destruct (Hp2 ltac:(lia)) as (Hm2 & _ & _). rewrite Hk2 in *.
      cbn [Z.ltb Z.compare]. rewrite Hm2.
      assert (Hw53 : w = 53).
      { unfold k2 in Hk2. rewrite Hdq in Hk2.
        replace (w + 1 + t) with (dM + E + 1) in Hk2 by lia.
        rewrite fexp_eq in Hk2. lia. }
      rewrite Hq2, Hw53. change (2 ^ 53 / 2 ^ 1) with (2 ^ 52).
      exists (2 ^ 52), (t + 1). split; [reflexivity|]. split; [lia|]. split; [lia|].
      split.
      * replace (t + 1 - t) with 1 by lia. reflexivity.
      * intros _. change (Zdigits2 (2 ^ 52)) with 53. rewrite fexp_eq.
        unfold k2 in Hk2. rewrite Hdq, Hw53 in Hk2. rewrite fexp_eq in Hk2. lia.
Qed.

Lemma log2_scaled (M : positive) (j : Z) :
  0 <= j → Z.log2 (Zpos M * 2 ^ j) + 1 = Zpos (digits2_pos M) + j.
Proof.
  intros Hj. pose proof (digits2_bounds M) as [Hlo Hhi].
  set (d := Zpos (digits2_pos M)) in *.
  assert (Hd : 1 <= d) by (unfold d; lia).
  assert (Hp : 0 < 2 ^ j) by (apply Z.pow_pos_nonneg; lia).
  rewrite (Z.log2_unique (Zpos M * 2 ^ j) (d + j - 1)); [lia|lia|].
  replace (Z.succ (d + j - 1)) with (d + j) by lia.
  replace (d + j - 1) with ((d - 1) + j) by lia.
  rewrite !Z.pow_add_r by lia. nia.
Qed.

Lemma round_pos_nonneg (N : Z) : 0 < N → 0 <= round_pos N.
Proof.
  intros HN. unfold round_pos.
  set (t := Z.max _ _).
  assert (0 <= rne N (t + 2148)) by (apply (rne_ge_grid N _ 0); unfold t; lia).
  assert (0 < 2 ^ (t + 1074)) by (apply Z.pow_pos_nonneg; unfold t; lia).
  apply Z.min_glb; [nia|]. apply Z.pow_nonneg; lia.
Qed.

Lemma round_pos_mono (N1 N2 : Z) :
  0 < N1 → N1 <= N2 → round_pos N1 <= round_pos N2.
Proof.
  intros HN1 HN. unfold round_pos.
  pose proof (Z.log2_le_mono N1 N2 HN) as Hlog.
  pose proof (Z.log2_spec N1 HN1) as [_ Hhi1].
  pose proof (Z.log2_spec N2 ltac:(lia)) as [Hlo2 _].
  pose proof (Z.log2_nonneg N1) as Hl1.
  set (D1 := Z.log2 N1 + 1) in *. set (D2 := Z.log2 N2 + 1) in *.
  replace (Z.succ (Z.log2 N1)) with D1 in Hhi1 by (unfold D1; lia).
  replace (Z.log2 N2) with (D2 - 1) in Hlo2 by (unfold D2; lia).
  set (t1 := Z.max (D1 - 2148 - 53) (-1074)).
  set (t2 := Z.max (D2 - 2148 - 53) (-1074)).
  apply Z.min_le_compat_r.
  assert (Hp2 : 0 < 2 ^ (t2 + 1074)) by (apply Z.pow_pos_nonneg; unfold t2; lia).
  destruct (Z.eq_dec t1 t2) as [Heq|Hne].
  - rewrite Heq. apply Z.mul_le_mono_nonneg_r; [lia|].
    apply rne_mono; [lia | lia | unfold t2; lia].
  - assert (Ht : t1 < t2) by (unfold t1, t2 in *; lia).
    assert (Ht2 : t2 = D2 - 2201) by (unfold t1, t2 in *; lia).
    assert (HD : D1 < D2) by (unfold t1, t2 in *; lia).
    (* the larger value is at least a power of two *)
    assert (Hlow : 2 ^ (D2 - 1075) <= rne N2 (t2 + 2148) * 2 ^ (t2 + 1074)).
    { assert (2 ^ 52 <= rne N2 (t2 + 2148)).
      { apply rne_ge_grid; [lia | unfold t2; lia |].
        rewrite <- Z.pow_add_r by lia.
        replace (52 + (t2 + 2148)) with (D2 - 1) by lia. exact Hlo2. }
      replace (D2 - 1075) with (52 + (t2 + 1074)) by lia.
      rewrite Z.pow_add_r by lia. nia. }
    (* the smaller one at most the power of two below *)
    assert (Hup : rne N1 (t1 + 2148) * 2 ^ (t1 + 1074) <= 2 ^ (D2 - 1075)).
    { assert (Hp1 : 0 < 2 ^ (t1 + 1074)) by (apply Z.pow_pos_nonneg; unfold t1; lia).
      destruct (Z.le_gt_cases (t1 + 2148) D1) as [Hge|Hlt].
      - assert (rne N1 (t1 + 2148) <= 2 ^ (D1 - (t1 + 2148))).
        { apply rne_le_grid; [lia | unfold t1; lia |].
          rewrite <- Z.pow_add_r by (unfold t1; lia).
          replace (D1 - (t1 + 2148) + (t1 + 2148)) with D1 by lia. lia. }
        assert (2 ^ (D1 - (t1 + 2148)) * 2 ^ (t1 + 1074) <= 2 ^ (D2 - 1075)).
        { rewrite <- Z.pow_add_r by (unfold t1; lia).
          apply Z.pow_le_mono_r; lia. }
        nia.
      - assert (Hk1 : 1 <= t1 + 2148) by (unfold t1; lia).
        destruct (rne_spec N1 (t1 + 2148) ltac:(lia) Hk1) as (Hl & _ & _).
        assert (Hsmall : N1 < 2 ^ (t1 + 2148 - 1)).
        { eapply Z.lt_le_trans; [exact Hhi1|]. apply Z.pow_le_mono_r; lia. }
        assert (Hpow : 2 ^ (t1 + 2148) = 2 ^ (t1 + 2148 - 1) * 2).
        { replace (t1 + 2148) with ((t1 + 2148 - 1) + 1) at 1 by lia.
          rewrite Z.pow_add_r by lia. lia. }
        rewrite Z.mod_small in Hl by lia. rewrite Z.div_small in Hl by lia.
        rewrite Hl by lia. simpl. apply Z.pow_nonneg. lia. }
    lia.
Qed.

Lemma round_units_mono (N1 N2 : Z) : N1 <= N2 → round_units N1 <= round_units N2.
Proof.
  intros HN. unfold round_units.
  destruct (Z.eqb_spec N1 0) as [H1|H1]; destruct (Z.eqb_spec N2 0) as [H2|H2];
    destruct (Z.ltb_spec 0 N1) as [P1|P1]; destruct (Z.ltb_spec 0 N2) as [P2|P2];
    try lia.
  - by apply round_pos_nonneg.
  - pose proof (round_pos_nonneg (- N1) ltac:(lia)). lia.
  - by apply round_pos_mono.
  - pose proof (round_pos_nonneg (- N1) ltac:(lia)).
    pose proof (round_pos_nonneg N2 ltac:(lia)). lia.
  - pose proof (round_pos_mono (- N2) (- N1) ltac:(lia) ltac:(lia)). lia.
Qed.

Lemma round_units_opp (N : Z) : round_units (- N) = - round_units N.
Proof.
  unfold round_units.
  destruct (Z.eqb_spec N 0) as [H1|H1]; destruct (Z.eqb_spec (- N) 0) as [H2|H2];
    destruct (Z.ltb_spec 0 N) as [P1|P1]; destruct (Z.ltb_spec 0 (- N)) as [P2|P2];
    try lia.
  rewrite Z.opp_involutive. lia.
Qed.

(** Validity of a finite number, spelled out. *)
Lemma bounded_spec (m : positive) (e : Z) :
  bounded prec emax m e = true →
  -1074 <= e <= 971 ∧ Zpos (digits2_pos m) <= 53
  ∧ (-1074 < e → Zpos (digits2_pos m) = 53)
  ∧ fexp prec emax (Zpos (digits2_pos m) + e) = e
  ∧ Zpos m < 2 ^ 53.
Proof.
  unfold bounded, canonical_mantissa. intros Hb.
  apply andb_true_iff in Hb as [Hc He]. std_ops.
  apply Z.eqb_eq in Hc. apply Z.leb_le in He. change (emax - prec) with 971 in He.
  pose proof Hc as Hc'. rewrite fexp_eq in Hc'.
  pose proof (digits2_bounds m) as [_ Hhi].
  assert (Zpos (digits2_pos m) <= 53) by lia.
  repeat split; try lia; try exact Hc.
  eapply Z.lt_le_trans; [exact Hhi|]. apply Z.pow_le_mono_r; lia.
Qed.

(** A binary64 number rounds to itself. *)
Lemma round_pos_exact (m : positive) (e : Z) :
  bounded prec emax m e = true →
  round_pos (Zpos m * 2 ^ (e + 1074) * 2 ^ 1074) = Zpos m * 2 ^ (e + 1074).
Proof.
  intros Hb. destruct (bounded_spec m e Hb) as (He & Hd & _ & Hc & Hm).
  rewrite fexp_eq in Hc.
  replace (Zpos m * 2 ^ (e + 1074) * 2 ^ 1074) with (Zpos m * 2 ^ (e + 2148)).
  2:{ rewrite <- Z.mul_assoc, <- Z.pow_add_r by lia. do 2 f_equal. lia. }
  unfold round_pos. rewrite log2_scaled by lia.
  replace (Z.max (Zpos (digits2_pos m) + (e + 2148) - 2148 - 53) (-1074)) with e by lia.
  rewrite rne_exact by lia.
  apply Z.min_l.
  assert (0 < 2 ^ (e + 1074)) by (apply Z.pow_pos_nonneg; lia).
  assert (2 ^ (e + 1074) <= 2 ^ 2045) by (apply Z.pow_le_mono_r; lia).
  change (2 ^ 2098) with (2 ^ 53 * 2 ^ 2045). nia.
Qed.

Lemma round_units_exact (x : spec_float) :
  valid_binary x = true →
  match x with S754_infinity _ | S754_nan => False | _ => True end →
  round_units (sval x * 2 ^ 1074) = sval x.
Proof.
  intros Hv Hfin. destruct x as [s|s| |s m e]; try done.
  change (bounded prec emax m e = true) in Hv.
  destruct (bounded_spec m e Hv) as (He & _).
  assert (Hp : 0 < Zpos m * 2 ^ (e + 1074) * 2 ^ 1074).
  { assert (0 < 2 ^ (e + 1074)) by (apply Z.pow_pos_nonneg; lia).
    assert (0 < 2 ^ 1074) by (apply Z.pow_pos_nonneg; lia). nia. }
  pose proof (round_pos_exact m e Hv) as Hex.
  destruct s; cbn [sval].
  - rewrite Z.mul_opp_l, round_units_opp. unfold round_units.
    destruct (Z.eqb_spec (Zpos m * 2 ^ (e + 1074) * 2 ^ 1074) 0); [lia|].
    destruct (Z.ltb_spec 0 (Zpos m * 2 ^ (e + 1074) * 2 ^ 1074)); [|lia].
    by rewrite Hex.
  - unfold round_units.
    destruct (Z.eqb_spec (Zpos m * 2 ^ (e + 1074) * 2 ^ 1074) 0); [lia|].
    destruct (Z.ltb_spec 0 (Zpos m * 2 ^ (e + 1074) * 2 ^ 1074)); [|lia].
    exact Hex.
Qed.

(** The value [binary_round_aux] returns. *)
Lemma binary_round_aux_sval (s : bool) (M : positive) (E : Z) :
  E <= fexp prec emax (Zpos (digits2_pos M) + E) → -2148 <= E →
  sval (binary_round_aux prec emax s (Zpos M) E loc_Exact)
  = (if s then - round_pos (Zpos M * 2 ^ (E + 2148))
     else round_pos (Zpos M * 2 ^ (E + 2148)))
  ∧ binary_round_aux prec emax s (Zpos M) E loc_Exact ≠ S754_nan.
Proof.
  intros Hk HE.
  destruct (binary_round_aux_spec s M E ltac:(lia)) as (m & e & Hr & Hm0 & Hte & Hq & Hcan).
  set (t := fexp prec emax (Zpos (digits2_pos M) + E)) in *.
  assert (Ht : t = Z.max (Zpos (digits2_pos M) + E - 53) (-1074)) by apply fexp_eq.
  set (k := t - E) in *.
  assert (Hround : round_pos (Zpos M * 2 ^ (E + 2148))
                   = Z.min (m * 2 ^ (e + 1074)) (2 ^ 2098)).
  { unfold round_pos. rewrite log2_scaled by lia.
    replace (Z.max (Zpos (digits2_pos M) + (E + 2148) - 2148 - 53) (-1074)) with t by lia.
    f_equal.
    replace (e + 1074) with ((e - t) + (t + 1074)) by lia.
    rewrite (Z.pow_add_r 2 (e - t) (t + 1074)), Z.mul_assoc, Hq by lia. f_equal.
    replace (t + 2148) with (k + (E + 2148)) by (unfold k; lia).
    destruct (Z.eqb_spec k 0) as [Hk0|Hk0].
    - rewrite Hk0. simpl (0 + _). apply rne_exact; lia.
    - apply rne_scale; lia. }
  rewrite Hround, Hr.
  destruct m as [|m'|m']; [| |lia].
  - cbn [sval]. split; [|discriminate]. simpl (0 * _).
    rewrite Z.min_l by (apply Z.pow_nonneg; lia). by destruct s.
  - specialize (Hcan ltac:(lia)). cbn [Zdigits2] in Hcan. rewrite fexp_eq in Hcan.
    pose proof (digits2_bounds m') as [Hlo Hhi].
    assert (He : -1074 <= e) by lia.
    assert (Hp : 0 < 2 ^ (e + 1074)) by (apply Z.pow_pos_nonneg; lia).
    destruct (Z.leb_spec e 971) as [Hle|Hgt].
    + cbn [sval]. split; [|by destruct s].
      assert (Zpos m' * 2 ^ (e + 1074) < 2 ^ 2098).
      { assert (Zpos m' < 2 ^ 53).
        { eapply Z.lt_le_trans; [exact Hhi|]. apply Z.pow_le_mono_r; lia. }
        assert (2 ^ (e + 1074) <= 2 ^ 2045) by (apply Z.pow_le_mono_r; lia).
        change (2 ^ 2098) with (2 ^ 53 * 2 ^ 2045). nia. }
      rewrite Z.min_l by lia. reflexivity.
    + cbn [sval]. split; [|by destruct s].
      assert (2 ^ 2098 <= Zpos m' * 2 ^ (e + 1074)).
      { assert (Hd : Zpos (digits2_pos m') = 53) by lia.
        rewrite Hd in Hlo. change (2 ^ (53 - 1)) with (2 ^ 52) in Hlo.
        assert (2 ^ 2046 <= 2 ^ (e + 1074)) by (apply Z.pow_le_mono_r; lia).
        change (2 ^ 2098) with (2 ^ 52 * 2 ^ 2046). nia. }
      rewrite Z.min_r by lia. reflexivity.
Qed.

(** The order of binary64 is the order of the values. *)
Lemma magnitude_bounds (m : positive) (e : Z) :
  bounded prec emax m e = true →
  0 < Zpos m * 2 ^ (e + 1074) < 2 ^ 2098.
Proof.
  intros Hb. destruct (bounded_spec m e Hb) as (He & _ & _ & _ & Hm).
  assert (0 < 2 ^ (e + 1074)) by (apply Z.pow_pos_nonneg; lia).
  assert (2 ^ (e + 1074) <= 2 ^ 2045) by (apply Z.pow_le_mono_r; lia).
  change (2 ^ 2098) with (2 ^ 53 * 2 ^ 2045). nia.
Qed.

Lemma magnitude_compare (m1 m2 : positive) (e1 e2 : Z) :
  bounded prec emax m1 e1 = true → bounded prec emax m2 e2 = true →
  (Zpos m1 * 2 ^ (e1 + 1074) ?= Zpos m2 * 2 ^ (e2 + 1074))
  = match e1 ?= e2 with
    | Lt => Lt
    | Gt => Gt
    | Eq => Pos.compare_cont Eq m1 m2
    end.
Proof.
  intros Hb1 Hb2.
  destruct (bounded_spec m1 e1 Hb1) as (He1 & _ & Hn1 & _ & Hm1).
  destruct (bounded_spec m2 e2 Hb2) as (He2 & _ & Hn2 & _ & Hm2).
  pose proof (digits2_bounds m1) as [Hlo1 _].
  pose proof (digits2_bounds m2) as [Hlo2 _].
  assert (Hstep : ∀ (ma mb : positive) (ea eb : Z),
            -1074 <= ea → ea < eb → Zpos ma < 2 ^ 53 → 2 ^ 52 <= Zpos mb →
            Zpos ma * 2 ^ (ea + 1074) < Zpos mb * 2 ^ (eb + 1074)).
  { intros ma mb ea eb Hea Hlt Hma Hmb.
    assert (0 < 2 ^ (ea + 1074)) by (apply Z.pow_pos_nonneg; lia).
    assert (2 ^ (eb + 1074) = 2 ^ (eb - ea) * 2 ^ (ea + 1074)).
    { rewrite <- Z.pow_add_r by lia. f_equal. lia. }
    assert (2 ^ 1 <= 2 ^ (eb - ea)) by (apply Z.pow_le_mono_r; lia).
    change (2 ^ 1) with 2 in *. change (2 ^ 53) with (2 ^ 52 * 2) in Hma. nia. }
  destruct (Z.compare_spec e1 e2) as [Heq|Hlt|Hgt].
  - subst e2.
    rewrite <- Zmult_compare_compat_r by (apply Z.lt_gt, Z.pow_pos_nonneg; lia).
    reflexivity.
  - apply Z.compare_lt_iff. apply Hstep; try lia.
    rewrite Hn2 in Hlo2 by lia. exact Hlo2.
  - apply Z.compare_gt_iff. apply Hstep; try lia.
    rewrite Hn1 in Hlo1 by lia. exact Hlo1.
Qed.

Lemma SFcompare_sval (x y : spec_float) :
  valid_binary x = true → valid_binary y = true →
  x ≠ S754_nan → y ≠ S754_nan →
  SFcompare x y = Some (sval x ?= sval y).
Proof.
  intros Hx Hy Nx Ny.
  destruct x as [sx|sx| |sx mx ex]; [| |done|];
    destruct y as [sy|sy| |sy my ey]; try done;
    try (change (bounded prec emax mx ex = true) in Hx;
         pose proof (magnitude_bounds mx ex Hx));
    try (change (bounded prec emax my ey = true) in Hy;
         pose proof (magnitude_bounds my ey Hy));
    cbn [SFcompare sval]; f_equal;
    try (destruct sx); try (destruct sy); try reflexivity;
    try (symmetry; apply Z.compare_lt_iff; lia);
    try (symmetry; apply Z.compare_gt_iff; lia).
  - std_ops. rewrite Z.compare_opp, (magnitude_compare my mx ey ex Hy Hx).
    rewrite (Z.compare_antisym ey ex).
    destruct (ey ?= ex); cbn [CompOpp]; try reflexivity.
    rewrite Pos.compare_cont_antisym. reflexivity.
  - std_ops. rewrite (magnitude_compare mx my ex ey Hx Hy). reflexivity.
Qed.

Lemma SFleb_sval (x y : spec_float) :
  valid_binary x = true → valid_binary y = true →
  x ≠ S754_nan → y ≠ S754_nan →
  SFleb x y = (sval x <=? sval y).
Proof.
  intros Hx Hy Nx Ny. unfold SFleb. rewrite (SFcompare_sval x y Hx Hy Nx Ny).
  unfold Z.leb. destruct (sval x ?= sval y); reflexivity.
Qed.

Lemma round_units_pos (N : Z) : 0 < N → round_units N = round_pos N.
Proof.
  intros HN. unfold round_units.
  destruct (Z.eqb_spec N 0); [lia|]. destruct (Z.ltb_spec 0 N); [done|lia].
Qed.

Lemma round_units_signed (s : bool) (N : Z) :
  0 < N →
  (if s then - round_pos N else round_pos N) = round_units (if s then - N else N).
Proof.
  intros HN. destruct s; [|by rewrite round_units_pos].
  by rewrite round_units_opp, round_units_pos.
Qed.

Lemma digits2_mul (mx my : positive) :
  Zpos (digits2_pos mx) + Zpos (digits2_pos my) - 1 <= Zpos (digits2_pos (mx * my)).
Proof.
  pose proof (digits2_bounds mx) as [Hx _]. pose proof (digits2_bounds my) as [Hy _].
  pose proof (digits2_bounds (mx * my)) as [_ Hxy].
  set (dx := Zpos (digits2_pos mx)) in *. set (dy := Zpos (digits2_pos my)) in *.
  set (d := Zpos (digits2_pos (mx * my))) in *.
  assert (1 <= dx) by (unfold dx; lia). assert (1 <= dy) by (unfold dy; lia).
  destruct (Z.le_gt_cases (dx + dy - 1) d) as [|Hlt]; [done|]. exfalso.
  assert (2 ^ d <= 2 ^ (dx - 1 + (dy - 1))) by (apply Z.pow_le_mono_r; lia).
  rewrite Z.pow_add_r in H1 by lia.
  rewrite Pos2Z.inj_mul in Hxy.
  assert (0 < 2 ^ (dx - 1)) by (apply Z.pow_pos_nonneg; lia).
  assert (0 < 2 ^ (dy - 1)) by (apply Z.pow_pos_nonneg; lia).
  nia.
Qed.

(** Multiplication rounds the exact product. *)
Lemma SFmul_sval (x y : spec_float) :
  valid_binary x = true → valid_binary y = true → SFnumber x → SFnumber y →
  sval (SF64mul x y) = round_units (sval x * sval y) ∧ SF64mul x y ≠ S754_nan.
Proof.
  intros Hx Hy Nx Ny.
  destruct x as [sx|sx| |sx mx ex]; try done;
    destruct y as [sy|sy| |sy my ey]; try done;
    try (split; [cbn [SF64mul SFmul sval]; rewrite ?Z.mul_0_r; reflexivity
                |discriminate]).
  change (bounded prec emax mx ex = true) in Hx.
  change (bounded prec emax my ey = true) in Hy.
  destruct (bounded_spec mx ex Hx) as (Hex & Hdx & Hnx & _ & _).
  destruct (bounded_spec my ey Hy) as (Hey & Hdy & Hny & _ & _).
  pose proof (digits2_mul mx my) as Hd.
  pose proof (digits2_bounds mx) as [_ Hdx1].
  pose proof (digits2_bounds my) as [_ Hdy1].
  assert (1 <= Zpos (digits2_pos mx)) by lia.
  assert (1 <= Zpos (digits2_pos my)) by lia.
  unfold SF64mul, SFmul. std_ops.
  destruct (binary_round_aux_sval (xorb sx sy) (mx * my) (ex + ey)) as [Hv Hn].
  { rewrite fexp_eq. lia. }
  { lia. }
  split; [|exact Hn]. rewrite Hv.
  assert (Hprod : Zpos (mx * my) * 2 ^ (ex + ey + 2148)
                  = (Zpos mx * 2 ^ (ex + 1074)) * (Zpos my * 2 ^ (ey + 1074))).
  { replace (ex + ey + 2148) with ((ex + 1074) + (ey + 1074)) by lia.
    rewrite Z.pow_add_r, Pos2Z.inj_mul by lia. ring. }
  assert (Hpos : 0 < Zpos (mx * my) * 2 ^ (ex + ey + 2148)).
  { assert (0 < 2 ^ (ex + ey + 2148)) by (apply Z.pow_pos_nonneg; lia). nia. }
  rewrite (round_units_signed _ _ Hpos), Hprod. f_equal.
  cbn [sval]. destruct sx, sy; cbn [xorb]; ring.
Qed.

Lemma iter_xO (m d : positive) : Zpos (Pos.iter xO m d) = Zpos m * 2 ^ Zpos d.
Proof.
  induction d as [|d IH] using Pos.peano_ind.
  - simpl. lia.
  - rewrite Pos.iter_succ, Pos2Z.inj_xO, IH, Pos2Z.inj_succ, Z.pow_succ_r by lia. ring.
Qed.

Lemma shl_align_spec (m : positive) (e e' : Z) :
  let '(mz, ez) := shl_align m e e' in
  ez = Z.min e e' ∧ Zpos mz = Zpos m * 2 ^ (e - ez).
Proof.
  unfold shl_align. std_ops. destruct (e' - e) as [|d|d] eqn:Hd.
  - split; [lia|]. rewrite Z.sub_diag. simpl. lia.
  - split; [lia|]. rewrite Z.sub_diag. simpl. lia.
  - split; [lia|]. rewrite iter_xO. do 2 f_equal. lia.
Qed.

Lemma digits2_shift (m mz : positive) (j : Z) :
  0 <= j → Zpos mz = Zpos m * 2 ^ j →
  Zpos (digits2_pos mz) = Zpos (digits2_pos m) + j.
Proof.
  intros Hj Hmz. pose proof (digits2_bounds m) as [Hlo Hhi].
  assert (1 <= Zpos (digits2_pos m)) by lia.
  assert (0 < 2 ^ j) by (apply Z.pow_pos_nonneg; lia).
  apply digits2_unique. rewrite Hmz.
  replace (Zpos (digits2_pos m) + j - 1) with ((Zpos (digits2_pos m) - 1) + j) by lia.
  rewrite !Z.pow_add_r by lia. nia.
Qed.

(** [binary_normalize] rounds the exact value of an integer mantissa. *)
Lemma binary_normalize_sval (M e : Z) :
  -1074 <= e →
  sval (binary_normalize prec emax M e false) = round_units (M * 2 ^ (e + 2148))
  ∧ binary_normalize prec emax M e false ≠ S754_nan.
Proof.
  intros He.
  assert (Hp : 0 < 2 ^ (e + 2148)) by (apply Z.pow_pos_nonneg; lia).
  assert (Hround : ∀ (s : bool) (m : positive),
            sval (binary_round prec emax s m e)
            = (if s then - round_pos (Zpos m * 2 ^ (e + 2148))
               else round_pos (Zpos m * 2 ^ (e + 2148)))
            ∧ binary_round prec emax s m e ≠ S754_nan).
  { intros s m. unfold binary_round. std_ops.
    pose proof (shl_align_spec m e (fexp prec emax (Zpos (digits2_pos m) + e))) as Hal.
    destruct (shl_align _ _ _) as [mz ez]. destruct Hal as [Hez Hmz].
    pose proof (fexp_eq (Zpos (digits2_pos m) + e)) as Hf.
    pose proof (digits2_shift m mz (e - ez) ltac:(lia) Hmz) as Hdz.
    destruct (binary_round_aux_sval s mz ez) as [Hv Hn].
    { rewrite Hdz. replace (Zpos (digits2_pos m) + (e - ez) + ez)
        with (Zpos (digits2_pos m) + e) by lia. lia. }
    { lia. }
    split; [|exact Hn]. rewrite Hv, Hmz.
    replace (Zpos m * 2 ^ (e - ez) * 2 ^ (ez + 2148)) with (Zpos m * 2 ^ (e + 2148)).
    2:{ rewrite <- Z.mul_assoc, <- Z.pow_add_r by lia. do 2 f_equal. lia. }
    reflexivity. }
  destruct M as [|m|m]; cbn [binary_normalize].
  - split; [reflexivity|discriminate].
  - destruct (Hround false m) as [Hv Hn]. split; [|exact Hn].
    rewrite Hv, round_units_pos by lia. reflexivity.
  - destruct (Hround true m) as [Hv Hn]. split; [|exact Hn].
    rewrite Hv. replace (Zneg m * 2 ^ (e + 2148)) with (- (Zpos m * 2 ^ (e + 2148))) by lia.
    rewrite round_units_opp, round_units_pos by lia. reflexivity.
Qed.

Lemma aligned_sum (sx sy : bool) (mx my : positive) (ex ey : Z) :
  -1074 <= ex → -1074 <= ey →
  let ez := Z.min ex ey in
  cond_Zopp sx (Zpos (shl_align mx ex ez).1) * 2 ^ (ez + 2148)
  = sval (S754_finite sx mx ex) * 2 ^ 1074
  ∧ cond_Zopp sy (Zpos (shl_align my ey ez).1) * 2 ^ (ez + 2148)
    = sval (S754_finite sy my ey) * 2 ^ 1074.
Proof.
  intros Hex Hey ez.
  assert (Hone : ∀ (s : bool) (m : positive) (e : Z),
            -1074 <= e → ez <= e → -1074 <= ez →
            cond_Zopp s (Zpos (shl_align m e ez).1) * 2 ^ (ez + 2148)
            = sval (S754_finite s m e) * 2 ^ 1074).
  { intros s m e He Hle Hz.
    pose proof (shl_align_spec m e ez) as Hal.
    destruct (shl_align m e ez) as [mz e']. destruct Hal as [He' Hmz].
    cbn [fst sval]. rewrite Hmz.
    replace e' with ez by lia.
    assert (Heq : Zpos m * 2 ^ (e - ez) * 2 ^ (ez + 2148)
                  = Zpos m * 2 ^ (e + 1074) * 2 ^ 1074).
    { rewrite <- !Z.mul_assoc, <- !Z.pow_add_r by lia. do 2 f_equal. lia. }
    destruct s; cbn [cond_Zopp]; std_ops; lia. }
  split; apply Hone; unfold ez; lia.
Qed.

(** Addition and subtraction round the exact sum and difference. *)
Lemma SFadd_sval (x y : spec_float) :
  valid_binary x = true → valid_binary y = true → SFnumber x → SFnumber y →
  sval (SF64add x y) = round_units ((sval x + sval y) * 2 ^ 1074)
  ∧ SF64add x y ≠ S754_nan.
Proof.
  intros Hx Hy Nx Ny.
  destruct x as [sx|sx| |sx mx ex]; try done;
    destruct y as [sy|sy| |sy my ey]; try done.
  - split; [|by destruct sx, sy]. cbn [sval]. by destruct sx, sy.
  - split; [|discriminate]. unfold SF64add, SFadd.
    change (sval (S754_zero sx)) with 0.
    rewrite Z.add_0_l, (round_units_exact _ Hy I). reflexivity.
  - split; [|discriminate]. unfold SF64add, SFadd.
    change (sval (S754_zero sy)) with 0.
    rewrite Z.add_0_r, (round_units_exact _ Hx I). reflexivity.
  - change (bounded prec emax mx ex = true) in Hx.
    change (bounded prec emax my ey = true) in Hy.
    destruct (bounded_spec mx ex Hx) as (Hex & _).
    destruct (bounded_spec my ey Hy) as (Hey & _).
    unfold SF64add, SFadd. std_ops.
    destruct (aligned_sum sx sy mx my ex ey ltac:(lia) ltac:(lia)) as [Hsx Hsy].
    destruct (binary_normalize_sval
                (cond_Zopp sx (Zpos (shl_align mx ex (Z.min ex ey)).1)
                 + cond_Zopp sy (Zpos (shl_align my ey (Z.min ex ey)).1))
                (Z.min ex ey) ltac:(lia)) as [Hv Hn].
    split; [|exact Hn]. rewrite Hv. f_equal.
    rewrite Z.mul_add_distr_r, Hsx, Hsy. ring.
Qed.

Lemma SFsub_sval (x y : spec_float) :
  valid_binary x = true → valid_binary y = true → SFnumber x → SFnumber y →
  sval (SF64sub x y) = round_units ((sval x - sval y) * 2 ^ 1074)
  ∧ SF64sub x y ≠ S754_nan.
Proof.
  intros Hx Hy Nx Ny.
  destruct x as [sx|sx| |sx mx ex]; try done;
    destruct y as [sy|sy| |sy my ey]; try done.
  - split; [|by destruct sx, sy]. cbn [sval]. by destruct sx, sy.
  - split; [|discriminate]. unfold SF64sub, SFsub.
    replace ((sval (S754_zero sx) - sval (S754_finite sy my ey)) * 2 ^ 1074)
      with (- (sval (S754_finite sy my ey) * 2 ^ 1074)) by (cbn [sval]; lia).
    rewrite round_units_opp, (round_units_exact _ Hy I).
    cbn [sval]. destruct sy; cbn [negb]; lia.
  - split; [|discriminate]. unfold SF64sub, SFsub.
    change (sval (S754_zero sy)) with 0.
    rewrite Z.sub_0_r, (round_units_exact _ Hx I). reflexivity.
  - change (bounded prec emax mx ex = true) in Hx.
    change (bounded prec emax my ey = true) in Hy.
    destruct (bounded_spec mx ex Hx) as (Hex & _).
    destruct (bounded_spec my ey Hy) as (Hey & _).
    unfold SF64sub, SFsub. std_ops.
    destruct (aligned_sum sx sy mx my ex ey ltac:(lia) ltac:(lia)) as [Hsx Hsy].
    destruct (binary_normalize_sval
                (cond_Zopp sx (Zpos (shl_align mx ex (Z.min ex ey)).1)
                 - cond_Zopp sy (Zpos (shl_align my ey (Z.min ex ey)).1))
                (Z.min ex ey) ltac:(lia)) as [Hv Hn].
    split; [|exact Hn]. rewrite Hv. f_equal.
    rewrite Z.mul_sub_distr_r, Hsx, Hsy. ring.
Qed.

Lemma SFnumber_bound (x : spec_float) :
  valid_binary x = true → SFnumber x → - 2 ^ 2098 < sval x < 2 ^ 2098.
Proof.
  intros Hv Hn. destruct x as [s|s| |s m e]; [|done|done|].
  - cbn [sval]. assert (0 < 2 ^ 2098) by (apply Z.pow_pos_nonneg; lia). lia.
  - change (bounded prec emax m e = true) in Hv.
    pose proof (magnitude_bounds m e Hv). cbn [sval]. destruct s; lia.
Qed.

Lemma SFnumber_of_bound (x : spec_float) :
  x ≠ S754_nan → - 2 ^ 2098 < sval x < 2 ^ 2098 → SFnumber x.
Proof.
  intros Hn Hb. destruct x as [s|s| |s m e]; try done.
  cbn [sval] in Hb. destruct s; lia.
Qed.

Lemma SFleb_true (x y : spec_float) :
  SFleb x y = true → x ≠ S754_nan ∧ y ≠ S754_nan.
Proof.
  unfold SFleb. destruct x, y; cbn [SFcompare]; try discriminate; by split.
Qed.
(** Rounding a canonical mantissa that was shifted left gives the number
    back. *)
Lemma round_shifted_exact (s : bool) (m M : positive) (e j : Z) :
  bounded prec emax m e = true → 0 <= j → Zpos M = Zpos m * 2 ^ j →
  binary_round_aux prec emax s (Zpos M) (e - j) loc_Exact = S754_finite s m e.
Proof.
  intros Hb Hj HM.
  destruct (bounded_spec m e Hb) as (He & Hd & _ & Hc & _).
  pose proof (digits2_shift m M j Hj HM) as HdM.
  assert (Ht : fexp prec emax (Zpos (digits2_pos M) + (e - j)) = e).
  { rewrite HdM. replace (Zpos (digits2_pos m) + j + (e - j))
      with (Zpos (digits2_pos m) + e) by lia. exact Hc. }
  destruct (binary_round_aux_spec s M (e - j)) as (m' & e' & Heq & Hm' & Hte & Hq & Hcan).
  { rewrite Ht. lia. }
  rewrite Ht in Hte, Hq. rewrite Heq.
  assert (Hq' : m' * 2 ^ (e' - e) = Zpos m).
  { rewrite Hq. replace (e - (e - j)) with j by lia.
    destruct (j =? 0) eqn:Ej.
    - apply Z.eqb_eq in Ej. subst j. rewrite HM. simpl. lia.
    - apply Z.eqb_neq in Ej. rewrite HM. apply rne_exact; lia. }
  assert (0 < 2 ^ (e' - e)) by (apply Z.pow_pos_nonneg; lia).
  destruct m' as [|m'|m']; [lia| |lia].
  specialize (Hcan ltac:(lia)).
  change (Zdigits2 (Zpos m')) with (Zpos (digits2_pos m')) in Hcan.
  pose proof (digits2_shift m' m (e' - e) ltac:(lia) (eq_sym Hq')) as Hdm.
  rewrite fexp_eq in Hcan, Hc.
  assert (e' = e) by lia. subst e'.
  rewrite Z.sub_diag in Hq'. simpl in Hq'. rewrite Z.mul_1_r in Hq'.
  injection Hq' as ->.
  destruct (e <=? 971) eqn:E; [done|]. apply Z.leb_gt in E. lia.
Qed.

Lemma SFmul_one (x : spec_float) :
  valid_binary x = true →
  SF64mul x (S754_finite false 4503599627370496 (-52)) = x.
Proof.
  intros Hv.
  destruct x as [s|s| |s m e]; cbn [SF64mul SFmul]; unfold SF64mul, SFmul;
    rewrite ?xorb_false_r; try done.
  change (valid_binary (S754_finite s m e)) with (bounded prec emax m e) in Hv.
  change (e + -52) with (e - 52).
  apply (round_shifted_exact s m _ e 52 Hv); [lia|].
  rewrite Pos2Z.inj_mul. reflexivity.
Qed.

Lemma div_eucl_pow2 (m : positive) (j : Z) :
  0 <= j →
  Z.div_eucl (Zpos m * 2 ^ j * 2 ^ 52) 4503599627370496 = (Zpos m * 2 ^ j, 0).
Proof.
  intros Hj.
  assert (H : ∀ a b, Z.div_eucl a b = (a / b, a mod b)).
  { intros a b. unfold Z.div, Z.modulo. by destruct (Z.div_eucl a b). }
  rewrite H. change 4503599627370496 with (2 ^ 52).
  rewrite Z.div_mul by lia. rewrite Z.mod_mul by lia. reflexivity.
Qed.

(** [x / 1] is [x]: the quotient of a canonical mantissa by
    [1 = 2^52 * 2^-52] is the mantissa, shifted by one bit when the number is
    normal. *)
Lemma SFdiv_one (x : spec_float) :
  valid_binary x = true →
  SF64div x (S754_finite false 4503599627370496 (-52)) = x.
Proof.
  intros Hv.
  destruct x as [s|s| |s m e]; unfold SF64div, SFdiv;
    rewrite ?xorb_false_r; try done.
  change (valid_binary (S754_finite s m e)) with (bounded prec emax m e) in Hv.
  destruct (bounded_spec m e Hv) as (He & Hd & Hn & Hc & _).
  unfold SFdiv_core_binary. std_ops.
  change (Zdigits2 (Zpos m)) with (Zpos (digits2_pos m)).
  change (Zdigits2 4503599627370496) with 53.
  change IntDef.Z.div_eucl with Z.div_eucl.
  rewrite fexp_eq in Hc. rewrite fexp_eq.
  set (d := Zpos (digits2_pos m)) in *.
  pose proof (digits2_bounds m) as [Hlo _]. fold d in Hlo.
  assert (1 <= d) by (unfold d; lia).
  destruct (Z.eq_dec e (-1074)) as [->|Hne].
  - replace (Z.min (Z.max (d + -1074 - (53 + -52) - 53) (-1074)) (-1074 - -52))
      with (-1074) by lia.
    change (-1074 - -52 - -1074) with 52.
    rewrite Z.shiftl_mul_pow2 by lia.
    replace (Zpos m * 2 ^ 52) with (Zpos m * 2 ^ 0 * 2 ^ 52) by (simpl; lia).
    rewrite div_eucl_pow2 by lia. change (new_location 4503599627370496 0) with loc_Exact.
    replace (-1074) with (-1074 - 0) at 2 by lia.
    apply (round_shifted_exact s m _ (-1074) 0 Hv); [lia|]. simpl. lia.
  - specialize (Hn ltac:(lia)).
    replace (Z.min (Z.max (d + e - (53 + -52) - 53) (-1074)) (e - -52))
      with (e - 1) by lia.
    replace (e - -52 - (e - 1)) with 53 by lia.
    rewrite Z.shiftl_mul_pow2 by lia.
    replace (Zpos m * 2 ^ 53) with (Zpos m * 2 ^ 1 * 2 ^ 52) by (simpl; lia).
    rewrite div_eucl_pow2 by lia. change (new_location 4503599627370496 0) with loc_Exact.
    change (Zpos m * 2 ^ 1) with (Zpos m * 2). rewrite Z.mul_comm.
    change (2 * Zpos m) with (Zpos (m~0)).
    apply (round_shifted_exact s m _ e 1 Hv); [lia|]. simpl. lia.
Qed.

Lemma SFadd_zero (x : spec_float) :
  x ≠ S754_zero true → SF64add x (S754_zero false) = x.
Proof. by destruct x as [[|]|[|]| |s m e]. Qed.

Lemma SFsub_zero (x : spec_float) :
  x ≠ S754_zero true → SF64sub x (S754_zero false) = x.
Proof. by destruct x as [[|]|[|]| |s m e]. Qed.
End Rounding64.

Section Rescale.
Local Open Scope float_scope.

Lemma finite_number (x : float) : is_finite x = true → SFnumber (Prim2SF x).
Proof.
  unfold is_finite, is_nan, is_infinity.
  rewrite !FloatAxioms.eqb_spec, FloatAxioms.abs_spec.
  change (Prim2SF infinity) with (S754_infinity false).
  destruct (Prim2SF x) as [[|]|[|]| |s m e]; cbn; try discriminate; done.
Qed.

Lemma leb_sval (x y : float) :
  (x <=? y) = true →
  Prim2SF x ≠ S754_nan ∧ Prim2SF y ≠ S754_nan
  ∧ (sval (Prim2SF x) <= sval (Prim2SF y))%Z.
Proof.
  rewrite FloatAxioms.leb_spec. intros H.
  destruct (SFleb_true _ _ H) as [Nx Ny]. split; [done|]. split; [done|].
  rewrite (SFleb_sval _ _ (Prim2SF_valid x) (Prim2SF_valid y) Nx Ny) in H.
  by apply Z.leb_le.
Qed.

Lemma sval_leb (x y : float) :
  Prim2SF x ≠ S754_nan → Prim2SF y ≠ S754_nan →
  (sval (Prim2SF x) <= sval (Prim2SF y))%Z → (x <=? y) = true.
Proof.
  intros Nx Ny H. rewrite FloatAxioms.leb_spec.
  rewrite (SFleb_sval _ _ (Prim2SF_valid x) (Prim2SF_valid y) Nx Ny).
  by apply Z.leb_le.
Qed.

Lemma sval_one : sval (Prim2SF 1) = (2 ^ 1074)%Z.
Proof.
  change (Prim2SF 1) with (S754_finite false 4503599627370496 (-52)).
  cbn [sval]. change (Zpos 4503599627370496) with (2 ^ 52)%Z.
  rewrite <- Z.pow_add_r by lia. reflexivity.
Qed.

Lemma sval_minus_one : sval (Prim2SF (-1)) = (- 2 ^ 1074)%Z.
Proof.
  change (Prim2SF (-1)) with (S754_finite true 4503599627370496 (-52)).
  cbn [sval]. change (Zpos 4503599627370496) with (2 ^ 52)%Z.
  rewrite <- Z.pow_add_r by lia. reflexivity.
Qed.

(** Rescaling a number of [[-1, 1]] by a finite bound [b >= 0] and a finite
    shift [s], as [act] does, stays between [s - b] and [s + b], all of them
    computed in binary64. *)
Lemma rescale_within (c b s : float) :
  is_finite b = true → is_finite s = true →
  (0 <=? b) = true → (-1 <=? c) = true → (c <=? 1) = true →
  (s - b <=? c * b + s) = true ∧ (c * b + s <=? s + b) = true.
Proof.
  intros Fb Fs Hb Hlo Hhi.
  apply finite_number in Fb, Fs.
  apply leb_sval in Hb as (_ & _ & Hb).
  apply leb_sval in Hlo as (_ & Nc & Hlo).
  apply leb_sval in Hhi as (_ & _ & Hhi).
  rewrite sval_minus_one in Hlo. rewrite sval_one in Hhi.
  change (sval (Prim2SF 0)) with 0%Z in Hb.
  pose proof (Prim2SF_valid c) as Vc. pose proof (Prim2SF_valid b) as Vb.
  pose proof (Prim2SF_valid s) as Vs.
  pose proof (Prim2SF_valid (c * b)) as Vp.
  pose proof (Prim2SF_valid (c * b + s)) as Va.
  pose proof (Prim2SF_valid (s + b)) as Vu.
  pose proof (Prim2SF_valid (s - b)) as Vl.
  assert (HK : (0 < 2 ^ 1074)%Z) by (apply Z.pow_pos_nonneg; lia).
  assert (HKK : (2 ^ 1074 < 2 ^ 2098)%Z) by (apply Z.pow_lt_mono_r; lia).
  assert (Fc : SFnumber (Prim2SF c)) by (apply SFnumber_of_bound; [done|lia]).
  pose proof (SFnumber_bound _ Vb Fb) as Bb.
  (* the product *)
  destruct (SFmul_sval _ _ Vc Vb Fc Fb) as [Hp Np].
  rewrite <- FloatAxioms.mul_spec in Hp, Np.
  pose proof (round_units_exact _ Vb Fb) as Hex.
  assert (Hpb : (- sval (Prim2SF b) <= sval (Prim2SF (c * b)) <= sval (Prim2SF b))%Z).
  { rewrite Hp. split.
    - rewrite <- Hex at 1. rewrite <- round_units_opp.
      apply round_units_mono.
      set (K := (2 ^ 1074)%Z) in *. clearbody K. nia.
    - rewrite <- Hex at 2. apply round_units_mono.
      set (K := (2 ^ 1074)%Z) in *. clearbody K. nia. }
  assert (Fp : SFnumber (Prim2SF (c * b))) by (apply SFnumber_of_bound; [done|lia]).
  (* the sums *)
  destruct (SFadd_sval _ _ Vp Vs Fp Fs) as [Ha Na].
  destruct (SFadd_sval _ _ Vs Vb Fs Fb) as [Hu Nu].
  destruct (SFsub_sval _ _ Vs Vb Fs Fb) as [Hl Nl].
  rewrite <- FloatAxioms.add_spec in Ha, Na, Hu, Nu.
  rewrite <- FloatAxioms.sub_spec in Hl, Nl.
  split; apply sval_leb; try done.
  - rewrite Hl, Ha. apply round_units_mono.
    set (K := (2 ^ 1074)%Z) in *. clearbody K. nia.
  - rewrite Ha, Hu. apply round_units_mono.
    set (K := (2 ^ 1074)%Z) in *. clearbody K. nia.
Qed.
Lemma ltb_leb (x y : float) : (x <? y) = true → (x <=? y) = true.
Proof.
  rewrite FloatAxioms.ltb_spec, FloatAxioms.leb_spec.
  unfold SFltb, SFleb. by destruct (SFcompare _ _) as [[| |]|].
Qed.

(** [tf.clip_by_value(x, -1, 1)] of a number is a number of [[-1, 1]]. *)
Lemma float_clip_range (fexp flog : float → float) (x : float) :
  is_nan x = false →
  (-1 <=? clip (H0 := float_elementary fexp flog) (nneg one) one x) = true
  ∧ (clip (H0 := float_elementary fexp flog) (nneg one) one x <=? 1) = true.
Proof.
  intros Hx. unfold clip. cbn [nmin nmax float_elementary one nneg float_arith].
  change (PrimFloat.opp 1) with (-1)%float.
  assert (H1 : is_nan 1 = false) by reflexivity.
  assert (Hm1 : is_nan (-1) = false) by reflexivity.
  assert (Hmin : is_nan (float_min x 1) = false ∧ (float_min x 1 <=? 1) = true).
  { unfold float_min. rewrite Hx, H1. destruct (x <? 1) eqn:E.
    - split; [done|]. by apply ltb_leb.
    - split; [done|]. reflexivity. }
  destruct Hmin as [Nm Hm]. set (m := float_min x 1) in *. clearbody m.
  unfold float_max. rewrite Nm, Hm1. destruct (-1 <? m) eqn:E.
  - split; [by apply ltb_leb | done].
  - split; reflexivity.
Qed.

(** On the action space [[-1, 1]] the rescaling of [act] and the
    un-rescaling of [evaluate_actions] are exact in binary64; only the sign
    of a negative zero is lost, in [c + 0]. *)
Lemma unit_rescale_exact (c : float) : ((c * 1 + 0) - 0) / 1 = c + 0.
Proof.
  apply Prim2SF_inj.
  rewrite FloatAxioms.div_spec.
  change (Prim2SF 1) with (S754_finite false 4503599627370496 (-52)).
  rewrite SFdiv_one by apply Prim2SF_valid.
  rewrite FloatAxioms.sub_spec, !FloatAxioms.add_spec, FloatAxioms.mul_spec.
  change (Prim2SF 1) with (S754_finite false 4503599627370496 (-52)).
  rewrite SFmul_one by apply Prim2SF_valid.
  change (Prim2SF 0) with (S754_zero false).
  by destruct (Prim2SF c) as [[|]|[|]| |s m e].
Qed.

Lemma add_zero_exact (c : float) : c ≠ (-0)%float → c + 0 = c.
Proof.
  intros Hc. apply Prim2SF_inj. rewrite FloatAxioms.add_spec.
  change (Prim2SF 0) with (S754_zero false). apply SFadd_zero.
  intros E. apply Hc. apply Prim2SF_inj. rewrite E. reflexivity.
Qed.

(** The sign of a zero does not reach the Gaussian log-density: the squared
    deviation of [c + 0] is that of [c]. *)
Lemma squared_deviation_zero_sign (c sigma q : float) :
  ((c + 0) / sigma - q) * ((c + 0) / sigma - q) = (c / sigma - q) * (c / sigma - q).
Proof.
  destruct (Prim2SF c) as [[|]|s| |s m e] eqn:E;
    try (rewrite add_zero_exact; [reflexivity|];
         intros ->; change (Prim2SF (-0)) with (S754_zero true) in E; discriminate).
  assert (c = (-0)%float) as -> by (apply Prim2SF_inj; rewrite E; reflexivity).
  change (-0 + 0) with 0.
  apply Prim2SF_inj.
  rewrite !FloatAxioms.mul_spec, !FloatAxioms.sub_spec, !FloatAxioms.div_spec.
  change (Prim2SF 0) with (S754_zero false).
  change (Prim2SF (-0)) with (S754_zero true).
  destruct (Prim2SF sigma) as [[|]|[|]| |[|] ms es], (Prim2SF q) as [[|]|[|]| |[|] mq eq];
    reflexivity.
Qed.
End Rescale.

(** ** The range of the actions of [act] *)

Lemma clip_range (lo hi x : R) :
  (lo <= hi)%R → (lo <= clip lo hi x <= hi)%R.
Proof.
  intros Hle. unfold clip. simpl. split.
  - apply Rmax_r.
  - apply Rmax_lub; [apply Rmin_r | exact Hle].
Qed.

(** C4, as stated, fails in binary64 on an action space that is unbounded
    above: the bound is [inf >= 0], the clipped mean is [0], and
    [0 * inf + inf] is NaN, which lies in no interval. *)
Lemma act_unbounded_nan :
  PrimFloat.leb 0 infinity = true
  ∧ (∀ fexp flog : float → float,
       (act (H0 := float_elementary fexp flog) (float_network 0) float_mean_sampler
          half_line float_unit_std tt true tt).1.1.1 = [nan])
  ∧ (∀ lo : float, PrimFloat.leb lo nan = false)
  ∧ (∀ hi : float, PrimFloat.leb nan hi = false).
Proof.
  split; [reflexivity|]. split; [intros; reflexivity|].
  split; intros x; rewrite FloatAxioms.leb_spec;
    change (Prim2SF nan) with S754_nan; destruct (Prim2SF x); reflexivity.
Qed.

(** C4, amended.  In binary64: whatever the state, the sampler, the
    generator state and the mode, every component of the action returned by
    [act] whose mean (in test mode) or sample (otherwise) is not NaN, and
    whose bound and shift are finite with a non-negative bound, lies between
    [action_shift - action_bound] and [action_shift + action_bound], both
    computed in binary64.  In exact real arithmetic the same holds for every
    component whose bound is non-negative. *)
Theorem act_within_bounds :
  (∀ (fexp flog : float → float) (Weights Obs Rng : Type)
     (network : Weights → Obs → list float * float)
     (sample : Normal float → Rng → list float * Rng) (self : Hyper float)
     (θ : Params float Weights) (state : Obs) (test : bool) (g : Rng)
     (i : nat) (a b s : float),
     (act (H0 := float_elementary fexp flog) network sample self θ state test g).1.1.1
       !! i = Some a →
     action_bound self !! i = Some b →
     action_shift self !! i = Some s →
     (∀ x : float,
        (if test then (network (weights θ) state).1
         else (sample (get_dist (H0 := float_elementary fexp flog) θ
                         (network (weights θ) state).1) g).1) !! i = Some x →
        is_nan x = false) →
     is_finite b = true → is_finite s = true → (0 <=? b)%float = true →
     (s - b <=? a)%float = true ∧ (a <=? s + b)%float = true)
  ∧ (∀ (Weights Obs Rng : Type) (network : Weights → Obs → list R * R)
       (sample : Normal R → Rng → list R * Rng) (self : Hyper R)
       (θ : Params R Weights) (state : Obs) (test : bool) (g : Rng)
       (i : nat) (a b s : R),
       (act network sample self θ state test g).1.1.1 !! i = Some a →
       action_bound self !! i = Some b →
       action_shift self !! i = Some s →
       (0 <= b)%R →
       (s - b <= a <= s + b)%R).
Proof.
  split.
  - intros fexp flog Weights Obs Rng network sample self θ state test g i a b s
      Ha Hb Hs Hnum Fb Fs Hpos.
    unfold act in Ha.
    destruct (network (weights θ) state) as [output value]. cbn [fst] in Hnum.
    set (raw := if test then (output, g) else sample _ g) in Ha.
    assert (Hraw : ∀ x, raw.1 !! i = Some x → is_nan x = false).
    { intros x Hx. apply Hnum. subst raw. by destruct test. }
    clearbody raw. destruct raw as [action g']. cbn [fst] in Ha, Hraw.
    apply lookup_zip_with_Some in Ha as (p & s' & -> & Hp & Hs').
    apply lookup_zip_with_Some in Hp as (c & b' & -> & Hc & Hb').
    unfold clip_by_value in Hc. rewrite list_lookup_fmap in Hc.
    apply fmap_Some in Hc as (x & Hx & ->).
    assert (b' = b) as -> by congruence.
    assert (s' = s) as -> by congruence.
    destruct (float_clip_range fexp flog x (Hraw x Hx)) as [Hlo Hhi].
    cbn [nadd nmul float_arith].
    by apply rescale_within.
  - intros Weights Obs Rng network sample self θ state test g i a b s Ha Hb Hs Hpos.
    unfold act in Ha.
    destruct (network (weights θ) state) as [output value].
    destruct (if test then _ else _) as [action g'].
    cbn [fst] in Ha.
    apply lookup_zip_with_Some in Ha as (p & s' & -> & Hp & Hs').
    apply lookup_zip_with_Some in Hp as (c & b' & -> & Hc & Hb').
    unfold clip_by_value in Hc. rewrite list_lookup_fmap in Hc.
    apply fmap_Some in Hc as (x & Hx & ->).
    assert (b' = b) as -> by congruence.
    assert (s' = s) as -> by congruence.
    set (c := clip _ _ x).
    assert (Hclip : (- (1) <= c <= 1)%R) by (apply clip_range; simpl; lra).
    clearbody c. simpl.
    pose proof (Rmult_le_pos (c + 1) b ltac:(lra) Hpos).
    pose proof (Rmult_le_pos (1 - c) b ltac:(lra) Hpos).
    lra.
Qed.

Lemma act_within_bounds_witness :
  (∀ fexp flog : float → float,
     ∃ a : float,
       (act (H0 := float_elementary fexp flog) (float_network 0.25%float) float_mean_sampler
          far_box float_unit_std tt false tt).1.1.1 !! 0%nat = Some a
       ∧ (10000000000000002 - 2 <=? a)%float = true
       ∧ (a <=? 10000000000000002 + 2)%float = true)
  ∧ ∃ a : R,
    (act constant_network mean_sampler unit_box no_weights tt true tt).1.1.1 !! 0%nat
    = Some a ∧ (0 - 1 <= a <= 0 + 1)%R.
Proof.
  split.
  - intros fexp flog. eexists. split; [reflexivity|].
    apply (proj1 act_within_bounds fexp flog unit unit unit (float_network 0.25%float)
             float_mean_sampler far_box float_unit_std tt false tt 0%nat _ 2%float
             10000000000000002%float);
      try reflexivity.
    intros x Hx. cbn in Hx. injection Hx as <-. reflexivity.
  - eexists. split; [reflexivity|].
    apply (proj2 act_within_bounds unit unit unit constant_network mean_sampler unit_box
             no_weights tt true tt 0%nat _ 1%R 0%R);
      [reflexivity | reflexivity | reflexivity | lra].
Defined.

(** ** Replaying a stored action: [act] and [evaluate_actions] *)

(** Undoing the rescaling of [act] as [evaluate_actions] does:
    [((c * bound + shift) - shift) / bound = c] where the bound is not zero. *)
Lemma unrescale_rescale (c bound shift : list R) :
  length c ≤ length bound → length c ≤ length shift →
  Forall (λ b, b ≠ 0%R) bound →
  zip_with ndiv (zip_with nsub (zip_with nadd (zip_with nmul c bound) shift) shift) bound
  = c.
Proof.
  revert bound shift.
  induction c as [|x c IH]; intros [|b bound] [|s shift] Hb Hs Hnz;
    simpl in *; try lia; try done.
  inversion Hnz as [|? ? Hb0 Hnz']; subst.
  f_equal; [field; exact Hb0 | apply IH; [lia | lia | exact Hnz']].
Qed.

Section Replay.
Context {num : Type} `{Elementary num}.
Context {Weights Obs Rng : Type}.
Variable network : Weights → Obs → list num * num.
Variable sample : Normal num → Rng → list num * Rng.
Variable self : Hyper num.

(** What [act] returns, in terms of the clipped normalized action. *)
Lemma act_stored (θ : Params num Weights) (state : Obs) (test : bool) (g : Rng) :
  let output := (network (weights θ) state).1 in
  let dist := get_dist θ output in
  let normalized :=
    clip_by_value (if test then output else (sample dist g).1) (- one)%num one in
  (act network sample self θ state test g).1
  = (zip_with nadd (zip_with nmul normalized (action_bound self)) (action_shift self),
     (network (weights θ) state).2,
     reduce_sum (log_prob dist normalized)).
Proof.
  intros output dist normalized.
  unfold act, normalized, dist, output.
  destruct (network (weights θ) state) as [out value]. cbn [fst snd].
  destruct test; [reflexivity|].
  destruct (sample (get_dist θ out) g) as [drawn g']. reflexivity.
Qed.

(** What [evaluate_actions] returns on one stored transition. *)
Lemma evaluate_single (θ : Params num Weights) (state : Obs) (action : list num) :
  let output := (network (weights θ) state).1 in
  let dist := get_dist θ output in
  evaluate_actions network self θ [state] [action]
  = ([reduce_sum
        (log_prob dist
           (zip_with ndiv (zip_with nsub action (action_shift self))
              (action_bound self)))],
     [entropy dist], [[(network (weights θ) state).2]]).
Proof. reflexivity. Qed.
End Replay.

Lemma unit_box_unrescale (c bound shift : list float) :
  Forall (λ b, b = 1%float) bound → Forall (λ s, s = 0%float) shift →
  length c ≤ length bound → length c ≤ length shift →
  zip_with ndiv (zip_with nsub (zip_with nadd (zip_with nmul c bound) shift) shift) bound
  = (λ x, x + 0)%float <$> c.
Proof.
  revert bound shift.
  induction c as [|x c IH]; intros [|b bound] [|s shift] Hb Hs Lb Ls;
    simpl in *; try lia; try done.
  inversion Hb as [|? ? -> Hb']; subst. inversion Hs as [|? ? -> Hs']; subst.
  f_equal; [apply unit_rescale_exact | apply IH; [done | done | lia | lia]].
Qed.

Lemma log_prob_zero_sign (fexp flog : float → float) (dist : Normal float)
    (c : list float) :
  log_prob (H0 := float_elementary fexp flog) dist ((λ x, x + 0)%float <$> c)
  = log_prob (H0 := float_elementary fexp flog) dist c.
Proof.
  unfold log_prob. generalize (zip (loc dist) (scale dist)). intros ps.
  revert ps. induction c as [|x c IH]; intros [|[mu sigma] ps]; try done.
  cbn [fmap list_fmap zip_with]. rewrite <- (IH ps). f_equal.
  unfold log_density. cbn [nadd nsub nmul ndiv float_arith].
  by rewrite squared_deviation_zero_sign.
Qed.

(** C5, as stated, fails in binary64: on the action space
    [[1e16, 1e16 + 4]] the clipped mean [0.3] is stored as the action
    [0.3 * 2 + (1e16 + 2)], which rounds to [1e16 + 2], and the un-rescaling
    [(action - shift) / bound] of [evaluate_actions] gives back [0], not
    [0.3].  With [exp 0 = 1], [log 1 = 0] and [log (2 pi)] correctly rounded,
    the log-probability stored by [act] and the one recomputed by
    [evaluate_actions] under the same variables differ by [0.045]. *)
Lemma roundtrip_lost_in_binary64 :
  zip_with ndiv
    (zip_with nsub [10000000000000002%float] (action_shift far_box))
    (action_bound far_box)
  = [0%float]
  ∧ ∀ fexp flog : float → float,
      let stored :=
        (act (H0 := float_elementary fexp flog) (float_network 0.3) float_mean_sampler
           far_box float_unit_std tt true tt).1 in
      let replayed :=
        evaluate_actions (H0 := float_elementary fexp flog) (float_network 0.3)
          far_box float_unit_std [tt] [stored.1.1] in
      clip_by_value (H0 := float_elementary fexp flog) [0.3%float] (- one)%num one
      = [0.3%float]
      ∧ stored.1.1 = [10000000000000002%float]
      ∧ (fexp 0%float = 1%float → flog 1%float = 0%float →
         flog 6.2831853071795862%float = 1.8378770664093453%float →
         stored.2 = (-0.91893853320467267)%float
         ∧ replayed.1.1 = [(-0.96393853320467271)%float]).
Proof.
  split; [reflexivity|]. intros fexp flog stored replayed.
  split; [reflexivity|]. split; [reflexivity|].
  intros Hexp Hlog1 Hlog.
  unfold replayed, stored, act, evaluate_actions, get_dist, log_prob, log_density,
    float_network, float_unit_std, far_box, half, reduce_sum, clip_by_value, clip.
  cbn [fst snd fmap list_fmap zip zip_with foldl weights policy_log_std loc scale
       action_bound action_shift nexp nlog npi nmin nmax float_elementary
       nadd nsub nmul ndiv nneg zero one float_arith].
  rewrite Hexp.
  replace ((1 + 1) * 3.141592653589793)%float with 6.2831853071795862%float
    by reflexivity.
  rewrite Hlog, Hlog1. split; reflexivity.
Qed.

(** C5, amended.  [act] stores the summed log-probability of the clipped
    normalized action under the distribution of the current variables, and
    [evaluate_actions] under the same variables returns the summed
    log-probability, under the same distribution, of the un-rescaled stored
    action [(action - action_shift) / action_bound]; so it returns the stored
    log-probability (and the stored value) whenever the un-rescaling recovers
    the clipped normalized action.  This holds in any arithmetic, binary64
    included.  In exact real arithmetic, with vectors of the declared
    dimension and a bound that is nowhere zero, the un-rescaling always
    recovers it.  In binary64 it recovers it on the action space [[-1, 1]^d]
    (bound 1, shift 0), up to the sign of a zero, which does not reach the
    log-probability: there the replayed log-probability is the stored one. *)
Theorem act_evaluate_roundtrip :
  (∀ (num : Type) (A : Arith num) (E : Elementary num) (Weights Obs Rng : Type)
     (network : Weights → Obs → list num * num)
     (sample : Normal num → Rng → list num * Rng) (self : Hyper num)
     (θ : Params num Weights) (state : Obs) (test : bool) (g : Rng),
     let output := (network (weights θ) state).1 in
     let dist := get_dist θ output in
     let normalized :=
       clip_by_value (if test then output else (sample dist g).1) (- one)%num one in
     let stored := (act network sample self θ state test g).1 in
     let recovered :=
       zip_with ndiv (zip_with nsub stored.1.1 (action_shift self)) (action_bound self) in
     stored.2 = reduce_sum (log_prob dist normalized)
     ∧ evaluate_actions network self θ [state] [stored.1.1]
       = ([reduce_sum (log_prob dist recovered)], [entropy dist], [[stored.1.2]])
     ∧ (recovered = normalized →
        evaluate_actions network self θ [state] [stored.1.1]
        = ([stored.2], [entropy dist], [[stored.1.2]])))
  ∧ (∀ (Weights Obs Rng : Type) (network : Weights → Obs → list R * R)
       (sample : Normal R → Rng → list R * Rng) (self : Hyper R)
       (θ : Params R Weights) (state : Obs) (test : bool) (g : Rng),
       length (action_bound self) = action_dim self →
       length (action_shift self) = action_dim self →
       length (network (weights θ) state).1 = action_dim self →
       (∀ d g, length (sample d g).1 = length (loc d)) →
       Forall (λ b, b ≠ 0%R) (action_bound self) →
       let output := (network (weights θ) state).1 in
       let dist := get_dist θ output in
       let normalized :=
         clip_by_value (if test then output else (sample dist g).1) (- one)%num one in
       let stored := (act network sample self θ state test g).1 in
       stored.2 = reduce_sum (log_prob dist normalized) ∧
       zip_with ndiv (zip_with nsub stored.1.1 (action_shift self)) (action_bound self)
       = normalized ∧
       evaluate_actions network self θ [state] [stored.1.1]
       = ([stored.2], [entropy dist], [[stored.1.2]]))
  ∧ (∀ (fexp flog : float → float) (Weights Obs Rng : Type)
       (network : Weights → Obs → list float * float)
       (sample : Normal float → Rng → list float * Rng) (self : Hyper float)
       (θ : Params float Weights) (state : Obs) (test : bool) (g : Rng),
       length (action_bound self) = action_dim self →
       length (action_shift self) = action_dim self →
       length (network (weights θ) state).1 = action_dim self →
       (∀ d g, length (sample d g).1 = length (loc d)) →
       Forall (λ b, b = 1%float) (action_bound self) →
       Forall (λ s, s = 0%float) (action_shift self) →
       let output := (network (weights θ) state).1 in
       let dist := get_dist (H0 := float_elementary fexp flog) θ output in
       let normalized :=
         clip_by_value (H0 := float_elementary fexp flog)
           (if test then output else (sample dist g).1) (- one)%num one in
       let stored :=
         (act (H0 := float_elementary fexp flog) network sample self θ state test g).1 in
       let recovered :=
         zip_with ndiv (zip_with nsub stored.1.1 (action_shift self))
           (action_bound self) in
       recovered = (λ c, c + 0)%float <$> normalized
       ∧ (Forall (λ c, c ≠ (-0)%float) normalized → recovered = normalized)
       ∧ evaluate_actions (H0 := float_elementary fexp flog) network self θ [state]
           [stored.1.1]
         = ([stored.2], [entropy (H0 := float_elementary fexp flog) dist],
            [[stored.1.2]])).
Proof.
  split; [|split].
  - intros num A E Weights Obs Rng network sample self θ state test g
      output dist normalized stored recovered.
    pose proof (act_stored network sample self θ state test g) as Hact.
    cbv zeta in Hact. fold output dist normalized stored in Hact.
    pose proof (evaluate_single network self θ state stored.1.1) as Hev.
    cbv zeta in Hev. fold output dist recovered in Hev.
    assert (Hv : stored.1.2 = (network (weights θ) state).2) by (by rewrite Hact).
    assert (Hl : stored.2 = reduce_sum (log_prob dist normalized)) by (by rewrite Hact).
    split; [exact Hl|]. split.
    + rewrite Hev, Hv. reflexivity.
    + intros Hrec. rewrite Hev, Hv, Hl, Hrec. reflexivity.
  - intros Weights Obs Rng network sample self θ state test g
      Hbound Hshift Hnet Hsample Hnz output dist normalized stored.
    assert (Hlen : length normalized = action_dim self).
    { unfold normalized, clip_by_value. rewrite length_fmap.
      destruct test; [exact Hnet|].
      rewrite Hsample. unfold dist, get_dist. simpl. exact Hnet. }
    pose proof (act_stored network sample self θ state test g) as Hact.
    cbv zeta in Hact. fold output dist normalized stored in Hact.
    assert (Hun :
      zip_with ndiv (zip_with nsub stored.1.1 (action_shift self)) (action_bound self)
      = normalized).
    { rewrite Hact. cbn [fst]. apply unrescale_rescale; [lia | lia | exact Hnz]. }
    split; [by rewrite Hact|]. split; [exact Hun|].
    rewrite evaluate_single. fold output dist. rewrite Hun. rewrite Hact. reflexivity.
  - intros fexp flog Weights Obs Rng network sample self θ state test g
      Hbound Hshift Hnet Hsample Hone Hzero output dist normalized stored recovered.
    assert (Hlen : length normalized = action_dim self).
    { unfold normalized, clip_by_value. rewrite length_fmap.
      destruct test; [exact Hnet|].
      rewrite Hsample. unfold dist, get_dist. simpl. exact Hnet. }
    pose proof (act_stored (H0 := float_elementary fexp flog)
                  network sample self θ state test g) as Hact.
    cbv zeta in Hact. fold output dist normalized stored in Hact.
    assert (Hun : recovered = (λ c, c + 0)%float <$> normalized).
    { unfold recovered. rewrite Hact. cbn [fst].
      apply unit_box_unrescale; [exact Hone | exact Hzero | lia | lia]. }
    split; [exact Hun|]. split.
    + intros Hnz. rewrite Hun. clear -Hnz.
      induction Hnz as [|c l Hc _ IH]; [done|].
      cbn [fmap list_fmap]. rewrite add_zero_exact by exact Hc. f_equal. exact IH.
    + rewrite (evaluate_single (H0 := float_elementary fexp flog)).
      fold output dist recovered. rewrite Hun, log_prob_zero_sign.
      rewrite Hact. reflexivity.
Qed.

Lemma act_evaluate_roundtrip_witness :
  evaluate_actions constant_network unit_box no_weights [tt]
    [(act constant_network mean_sampler unit_box no_weights tt false tt).1.1.1]
  = ([(act constant_network mean_sampler unit_box no_weights tt false tt).1.2],
     [entropy (get_dist no_weights [2%R])], [[0%R]])
  ∧ ∀ fexp flog : float → float,
      evaluate_actions (H0 := float_elementary fexp flog) (float_network 0.25%float)
        unit_discount float_unit_std [tt]
        [(act (H0 := float_elementary fexp flog) (float_network 0.25%float)
            float_mean_sampler unit_discount float_unit_std tt false tt).1.1.1]
      = ([(act (H0 := float_elementary fexp flog) (float_network 0.25%float)
             float_mean_sampler unit_discount float_unit_std tt false tt).1.2],
         [entropy (H0 := float_elementary fexp flog)
            (get_dist (H0 := float_elementary fexp flog) float_unit_std [0.25%float])],
         [[0%float]]).
Proof.
  split.
  - apply (proj1 (proj2 act_evaluate_roundtrip) unit unit unit constant_network
             mean_sampler unit_box no_weights tt false tt);
      [reflexivity | reflexivity | reflexivity | reflexivity |].
    repeat constructor. simpl. lra.
  - intros fexp flog.
    apply (proj2 (proj2 act_evaluate_roundtrip) fexp flog unit unit unit
             (float_network 0.25%float) float_mean_sampler unit_discount
             float_unit_std tt false tt);
      [reflexivity | reflexivity | reflexivity | reflexivity | |];
      repeat constructor.
Defined.

(** ** Normalization of the advantages, in exact arithmetic *)

Section RealStatistics.
Local Open Scope R_scope.

Lemma foldl_Rplus (a : R) (l : list R) :
  foldl Rplus a l = a + foldl Rplus 0 l.
Proof.
  revert a. induction l as [|x l IH]; intros a; simpl; [lra|].
  rewrite (IH (a + x)), (IH (0 + x)). lra.
Qed.

Lemma reduce_sum_cons (x : R) (l : list R) :
  reduce_sum (x :: l) = x + reduce_sum l.
Proof. unfold reduce_sum. simpl. rewrite foldl_Rplus. lra. Qed.



















End RealStatistics.




(** ** The loss of [learn] *)

Section Loss.
Context {num : Type} `{Elementary num}.
Context {Weights Obs Opt : Type}.
Variable network : Weights → Obs → list num * num.
Variable apply_gradients :
  Opt → (Weights * list num → num) → Weights * list num → (Weights * list num) * Opt.
Variable self : Hyper num.

(** Columns of shape (batch, 1) combine entry by entry like flat vectors. *)
Lemma concat_columns (f : num → num) (g : num → num → num) (a b : list num) :
  concat (fmap (M:=list) (fmap (M:=list) f)
            (zip_with (zip_with g) ((λ x, [x]) <$> a) ((λ x, [x]) <$> b)))
  = zip_with (λ x y, f (g x y)) a b.
Proof.
  revert b. induction a as [|x a IH]; intros [|y b]; simpl; try done.
  f_equal. apply IH.
Qed.

Lemma value_column (θ : Params num Weights) (observations : list Obs)
  (actions : list (list num)) :
  (evaluate_actions network self θ observations actions).2
  = (λ x, [x]) <$> ((λ o, (network (weights θ) o).2) <$> observations).
Proof.
  unfold evaluate_actions. cbn [snd]. rewrite <- !list_fmap_compose. reflexivity.
Qed.

Lemma losses_spec (θ : Params num Weights) (observations : list Obs)
  (actions : list (list num)) (log_probs next_v_preds rewards gaes : list num) :
  let ev := evaluate_actions network self θ observations actions in
  let state_values := (λ o, (network (weights θ) o).2) <$> observations in
  let surrogate := spec_surrogate self gaes (spec_ratio ev.1.1 log_probs) in
  let value_loss := spec_value_loss self state_values rewards next_v_preds in
  let entropy_bonus := reduce_mean ev.1.2 in
  losses network self observations actions log_probs next_v_preds rewards gaes θ
  = {| total_loss := spec_total_loss self surrogate value_loss entropy_bonus;
       surr_loss := surrogate;
       vf_loss := value_loss;
       entropy_loss := entropy_bonus |}.
Proof.
  intros ev state_values surrogate value_loss entropy_bonus.
  assert (Hv : ev.2 = (λ x, [x]) <$> state_values) by apply value_column.
  unfold losses. fold ev.
  destruct ev as [[new_log_probs entropy] values] eqn:Hev. cbn [fst snd] in *.
  subst values.
  assert (Hvf :
    reduce_mean
      (fmap (M:=list) (fmap (M:=list) (λ x : num, (x * x)%num))
         (zip_with (zip_with nsub) ((λ x, [x]) <$> state_values)
            (zip_with (zip_with nadd) (expand_dims rewards)
               (fmap (M:=list) (fmap (M:=list) (nmul (gamma self)))
                  (expand_dims next_v_preds)))))
    = value_loss).
  { unfold reduce_mean, value_loss, spec_value_loss, expand_dims. f_equal.
    assert (Ht :
      zip_with (zip_with nadd) ((λ x, [x]) <$> rewards)
        (fmap (M:=list) (fmap (M:=list) (nmul (gamma self)))
           ((λ x, [x]) <$> next_v_preds))
      = (λ x, [x]) <$>
          zip_with (λ r nv, (r + gamma self * nv)%num) rewards next_v_preds).
    { clear. revert next_v_preds.
      induction rewards as [|r rewards IH]; intros [|nv next_v_preds];
        simpl; try done.
      f_equal. apply IH. }
    rewrite Ht. apply concat_columns. }
  rewrite Hvf. reflexivity.
Qed.
End Loss.

(** The order of minimum and mean matters: with advantages [[1, -1]], ratios
    [[2, 2]] and [clip_ratio = 0.2], the mean of the entry-by-entry minima is
    [-0.4] whereas the minimum of the two means is [0]. *)
Lemma surrogate_not_min_of_means :
  spec_surrogate unit_box [1; -1]%R [2; 2]%R = (- (4 / 10))%R
  ∧ min_of_means unit_box [1; -1]%R [2; 2]%R = 0%R.
Proof.
  unfold spec_surrogate, min_of_means, mean, reduce_sum, clip.
  cbn [fmap list_fmap zip_with foldl length unit_box clip_ratio
       nadd nsub nmul ndiv nmin nmax zero one of_nat real_arith real_elementary].
  replace (Rmin 2 (1 + 2 / 10)) with (12 / 10)%R
    by (unfold Rmin; destruct (Rle_dec _ _); lra).
  replace (Rmax (12 / 10) (1 - 2 / 10)) with (12 / 10)%R
    by (unfold Rmax; destruct (Rle_dec _ _); lra).
  replace (Rmin (1 * 2) (1 * (12 / 10))) with (12 / 10)%R
    by (unfold Rmin; destruct (Rle_dec _ _); lra).
  replace (Rmin (-1 * 2) (-1 * (12 / 10))) with (- 2)%R
    by (unfold Rmin; destruct (Rle_dec _ _); lra).
  simpl INR.
  split; [lra|].
  unfold Rmin; destruct (Rle_dec _ _); lra.
Qed.

(** C2.  For every minibatch and every value [θ] of the trainable variables,
    the tape of [learn] computes the surrogate as the mean of the
    entry-by-entry minimum of [advantages * ratio] and
    [advantages * clip(ratio, 1 - clip_ratio, 1 + clip_ratio)] with
    [ratio = exp(new_log_probs - stored_log_probs)], the value loss as
    [mean((state_values - (reward + gamma * next_v_pred))^2)], and the total
    loss as [-surrogate + c1 * value_loss - c2 * entropy_bonus]; [learn]
    records these four scalars at the current variables, and the objective
    it hands to the optimizer, as a function of the trainable variables, is
    that total loss: the new variables and the new optimizer state are those
    of one optimizer step on it from the current variables.  Taking the minimum
    before the mean is not the same as taking it after: the two differ on
    advantages [[1, -1]] with ratios [[2, 2]]. *)
Theorem learn_loss_spec :
  (∀ (num : Type) (A : Arith num) (E : Elementary num) (Weights Obs Opt : Type)
     (network : Weights → Obs → list num * num)
     (apply_gradients :
        Opt → (Weights * list num → num) → Weights * list num
        → (Weights * list num) * Opt)
     (self : Hyper num) (o : Opt) (θ0 : Params num Weights)
     (observations : list Obs) (actions : list (list num))
     (log_probs next_v_preds rewards gaes : list num),
     (∀ θ : Params num Weights,
        let ev := evaluate_actions network self θ observations actions in
        let state_values := (λ ob, (network (weights θ) ob).2) <$> observations in
        let surrogate := spec_surrogate self gaes (spec_ratio ev.1.1 log_probs) in
        let value_loss := spec_value_loss self state_values rewards next_v_preds in
        let entropy_bonus := reduce_mean ev.1.2 in
        losses network self observations actions log_probs next_v_preds rewards gaes θ
        = {| total_loss := spec_total_loss self surrogate value_loss entropy_bonus;
             surr_loss := surrogate;
             vf_loss := value_loss;
             entropy_loss := entropy_bonus |})
     ∧ (learn network apply_gradients self θ0 o observations actions log_probs
          next_v_preds rewards gaes).2
       = losses network self observations actions log_probs next_v_preds rewards
           gaes θ0
     ∧ ∃ objective : Weights * list num → num,
         (∀ v : Weights * list num,
            let θ := of_variables v in
            let ev := evaluate_actions network self θ observations actions in
            let state_values :=
              (λ ob, (network (weights θ) ob).2) <$> observations in
            objective v
            = spec_total_loss self
                (spec_surrogate self gaes (spec_ratio ev.1.1 log_probs))
                (spec_value_loss self state_values rewards next_v_preds)
                (reduce_mean ev.1.2))
         ∧ learn network apply_gradients self θ0 o observations actions log_probs
             next_v_preds rewards gaes
           = (of_variables (apply_gradients o objective (variables θ0)).1,
              (apply_gradients o objective (variables θ0)).2,
              losses network self observations actions log_probs next_v_preds
                rewards gaes θ0))
  ∧ spec_surrogate unit_box [1; -1]%R [2; 2]%R
    ≠ min_of_means unit_box [1; -1]%R [2; 2]%R.
Proof.
  split.
  - intros num A E Weights Obs Opt network apply_gradients self o θ0 observations
      actions log_probs next_v_preds rewards gaes.
    split; [|split].
    + intros θ. apply losses_spec.
    + unfold learn. destruct (apply_gradients _ _ _) as [v o']. reflexivity.
    + exists (λ v, total_loss
                     (losses network self observations actions log_probs
                        next_v_preds rewards gaes (of_variables v))).
      split.
      * intros v θ ev state_values. unfold θ, ev, state_values.
        rewrite losses_spec. reflexivity.
      * unfold learn. destruct (apply_gradients _ _ _) as [v o']. reflexivity.
  - destruct surrogate_not_min_of_means as [-> ->]. lra.
Qed.

(** ** The entropy bonus *)

Section Entropy.
Local Open Scope R_scope.





Context {Weights Obs : Type}.
Variable network : Weights → Obs → list R * R.
Variable self : Hyper R.

End Entropy.




(** ** The rollout *)

Section Rollout.
Context {num : Type} `{Elementary num}.
Context {Weights Obs Rng Env : Type}.
Variable network : Weights → Obs → list num * num.
Variable sample : Normal num → Rng → list num * Rng.
Variable self : Hyper num.
Variable env_step : Env → list num → (Obs * num * bool) * Env.

Lemma aligned_init (cur : Obs) (e : Env) (g : Rng) :
  aligned (rollout_init (num:=num) cur e g).
Proof. by repeat split. Qed.

Lemma rollout_body_steps (θ : Params num Weights) (s : Rollout num Obs Rng Env) :
  steps (rollout_body network sample self env_step θ s) = steps s + 1.
Proof.
  unfold rollout_body.
  destruct (act _ _ _ _ _ _ _) as [[[action value] log_prob] g].
  destruct (env_step _ _) as [[[next reward] d] e]. reflexivity.
Qed.

Lemma aligned_body (θ : Params num Weights) (s : Rollout num Obs Rng Env) :
  aligned s → aligned (rollout_body network sample self env_step θ s).
Proof.
  intros (Ho & Ha & Hl & Hr & Hv). unfold rollout_body, aligned.
  destruct (act _ _ _ _ _ _ _) as [[[action value] log_prob] g].
  destruct (env_step _ _) as [[[next reward] d] e]. simpl.
  rewrite !length_app. simpl. lia.
Qed.

(** The inner loop needs at most [max_steps - steps] more passes. *)
Lemma rollout_loop (θ : Params num Weights) (max_steps : Z) (fuel : nat)
  (s : Rollout num Obs Rng Env) :
  aligned s →
  (max_steps ≤ Z.of_nat (steps s) + Z.of_nat fuel)%Z →
  ∃ r,
    while fuel (rollout_cond max_steps)
      (λ s, Ok (rollout_body network sample self env_step θ s)) s = Ok r
    ∧ aligned r
    ∧ rollout_cond max_steps r = false
    ∧ steps s ≤ steps r
    ∧ (rollout_cond max_steps s = true →
       steps s + 1 ≤ steps r ∧ (Z.of_nat (steps r) ≤ max_steps)%Z).
Proof.
  revert s. induction fuel as [|fuel IH]; intros s Hal Hfuel.
  - exists s. simpl.
    assert (Hc : rollout_cond max_steps s = false).
    { unfold rollout_cond. apply andb_false_iff. right. apply Z.ltb_ge. lia. }
    rewrite Hc. split; [done|]. split; [done|]. split; [done|].
    split; [lia|]. intros ?; congruence.
  - simpl. destruct (rollout_cond max_steps s) eqn:Hc.
    + simpl.
      set (s' := rollout_body network sample self env_step θ s).
      assert (Hs' : steps s' = steps s + 1) by apply rollout_body_steps.
      destruct (IH s') as (r & Hr & Hal' & Hstop & Hle & Hmore).
      { by apply aligned_body. }
      { lia. }
      exists r. split; [exact Hr|]. split; [exact Hal'|]. split; [exact Hstop|].
      split; [lia|]. intros _. split; [lia|].
      unfold rollout_cond in Hc. apply andb_true_iff in Hc as [_ Hlt].
      apply Z.ltb_lt in Hlt.
      destruct (rollout_cond max_steps s') eqn:Hc'.
      * apply Hmore. reflexivity.
      * assert (r = s') as ->.
        { destruct fuel; simpl in Hr; rewrite Hc' in Hr; congruence. }
        lia.
    + exists s. split; [done|]. split; [done|]. split; [done|].
      split; [lia|]. intros ?; congruence.
Qed.

(** [rollout] never runs out of fuel; with [max_steps >= 1] it takes at
    least one and at most [max_steps] steps. *)
Lemma rollout_fuel (θ : Params num Weights) (max_steps : Z) (cur : Obs)
  (e : Env) (g : Rng) :
  ∃ r,
    rollout network sample self env_step θ max_steps cur e g = Ok r
    ∧ aligned r
    ∧ rollout_cond max_steps r = false
    ∧ ((1 ≤ max_steps)%Z → 1 ≤ steps r ∧ (Z.of_nat (steps r) ≤ max_steps)%Z).
Proof.
  unfold rollout.
  destruct (rollout_loop θ max_steps (Z.to_nat max_steps) (rollout_init cur e g))
    as (r & Hr & Hal & Hstop & Hle & Hmore).
  { apply aligned_init. }
  { simpl. lia. }
  exists r. split; [exact Hr|]. split; [exact Hal|]. split; [exact Hstop|].
  intros Hpos. apply Hmore. unfold rollout_cond. simpl.
  apply Z.ltb_lt. lia.
Qed.
End Rollout.

(** ** The arrays of an episode *)

Section EpisodeData.
Context {num : Type} `{Arith num}.
Context {Obs Rng Env : Type}.
Variable self : Hyper num.

Lemma length_normalize (gaes : list num) : length (normalize gaes) = length gaes.
Proof. unfold normalize. by rewrite length_fmap. Qed.

Lemma episode_data_Ok (r : Rollout num Obs Rng Env) :
  let next_v_preds := drop 1 (v_preds r) ++ [zero] in
  let raw := gae_backward self (deltas self (rewards r) (v_preds r) next_v_preds) in
  get_gaes self (rewards r) (v_preds r) next_v_preds = Ok raw
  ∧ episode_data self r
    = Ok (obs r, actions r, log_probs r, next_v_preds, rewards r, normalize raw).
Proof.
  intros next_v_preds raw.
  split; [apply get_gaes_backward|].
  unfold episode_data. fold next_v_preds.
  rewrite get_gaes_backward. reflexivity.
Qed.

Lemma length_next_v_preds (v : list num) :
  1 ≤ length v → length (drop 1 v ++ [zero]) = length v.
Proof. intros Hv. rewrite length_app, length_drop. simpl. lia. Qed.
End EpisodeData.

(** C9, as stated, fails for an episode without steps: with [max_steps = 0]
    the rollout loop is not entered, the trajectory lists stay empty, and
    [v_preds[1:] + [0]] still has one entry.  Of the six arrays [data],
    [data.1.1.2] is [next_v_preds] and [data.2] the advantages. *)
Lemma next_v_preds_without_steps :
  ∃ r data,
    rollout constant_network mean_sampler unit_box (fixed_reward_step 3) no_weights
      0 tt 0 tt = Ok r
    ∧ episode_data unit_box r = Ok data
    ∧ steps r = 0
    ∧ length (rewards r) = 0
    ∧ length data.2 = 0
    ∧ length data.1.1.2 = 1
    ∧ length data.1.1.2 ≠ steps r.
Proof.
  eexists. eexists. split; [reflexivity|]. split; [reflexivity|].
  repeat split; try reflexivity. discriminate.
Qed.

(** C9, amended.  When [max_steps >= 1], every episode takes between 1 and
    [max_steps] environment steps, [get_gaes] returns without raising, and
    the advantages (raw and normalized), the rewards, [next_v_preds]
    ([v_preds] shifted left by one with the bootstrap 0 appended), [obs],
    [actions], [log_probs] and [v_preds] all have as many entries as steps
    were taken. *)
Theorem episode_arrays_aligned :
  ∀ (num : Type) (A : Arith num) (E : Elementary num) (Weights Obs Rng Env : Type)
    (network : Weights → Obs → list num * num)
    (sample : Normal num → Rng → list num * Rng) (self : Hyper num)
    (env_step : Env → list num → (Obs * num * bool) * Env)
    (θ : Params num Weights) (max_steps : Z) (cur : Obs) (e : Env) (g : Rng),
    (1 ≤ max_steps)%Z →
    ∃ (r : Rollout num Obs Rng Env) (raw : list num),
      rollout network sample self env_step θ max_steps cur e g = Ok r
      ∧ 1 ≤ steps r ∧ (Z.of_nat (steps r) ≤ max_steps)%Z
      ∧ get_gaes self (rewards r) (v_preds r) (drop 1 (v_preds r) ++ [zero]) = Ok raw
      ∧ episode_data self r
        = Ok (obs r, actions r, log_probs r, drop 1 (v_preds r) ++ [zero],
              rewards r, normalize raw)
      ∧ length raw = steps r
      ∧ length (normalize raw) = steps r
      ∧ length (rewards r) = steps r
      ∧ length (drop 1 (v_preds r) ++ [zero]) = steps r
      ∧ length (obs r) = steps r
      ∧ length (actions r) = steps r
      ∧ length (log_probs r) = steps r
      ∧ length (v_preds r) = steps r.
Proof.
  intros num A E Weights Obs Rng Env network sample self env_step θ max_steps
    cur e g Hmax.
  destruct (rollout_fuel network sample self env_step θ max_steps cur e g)
    as (r & Hr & (Ho & Ha & Hl & Hrw & Hv) & _ & Hsteps).
  destruct (Hsteps Hmax) as [H1 Hle].
  destruct (episode_data_Ok self r) as [Hg Hd].
  assert (Hn : length (drop 1 (v_preds r) ++ [zero]) = steps r).
  { rewrite length_next_v_preds; lia. }
  assert (Hraw :
    length (gae_backward self
              (deltas self (rewards r) (v_preds r) (drop 1 (v_preds r) ++ [zero])))
    = steps r).
  { rewrite length_gae_backward. by apply length_deltas. }
  eexists r, _. split; [exact Hr|]. split; [exact H1|]. split; [exact Hle|].
  split; [exact Hg|]. split; [exact Hd|]. split; [exact Hraw|].
  split; [by rewrite length_normalize|].
  repeat split; assumption.
Qed.

Lemma episode_arrays_aligned_witness :
  ∃ (r : Rollout R unit unit nat) (raw : list R),
    rollout constant_network mean_sampler unit_box (fixed_reward_step 3) no_weights
      5 tt 0 tt = Ok r
    ∧ length raw = steps r ∧ length (rewards r) = steps r
    ∧ length (drop 1 (v_preds r) ++ [zero]) = steps r.
Proof.
  destruct (episode_arrays_aligned R _ _ unit unit unit nat constant_network
              mean_sampler unit_box (fixed_reward_step 3) no_weights 5 tt 0 tt)
    as (r & raw & Hr & _ & _ & _ & _ & Hraw & _ & Hrw & Hn & _); [lia|].
  exists r, raw. repeat split; assumption.
Defined.

(** ** The training loop *)

Lemma np_take_Ok {A : Type} (a : list A) (indices : list nat) :
  Forall (λ i, i < length a) indices →
  ∃ xs, np_take a indices = Ok xs ∧ length xs = length indices.
Proof.
  induction 1 as [|i indices Hi _ (xs & Hxs & Hlen)]; simpl.
  - by exists [].
  - destruct (lookup_lt_is_Some_2 a i Hi) as [x Hx].
    rewrite (getitem_Ok a i x Hx). simpl. rewrite Hxs. simpl.
    exists (x :: xs). simpl. by rewrite Hlen.
Qed.

Section Training.
Context {num : Type} `{Elementary num}.
Context {Weights Obs Rng Opt Env : Type}.
Variable network : Weights → Obs → list num * num.
Variable sample : Normal num → Rng → list num * Rng.
Variable apply_gradients :
  Opt → (Weights * list num → num) → Weights * list num → (Weights * list num) * Opt.
Variable self : Hyper num.
Variable env_reset : Env → Obs * Env.
Variable env_step : Env → list num → (Obs * num * bool) * Env.
Variable randint : Rng → nat → nat → list nat * Rng.

(** [np.random.randint(0, high, size)] draws from [[0, high)]. *)
Hypothesis randint_range :
  ∀ g high size, 0 < high → Forall (λ i, i < high) (randint g high size).1.

Lemma count_loss_app (l k : list (Scalar num)) :
  count_loss (l ++ k) = count_loss l + count_loss k.
Proof. unfold count_loss. by rewrite List.filter_app, length_app. Qed.

(** One update on arrays of a common positive length: it does not raise,
    counts one epoch and writes four loss entries. *)
Lemma update_Ok (ob : list Obs) (ac : list (list num)) (lp nv rw ga : list num)
  (t : Trainer num Weights Rng Opt Env) (i : nat) :
  0 < length rw →
  length ob = length rw → length ac = length rw → length lp = length rw →
  length nv = length rw → length ga = length rw →
  ∃ t',
    update network apply_gradients self randint (ob, ac, lp, nv, rw, ga) t i = Ok t'
    ∧ epoch t' = epoch t + 1
    ∧ episode t' = episode t
    ∧ saved t' = saved t
    ∧ env t' = env t
    ∧ count_loss (scalars t') = count_loss (scalars t) + 4.
Proof.
  intros Hpos Hob Hac Hlp Hnv Hga. unfold update.
  rewrite decide_True by exact Hpos.
  pose proof (randint_range (rng t) (length rw) (batch_size self) Hpos) as Hrange.
  destruct (randint (rng t) (length rw) (batch_size self)) as [idx g] eqn:Hidx.
  cbn [fst] in Hrange. cbn [mbind outcome_bind].
  destruct (np_take_Ok ob idx) as (s1 & -> & _); [by rewrite Hob|].
  destruct (np_take_Ok ac idx) as (s2 & -> & _); [by rewrite Hac|].
  destruct (np_take_Ok lp idx) as (s3 & -> & _); [by rewrite Hlp|].
  destruct (np_take_Ok nv idx) as (s4 & -> & _); [by rewrite Hnv|].
  destruct (np_take_Ok rw idx) as (s5 & -> & _); [exact Hrange|].
  destruct (np_take_Ok ga idx) as (s6 & -> & _); [by rewrite Hga|].
  cbn [mbind outcome_bind].
  destruct (learn _ _ _ _ _ _ _ _ _ _ _) as [[θ o] summ].
  eexists. split; [reflexivity|]. cbn [epoch episode saved env scalars].
  repeat split; try reflexivity.
  rewrite count_loss_app. reflexivity.
Qed.

(** The [for] loop over the updates. *)
Lemma updates_Ok (ob : list Obs) (ac : list (list num)) (lp nv rw ga : list num)
  (xs : list nat) (t : Trainer num Weights Rng Opt Env) :
  0 < length rw →
  length ob = length rw → length ac = length rw → length lp = length rw →
  length nv = length rw → length ga = length rw →
  ∃ t',
    for_each xs (update network apply_gradients self randint (ob, ac, lp, nv, rw, ga)) t
    = Ok t'
    ∧ epoch t' = epoch t + length xs
    ∧ episode t' = episode t
    ∧ saved t' = saved t
    ∧ env t' = env t
    ∧ count_loss (scalars t') = count_loss (scalars t) + 4 * length xs.
Proof.
  intros Hpos Hob Hac Hlp Hnv Hga. revert t.
  induction xs as [|x xs IH]; intros t.
  - exists t. simpl. repeat split; lia.
  - destruct (update_Ok ob ac lp nv rw ga t x Hpos Hob Hac Hlp Hnv Hga)
      as (t1 & Hu & He & Hep & Hs & Hen & Hc).
    destruct (IH t1) as (t2 & Hf & He2 & Hep2 & Hs2 & Hen2 & Hc2).
    exists t2. cbn [for_each]. rewrite Hu. cbn [mbind outcome_bind].
    split; [exact Hf|]. cbn [length].
    repeat split; try congruence; lia.
Qed.

(** One pass of the outer loop, for [max_steps >= 1] and [save_freq] not
    zero: it does not raise, completes one episode, counts [n_updates]
    epochs, writes [4 * n_updates] loss entries and the checkpoints of
    [episode_saves]. *)
Lemma train_body_Ok (max_steps save_freq : Z) (t : Trainer num Weights Rng Opt Env) :
  (1 ≤ max_steps)%Z → save_freq ≠ 0%Z →
  ∃ r t',
    rollout network sample self env_step (params t) max_steps
      (env_reset (env t)).1 (env_reset (env t)).2 (rng t) = Ok r
    ∧ 1 ≤ steps r ∧ (Z.of_nat (steps r) ≤ max_steps)%Z
    ∧ train_body network sample apply_gradients self env_reset env_step randint
        max_steps save_freq t = Ok t'
    ∧ episode t' = episode t + 1
    ∧ epoch t' = epoch t + n_updates self
    ∧ saved t'
      = saved t ++ episode_saves max_steps save_freq (steps r) (episode t + 1)
    ∧ count_loss (scalars t') = count_loss (scalars t) + 4 * n_updates self.
Proof.
  intros Hmax Hfreq. unfold train_body.
  destruct (env_reset (env t)) as [cur e]. cbn [fst snd].
  destruct (rollout_fuel network sample self env_step (params t) max_steps cur e (rng t))
    as (r & Hr & (Ho & Ha & Hl & Hrw & Hv) & _ & Hsteps).
  destruct (Hsteps Hmax) as [H1 Hle].
  exists r. rewrite Hr. cbn [mbind outcome_bind].
  destruct (episode_data_Ok self r) as [_ Hd]. rewrite Hd. cbn [mbind outcome_bind].
  match goal with
  | |- context [for_each ?xs (update _ _ _ _ (?ob, ?ac, ?lp, ?nv, ?rw, ?ga)) ?t0] =>
      destruct (updates_Ok ob ac lp nv rw ga xs t0)
        as (t1 & Hf & He & Hep & Hs & Hen & Hc)
  end.
  { lia. } { lia. } { lia. } { lia. }
  { rewrite length_next_v_preds; lia. }
  { rewrite length_normalize, length_gae_backward.
    rewrite (length_deltas self _ _ _ (steps r)); try lia.
    rewrite length_next_v_preds; lia. }
  rewrite Hf. cbn [mbind outcome_bind].
  apply Z.eqb_neq in Hfreq. rewrite Hfreq.
  unfold range in He, Hc. rewrite length_seq in He, Hc.
  cbn [epoch episode saved scalars] in He, Hep, Hs, Hc.
  eexists. split; [reflexivity|]. split; [exact H1|]. split; [exact Hle|].
  split; [reflexivity|].
  unfold episode_saves.
  destruct (max_steps <=? Z.of_nat (steps r))%Z;
    cbn [episode save_model saved];
    destruct (Z.of_nat (episode t1 + 1) mod save_freq =? 0)%Z eqn:Hmod;
    cbn [episode epoch saved scalars save_model];
    rewrite ?Hep, ?Hs, ?count_loss_app in *; rewrite ?Hmod;
    cbn [app]; rewrite <- ?app_assoc, ?app_nil_r; cbn [app];
    (split; [reflexivity|]); (split; [exact He|]); (split; [reflexivity|]);
    rewrite Hc; unfold count_loss; simpl; lia.
Qed.

(** When [n_updates] reaches [max_epochs], one episode ends the training:
    [train] returns for every positive amount of fuel. *)
Lemma train_one_episode (fuel : nat) (max_epochs max_steps save_freq : Z)
  (θ : Params num Weights) (o : Opt) (e : Env) (g : Rng) :
  1 ≤ fuel →
  (1 ≤ max_epochs)%Z → (max_epochs ≤ Z.of_nat (n_updates self))%Z →
  (1 ≤ max_steps)%Z → save_freq ≠ 0%Z →
  ∃ r t,
    rollout network sample self env_step θ max_steps
      (env_reset e).1 (env_reset e).2 g = Ok r
    ∧ 1 ≤ steps r ∧ (Z.of_nat (steps r) ≤ max_steps)%Z
    ∧ train network sample apply_gradients self env_reset env_step randint fuel
        max_epochs max_steps save_freq θ o e g = Ok t
    ∧ episode t = 1
    ∧ epoch t = n_updates self
    ∧ saved t
      = episode_saves max_steps save_freq (steps r) 1 ++ [ppo_final_episode 1]
    ∧ count_loss (scalars t) = 4 * n_updates self.
Proof.
  intros Hfuel Hep1 Hepn Hmax Hfreq.
  destruct (train_body_Ok max_steps save_freq (train_init θ o e g) Hmax Hfreq)
    as (r & t1 & Hr & H1 & Hle & Hb & Hepi & Hepo & Hsv & Hc).
  cbn [train_init params env rng episode epoch saved scalars] in *.
  exists r. unfold train.
  destruct fuel as [|fuel]; [lia|]. cbn [while].
  assert (Hc0 : (Z.of_nat (epoch (train_init (num:=num) θ o e g)) <? max_epochs)%Z = true).
  { apply Z.ltb_lt. simpl. lia. }
  rewrite Hc0, Hb. cbn [mbind outcome_bind].
  assert (Hc1 : (Z.of_nat (epoch t1) <? max_epochs)%Z = false).
  { apply Z.ltb_ge. lia. }
  assert (Hw : while fuel (λ t, (Z.of_nat (epoch t) <? max_epochs)%Z)
                 (train_body network sample apply_gradients self env_reset env_step
                    randint max_steps save_freq) t1 = Ok t1).
  { destruct fuel; simpl; by rewrite Hc1. }
  rewrite Hw. cbn [mbind outcome_bind].
  eexists. split; [exact Hr|]. split; [exact H1|]. split; [exact Hle|].
  split; [reflexivity|]. cbn [save_model episode epoch saved scalars].
  rewrite Hepi, Hepo, Hsv, Hc. simpl. repeat split; reflexivity.
Qed.
End Training.

Lemma first_index_range (g : unit) (high size : nat) :
  0 < high → Forall (λ i, i < high) (first_index g high size).1.
Proof.
  intros Hpos. unfold first_index. cbn [fst].
  apply Forall_forall. intros i Hi.
  apply elem_of_replicate in Hi as [-> _]. exact Hpos.
Qed.

(** C7, as stated, fails when the episode lasts [max_steps] steps: on the
    fixed-reward environment whose episodes are done at the fifth step,
    [train(max_epochs=1, max_steps=5)] with the default [save_freq = 50]
    writes two checkpoints, [ppo_episode1.h5] for the episode that reached
    [max_steps] and then [ppo_final_episode1.h5]. *)
Lemma train_two_checkpoints :
  ∃ t,
    train constant_network mean_sampler idle_optimizer unit_box fixed_reward_reset
      (fixed_reward_step 5) first_index 1 1 5 50 no_weights tt 0 tt = Ok t
    ∧ saved t = [ppo_episode 1; ppo_final_episode 1]
    ∧ length (saved t) ≠ 1.
Proof.
  destruct (train_one_episode constant_network mean_sampler idle_optimizer unit_box
              fixed_reward_reset (fixed_reward_step 5) first_index first_index_range
              1 1 5 50 no_weights tt 0 tt)
    as (r & t & Hr & _ & _ & Ht & _ & _ & Hs & _);
    [lia | lia | simpl; lia | lia | discriminate |].
  exists t. split; [exact Ht|]. rewrite Hs.
  assert (Hsteps : steps r = 5).
  { unfold rollout in Hr. cbn in Hr. injection Hr as <-. reflexivity. }
  rewrite Hsteps. split; [reflexivity | discriminate].
Qed.

(** C7, amended.  With [n_updates >= 1], indices drawn in range and
    [save_freq] not zero, [train(max_epochs=1, max_steps=5)] terminates after
    one episode of 1 to 5 steps (any positive fuel gives the result), with
    [epoch = n_updates], and emits [4 * n_updates] loss entries, at least
    [n_updates].  It writes the final checkpoint [ppo_final_episode1.h5],
    preceded by [ppo_episode1.h5] once if the episode took all 5 steps and
    once more if [save_freq] divides 1: exactly one checkpoint when the
    episode is done in fewer than 5 steps and [save_freq] does not divide 1,
    two when the episode took 5 steps. *)
Theorem train_single_epoch :
  ∀ (num : Type) (A : Arith num) (E : Elementary num)
    (Weights Obs Rng Opt Env : Type)
    (network : Weights → Obs → list num * num)
    (sample : Normal num → Rng → list num * Rng)
    (apply_gradients :
       Opt → (Weights * list num → num) → Weights * list num
       → (Weights * list num) * Opt)
    (self : Hyper num) (env_reset : Env → Obs * Env)
    (env_step : Env → list num → (Obs * num * bool) * Env)
    (randint : Rng → nat → nat → list nat * Rng)
    (save_freq : Z) (θ : Params num Weights) (o : Opt) (e : Env) (g : Rng)
    (fuel : nat),
    (∀ g high size, 0 < high → Forall (λ i, i < high) (randint g high size).1) →
    1 ≤ n_updates self → save_freq ≠ 0%Z → 1 ≤ fuel →
    ∃ (r : Rollout num Obs Rng Env) (t : Trainer num Weights Rng Opt Env),
      rollout network sample self env_step θ 5 (env_reset e).1 (env_reset e).2 g
      = Ok r
      ∧ 1 ≤ steps r ≤ 5
      ∧ train network sample apply_gradients self env_reset env_step randint fuel
          1 5 save_freq θ o e g = Ok t
      ∧ episode t = 1
      ∧ epoch t = n_updates self
      ∧ saved t = episode_saves 5 save_freq (steps r) 1 ++ [ppo_final_episode 1]
      ∧ (steps r < 5 → (1 mod save_freq ≠ 0)%Z → saved t = [ppo_final_episode 1])
      ∧ (steps r = 5 → (1 mod save_freq ≠ 0)%Z →
         saved t = [ppo_episode 1; ppo_final_episode 1])
      ∧ count_loss (scalars t) = 4 * n_updates self
      ∧ n_updates self ≤ count_loss (scalars t).
Proof.
  intros num A E Weights Obs Rng Opt Env network sample apply_gradients self
    env_reset env_step randint save_freq θ o e g fuel Hrange Hn Hfreq Hfuel.
  destruct (train_one_episode network sample apply_gradients self env_reset env_step
              randint Hrange fuel 1 5 save_freq θ o e g)
    as (r & t & Hr & H1 & Hle & Ht & Hepi & Hepo & Hs & Hc);
    [lia | lia | lia | lia | exact Hfreq |].
  exists r, t. split; [exact Hr|]. split; [lia|]. split; [exact Ht|].
  split; [exact Hepi|]. split; [exact Hepo|]. split; [exact Hs|].
  split; [|split; [|split; [exact Hc | lia]]].
  - intros Hlt Hmod. rewrite Hs. unfold episode_saves.
    apply Z.eqb_neq in Hmod. change (Z.of_nat 1) with 1%Z. rewrite Hmod.
    assert (Hb : (5 <=? Z.of_nat (steps r))%Z = false) by (apply Z.leb_gt; lia).
    rewrite Hb. reflexivity.
  - intros Heq Hmod. rewrite Hs. unfold episode_saves.
    apply Z.eqb_neq in Hmod. change (Z.of_nat 1) with 1%Z. rewrite Hmod.
    assert (Hb : (5 <=? Z.of_nat (steps r))%Z = true) by (apply Z.leb_le; lia).
    rewrite Hb. reflexivity.
Qed.

Lemma train_single_epoch_witness :
  ∃ t : Trainer R unit unit unit nat,
    train constant_network mean_sampler idle_optimizer unit_box fixed_reward_reset
      (fixed_reward_step 3) first_index 1 1 5 50 no_weights tt 0 tt = Ok t
    ∧ epoch t = 4
    ∧ count_loss (scalars t) = 16.
Proof.
  destruct (train_single_epoch R _ _ unit unit unit unit nat constant_network
              mean_sampler idle_optimizer unit_box fixed_reward_reset
              (fixed_reward_step 3) first_index 50 no_weights tt 0 tt 1)
    as (r & t & _ & _ & Ht & _ & Hepo & _ & _ & _ & Hc & _);
    [exact first_index_range | simpl; lia | discriminate | lia |].
  exists t. split; [exact Ht|]. split; [exact Hepo | exact Hc].
Defined.

(** ** Normalization of the advantages, in binary64 *)

Section Binary64.
Local Open Scope Z_scope.


End Binary64.


(** What is closed under addition and holds of 0 and of every element holds
    of the sum, however numpy groups the additions. *)
Section SumClosed.
Context {num : Type} `{Arith num}.
Variable P : num → Prop.
Hypothesis P_zero : P zero.
Hypothesis P_add : ∀ x y, P x → P y → P (x + y)%num.





End SumClosed.

Section Degenerate.
Local Open Scope float_scope.

















Section NaNLoss.
Variables fexp flog : float → float.
Context {Weights Obs Rng Opt Env : Type}.
Variable network : Weights → Obs → list float * float.
Variable apply_gradients :
  Opt → (Weights * list float → float) → Weights * list float
  → (Weights * list float) * Opt.
Variable self : Hyper float.
Variable randint : Rng → nat → nat → list nat * Rng.





End NaNLoss.

Context {Obs Rng Env : Type}.

End Degenerate.




(** * Further properties *)

(** ** The advantage estimator *)

(** X1.  [get_gaes] never raises, whatever the three lists: [zip] cuts them
    to the shortest, the result has that length, and empty rewards give the
    empty list. *)
Theorem get_gaes_total :
  ∀ (num : Type) (A : Arith num) (self : Hyper num) (r v nv : list num),
    ∃ gae : list num,
      get_gaes self r v nv = Ok gae
      ∧ length gae = length r `min` (length nv `min` length v)
      ∧ (r = [] → gae = []).
Proof.
  intros num A self r v nv.
  exists (gae_backward self (deltas self r v nv)).
  split; [apply get_gaes_backward|].
  split.
  - rewrite length_gae_backward. unfold deltas.
    by rewrite !length_zip_with.
  - intros ->. reflexivity.
Qed.

Section GAE_real.
Variable self : Hyper R.
Local Open Scope R_scope.

Lemma gae_backward_cons (d : R) (delta : list R) :
  gae_backward self (d :: delta)
  = (d + lam self * gamma self * hd 0 (gae_backward self delta))
      :: gae_backward self delta.
Proof.
  simpl. destruct (gae_backward self delta) as [|g gs]; simpl; f_equal; lra.
Qed.

Lemma gae_backward_discounted (delta : list R) (t : nat) :
  (t < length delta)%nat →
  nth t (gae_backward self delta) 0
  = discounted (lam self * gamma self) (drop t delta).
Proof.
  revert t. induction delta as [|d delta IH]; intros t Ht; simpl in Ht; [lia|].
  rewrite gae_backward_cons.
  assert (Hhd : hd 0 (gae_backward self delta)
                = discounted (lam self * gamma self) delta).
  { destruct delta as [|d' delta']; [reflexivity|].
    specialize (IH 0%nat ltac:(simpl; lia)). rewrite drop_0 in IH.
    rewrite <- IH. by destruct (gae_backward self (d' :: delta')). }
  destruct t as [|t].
  - simpl. rewrite Hhd. reflexivity.
  - simpl. apply IH. lia.
Qed.
End GAE_real.

(** X2.  Over the reals, the advantage [get_gaes] returns at step [t] is the
    discounted sum of the later deltas with factor [lam * gamma]:
    [delta[t] + (lam*gamma) * (delta[t+1] + (lam*gamma) * (...))]. *)
Theorem get_gaes_discounted :
  ∀ (self : Hyper R) (r v nv : list R) (t : nat),
    t < length (deltas self r v nv) →
    ∃ gae : list R,
      get_gaes self r v nv = Ok gae
      ∧ nth t gae 0%R
        = discounted (lam self * gamma self) (drop t (deltas self r v nv)).
Proof.
  intros self r v nv t Ht. eexists. split; [apply get_gaes_backward|].
  by apply gae_backward_discounted.
Qed.

Lemma get_gaes_discounted_witness :
  ∃ gae : list R,
    get_gaes unit_box [1; 1]%R [0; 0]%R [0; 0]%R = Ok gae
    ∧ nth 0 gae 0%R
      = discounted (lam unit_box * gamma unit_box)
          (drop 0 (deltas unit_box [1; 1]%R [0; 0]%R [0; 0]%R)).
Proof.
  apply (get_gaes_discounted unit_box [1; 1]%R [0; 0]%R [0; 0]%R 0).
  simpl. lia.
Defined.

Section GAE_bootstrap.
Variable self : Hyper R.
Local Open Scope R_scope.

(** With [lam = 0] the recursion adds nothing to a delta. *)
Lemma gae_backward_lam0 (delta : list R) :
  lam self = 0 → gae_backward self delta = delta.
Proof.
  intros Hlam. induction delta as [|d delta IH]; [done|].
  rewrite gae_backward_cons, IH, Hlam. f_equal. lra.
Qed.

(** With [lam = 1] and the next-value predictions that [train] builds, the
    value predictions cancel along the trajectory. *)
Lemma gae_backward_bootstrap (r v : list R) (t : nat) :
  lam self = 1 → length v = length r → (t < length r)%nat →
  nth t (gae_backward self (deltas self r v (drop 1 v ++ [0]))) 0
  = discounted (gamma self) (drop t r) - nth t v 0.
Proof.
  intros Hlam. revert v t.
  induction r as [|r0 r IH]; intros [|v0 v] t Hlen Ht; simpl in Hlen, Ht; try lia.
  assert (Hd : deltas self (r0 :: r) (v0 :: v) (drop 1 (v0 :: v) ++ [0])
               = (r0 + gamma self * hd 0 v - v0)
                   :: deltas self r v (drop 1 v ++ [0])).
  { unfold deltas. destruct v as [|v1 v]; simpl; [|reflexivity].
    destruct r; [reflexivity | simpl in Hlen; lia]. }
  rewrite Hd, gae_backward_cons.
  destruct t as [|t]; [|simpl; apply IH; lia].
  cbn [nth drop discounted foldr]. fold (discounted (gamma self) r).
  destruct r as [|r1 r].
  - destruct v; [|simpl in Hlen; lia]. simpl. rewrite Hlam. lra.
  - destruct v as [|v1 v]; [simpl in Hlen; lia|].
    specialize (IH (v1 :: v) 0%nat ltac:(simpl in *; lia) ltac:(simpl; lia)).
    rewrite drop_0 in IH. cbn [nth] in IH.
    assert (Hhd : ∀ l : list R, hd 0 l = nth 0 l 0) by (by intros []).
    rewrite (Hhd (gae_backward _ _)), IH, Hlam. cbn [hd]. lra.
Qed.
End GAE_bootstrap.

(** X3.  With [lam = 1] (the default) and [next_v_preds] built as in [train]
    ([v_preds] shifted left, bootstrap 0 appended), the advantage at step [t]
    is, over the reals, the discounted return from [t] minus the value
    prediction at [t]: the intermediate value predictions cancel. *)
Theorem get_gaes_return_minus_value :
  ∀ (self : Hyper R) (r v : list R) (t : nat),
    lam self = 1%R → length v = length r → t < length r →
    ∃ gae : list R,
      get_gaes self r v (drop 1 v ++ [0%R]) = Ok gae
      ∧ nth t gae 0%R = (discounted (gamma self) (drop t r) - nth t v 0)%R.
Proof.
  intros self r v t Hlam Hlen Ht. eexists.
  split; [apply get_gaes_backward|].
  by apply gae_backward_bootstrap.
Qed.

Lemma get_gaes_return_minus_value_witness :
  ∃ gae : list R,
    get_gaes unit_box [1; 1; 1]%R [3; 2; 1]%R (drop 1 [3; 2; 1]%R ++ [0%R]) = Ok gae
    ∧ nth 0 gae 0%R
      = (discounted (gamma unit_box) (drop 0 [1; 1; 1]%R) - nth 0 [3; 2; 1]%R 0)%R.
Proof.
  apply (get_gaes_return_minus_value unit_box [1; 1; 1]%R [3; 2; 1]%R 0);
    [reflexivity | reflexivity | simpl; lia].
Defined.

(** X4.  With [lam = 0] the advantages are, over the reals, the one-step
    deltas [r[t] + gamma * nv[t] - v[t]] themselves. *)
Theorem get_gaes_lam0 :
  ∀ (self : Hyper R) (r v nv : list R),
    lam self = 0%R →
    get_gaes self r v nv = Ok (deltas self r v nv).
Proof.
  intros self r v nv Hlam. rewrite get_gaes_backward.
  by rewrite gae_backward_lam0.
Qed.

Lemma get_gaes_lam0_witness :
  get_gaes one_step [1; 2]%R [0; 0]%R [0; 0]%R
  = Ok (deltas one_step [1; 2]%R [0; 0]%R [0; 0]%R).
Proof. apply get_gaes_lam0. reflexivity. Defined.

(** ** Deterministic actions and shapes *)

(** Clipping leaves what is inside the interval alone. *)
Lemma clip_id (lo hi x : R) : (lo <= x <= hi)%R → clip lo hi x = x.
Proof.
  intros [Hlo Hhi]. unfold clip. simpl.
  rewrite Rmin_left by exact Hhi. by rewrite Rmax_left.
Qed.

(** X7.  The mean head of the network ends in [tanh], so its outputs lie in
    [[-1, 1]]; then the clipping of [act] changes nothing in deterministic
    mode: the action is [mean * action_bound + action_shift] and the stored
    log-probability is the density at the mean (over the reals). *)
Theorem act_test_unclipped :
  ∀ (Weights Obs Rng : Type) (network : Weights → Obs → list R * R)
    (sample : Normal R → Rng → list R * Rng) (self : Hyper R)
    (θ : Params R Weights) (state : Obs) (g : Rng),
    Forall (λ x, (-1 <= x <= 1)%R) (network (weights θ) state).1 →
    let output := (network (weights θ) state).1 in
    (act network sample self θ state true g).1
    = (zip_with nadd (zip_with nmul output (action_bound self)) (action_shift self),
       (network (weights θ) state).2,
       reduce_sum (log_prob (get_dist θ output) output)).
Proof.
  intros Weights Obs Rng network sample self θ state g Hrange output.
  rewrite act_test. cbn [fst].
  assert (Hclip : clip_by_value output (- one)%num one = output).
  { unfold clip_by_value. subst output.
    induction Hrange as [|x l Hx _ IH]; [done|].
    rewrite fmap_cons, IH. f_equal. apply clip_id. simpl. lra. }
  cbv zeta. fold output. rewrite Hclip. reflexivity.
Qed.

Lemma act_test_unclipped_witness :
  (act half_network mean_sampler unit_box no_weights tt true tt).1.1.1
  = [(1 / 2 * 1 + 0)%R].
Proof.
  rewrite (act_test_unclipped unit unit unit half_network mean_sampler unit_box
             no_weights tt tt).
  - reflexivity.
  - repeat constructor; simpl; lra.
Defined.

(** X8.  Shapes of [evaluate_actions] on a batch of as many actions as
    states: one log-probability and one row of entropies per state, and a
    value that keeps the shape (batch, 1) of the network head. *)
Theorem evaluate_actions_shapes :
  ∀ (num : Type) (A : Arith num) (E : Elementary num) (Weights Obs : Type)
    (network : Weights → Obs → list num * num) (self : Hyper num)
    (θ : Params num Weights) (state : list Obs) (action : list (list num)),
    length action = length state →
    let ev := evaluate_actions network self θ state action in
    length ev.1.1 = length state
    ∧ length ev.1.2 = length state
    ∧ length ev.2 = length state
    ∧ Forall (λ row, length row = 1) ev.2.
Proof.
  intros num A E Weights Obs network self θ state action Hlen ev.
  unfold ev, evaluate_actions. cbn [fst snd].
  rewrite !length_fmap, length_zip_with, !length_fmap, Hlen, Nat.min_id.
  repeat split; try done.
  apply Forall_fmap, Forall_forall. by intros.
Qed.

Lemma evaluate_actions_shapes_witness :
  let ev := evaluate_actions constant_network unit_box no_weights [tt; tt]
              [[1%R]; [2%R]] in
  length ev.1.1 = 2 ∧ length ev.1.2 = 2 ∧ length ev.2 = 2
  ∧ Forall (λ row, length row = 1) ev.2.
Proof.
  exact (evaluate_actions_shapes R _ _ unit unit constant_network unit_box
           no_weights [tt; tt] [[1%R]; [2%R]] eq_refl).
Defined.

(** ** The surrogate and the value loss *)

Section SurrogateReal.
Variable self : Hyper R.
Local Open Scope R_scope.

Lemma mean_le (xs ys : list R) :
  Forall2 Rle xs ys → mean xs <= mean ys.
Proof.
  intros Hle.
  assert (Hsum : reduce_sum xs <= reduce_sum ys).
  { induction Hle as [|x y xs ys Hxy _ IH].
    - apply Rle_refl.
    - rewrite !reduce_sum_cons. lra. }
  unfold mean. rewrite <- (Forall2_length _ _ _ Hle).
  destruct xs as [|x xs].
  - inversion Hle; subst. apply Rle_refl.
  - assert (Hn : 0 < INR (length (x :: xs))) by (apply lt_0_INR; simpl; lia).
    simpl ndiv. unfold Rdiv. apply Rmult_le_compat_r; [|exact Hsum].
    apply Rlt_le, Rinv_0_lt_compat, Hn.
Qed.

Lemma mean_scale (c : R) (xs : list R) :
  mean ((λ x, x * c) <$> xs) = mean xs * c.
Proof.
  unfold mean. rewrite length_fmap.
  assert (Hsum : reduce_sum ((λ x, x * c) <$> xs) = reduce_sum xs * c).
  { induction xs as [|x xs IH].
    - unfold reduce_sum. simpl. lra.
    - rewrite fmap_cons, !reduce_sum_cons, IH. lra. }
  rewrite Hsum. simpl. unfold Rdiv. lra.
Qed.

Lemma mean_nonneg (xs : list R) : Forall (λ x, 0 <= x) xs → 0 <= mean xs.
Proof.
  intros Hpos.
  assert (Hsum : 0 <= reduce_sum xs).
  { induction Hpos as [|x xs Hx _ IH].
    - unfold reduce_sum. simpl. lra.
    - rewrite reduce_sum_cons. lra. }
  unfold mean. simpl ndiv. unfold Rdiv.
  destruct xs as [|x xs].
  - unfold reduce_sum. simpl. lra.
  - apply Rmult_le_pos; [exact Hsum|].
    apply Rlt_le, Rinv_0_lt_compat, lt_0_INR. simpl. lia.
Qed.

(** Entry by entry: the minimum is below the unclipped term, and below the
    clipped one, whose ratio stays within [[1 - eps, 1 + eps]]. *)
Lemma surrogate_terms_le_unclipped (f : R → R) (a r : list R) :
  Forall2 Rle
    (zip_with nmin (zip_with nmul a r) (zip_with nmul a (f <$> r)))
    (zip_with nmul a r).
Proof.
  revert r. induction a as [|x a IH]; intros [|y r]; simpl; try constructor.
  - apply Rmin_l.
  - apply IH.
Qed.

Lemma surrogate_terms_le_cap (eps : R) (a r : list R) :
  0 <= eps → length a ≤ length r →
  Forall2 (λ t x, (0 <= x → t <= x * (1 + eps)) ∧ (x <= 0 → t <= x * (1 - eps)))
    (zip_with nmin (zip_with nmul a r)
       (zip_with nmul a (clip (1 - eps) (1 + eps) <$> r)))
    a.
Proof.
  intros Heps. revert r.
  induction a as [|x a IH]; intros [|y r] Hlen; simpl in *; try lia;
    constructor.
  - pose proof (clip_range (1 - eps) (1 + eps) y ltac:(lra)) as Hc.
    unfold clip in Hc. simpl in Hc.
    set (c := Rmax (Rmin y (1 + eps)) (1 - eps)) in *.
    pose proof (Rmin_r (x * y) (x * c)) as Hmin.
    split; intros Hx.
    + pose proof (Rmult_le_compat_l x c (1 + eps) Hx ltac:(lra)). lra.
    + pose proof (Rmult_le_compat_neg_l x (1 - eps) c Hx ltac:(lra)). lra.
  - apply IH. lia.
Qed.

Lemma surrogate_terms_on_policy (eps : R) (a lp : list R) :
  0 <= eps → length a = length lp →
  zip_with nmin (zip_with nmul a (nexp <$> zip_with nsub lp lp))
    (zip_with nmul a
       (clip (1 - eps) (1 + eps) <$> (nexp <$> zip_with nsub lp lp)))
  = a.
Proof.
  intros Heps. revert lp.
  induction a as [|x a IH]; intros [|y lp] Hlen; simpl in *; try lia; [done|].
  f_equal; [|apply IH; lia].
  replace (y - y) with 0 by lra. rewrite exp_0.
  change (Rmax (Rmin 1 (1 + eps)) (1 - eps)) with (clip (1 - eps) (1 + eps) 1).
  rewrite (clip_id (1 - eps) (1 + eps) 1) by lra.
  rewrite Rmult_1_r. apply Rmin_left, Rle_refl.
Qed.
End SurrogateReal.

(** X9.  On-policy minibatch: when the log-probabilities stored at
    collection equal the ones [evaluate_actions] recomputes (the variables
    have not moved) and [clip_ratio >= 0], every ratio is 1, clipping is
    inactive and the surrogate of [learn] is the mean of the advantages
    (over the reals). *)
Theorem surrogate_on_policy :
  ∀ (Weights Obs : Type) (network : Weights → Obs → list R * R) (self : Hyper R)
    (θ : Params R Weights) (observations : list Obs) (actions : list (list R))
    (log_probs next_v_preds rewards gaes : list R),
    (evaluate_actions network self θ observations actions).1.1 = log_probs →
    (0 <= clip_ratio self)%R →
    length gaes = length log_probs →
    surr_loss
      (losses network self observations actions log_probs next_v_preds rewards
         gaes θ)
    = mean gaes.
Proof.
  intros Weights Obs network self θ observations actions log_probs next_v_preds
    rewards gaes Hlp Heps Hlen.
  rewrite losses_spec. cbn [surr_loss]. rewrite Hlp.
  unfold spec_surrogate, spec_ratio. simpl one. simpl nsub at 1 2. simpl nadd at 1.
  f_equal. apply surrogate_terms_on_policy; assumption.
Qed.

Lemma surrogate_on_policy_witness :
  surr_loss
    (losses constant_network unit_box [tt] [[1%R]]
       (evaluate_actions constant_network unit_box no_weights [tt] [[1%R]]).1.1
       [0%R] [1%R] [3%R] no_weights)
  = mean [3%R].
Proof.
  apply surrogate_on_policy; [reflexivity | simpl; lra | reflexivity].
Defined.

(** X10.  The surrogate of [learn] is a pessimistic bound: it never exceeds
    the unclipped objective [mean(advantages * ratio)] (over the reals). *)
Theorem surrogate_pessimistic :
  ∀ (Weights Obs : Type) (network : Weights → Obs → list R * R) (self : Hyper R)
    (θ : Params R Weights) (observations : list Obs) (actions : list (list R))
    (log_probs next_v_preds rewards gaes : list R),
    let ratio :=
      spec_ratio (evaluate_actions network self θ observations actions).1.1
        log_probs in
    (surr_loss
       (losses network self observations actions log_probs next_v_preds rewards
          gaes θ)
     <= mean (zip_with nmul gaes ratio))%R.
Proof.
  intros. rewrite losses_spec. cbn [surr_loss]. fold ratio.
  unfold spec_surrogate. apply mean_le, surrogate_terms_le_unclipped.
Qed.

Lemma Forall2_under {A B : Type} (P : B → Prop) (Q : A → B → Prop)
  (ts : list A) (xs : list B) :
  Forall2 (λ t x, P x → Q t x) ts xs → Forall P xs → Forall2 Q ts xs.
Proof.
  induction 1 as [|t x ts xs Htx _ IH]; intros HP; [constructor|].
  inversion HP; subst. constructor; auto.
Qed.

(** X11.  Clipping caps the incentive: on a minibatch of [B] samples with
    [clip_ratio >= 0], if all advantages are non-negative the surrogate is at
    most [(1 + clip_ratio) * mean(advantages)], and if all are non-positive
    it is at most [(1 - clip_ratio) * mean(advantages)], however far the
    ratios have moved (over the reals). *)
Theorem surrogate_capped :
  ∀ (Weights Obs : Type) (network : Weights → Obs → list R * R) (self : Hyper R)
    (θ : Params R Weights) (observations : list Obs) (actions : list (list R))
    (log_probs next_v_preds rewards gaes : list R),
    (0 <= clip_ratio self)%R →
    length observations = length gaes → length actions = length gaes →
    length log_probs = length gaes →
    let surrogate :=
      surr_loss
        (losses network self observations actions log_probs next_v_preds rewards
           gaes θ) in
    (Forall (λ a, (0 <= a)%R) gaes →
     (surrogate <= mean gaes * (1 + clip_ratio self))%R)
    ∧ (Forall (λ a, (a <= 0)%R) gaes →
       (surrogate <= mean gaes * (1 - clip_ratio self))%R).
Proof.
  intros Weights Obs network self θ observations actions log_probs next_v_preds
    rewards gaes Heps Hob Hac Hlp surrogate.
  unfold surrogate. rewrite losses_spec. cbn [surr_loss].
  set (ratio := spec_ratio _ _).
  assert (Hlen : length gaes ≤ length ratio).
  { unfold ratio, spec_ratio, evaluate_actions. cbn [fst].
    rewrite length_fmap, length_zip_with, !length_fmap, length_zip_with,
      !length_fmap. lia. }
  pose proof (surrogate_terms_le_cap (clip_ratio self) gaes ratio Heps Hlen) as Hcap.
  unfold spec_surrogate. simpl one. simpl nsub at 1. simpl nadd at 1.
  split; intros Hsign.
  - rewrite <- mean_scale. apply mean_le, Forall2_fmap_r.
    apply (Forall2_under (λ x, (0 <= x)%R)); [|exact Hsign].
    eapply Forall2_impl; [exact Hcap|]. intros t x [Hp _]. exact Hp.
  - rewrite <- mean_scale. apply mean_le, Forall2_fmap_r.
    apply (Forall2_under (λ x, (x <= 0)%R)); [|exact Hsign].
    eapply Forall2_impl; [exact Hcap|]. intros t x [_ Hn]. exact Hn.
Qed.

Lemma surrogate_capped_witness :
  (surr_loss
     (losses constant_network unit_box [tt] [[1%R]] [0%R] [0%R] [1%R] [3%R]
        no_weights)
   <= mean [3%R] * (1 + clip_ratio unit_box))%R.
Proof.
  apply (surrogate_capped unit unit constant_network unit_box no_weights [tt]
           [[1%R]] [0%R] [0%R] [1%R] [3%R]);
    [simpl; lra | reflexivity | reflexivity | reflexivity |].
  repeat constructor. lra.
Defined.

Section ValueLoss.
Local Open Scope R_scope.

Lemma squares_nonneg (vs ts : list R) :
  Forall (λ x, 0 <= x) (zip_with (λ v t, (v - t) * (v - t)) vs ts).
Proof.
  revert ts. induction vs as [|v vs IH]; intros [|t ts]; simpl; constructor.
  - pose proof (Rle_0_sqr (v - t)) as Hsq. unfold Rsqr in Hsq. exact Hsq.
  - apply IH.
Qed.

Lemma squares_zero (vs : list R) :
  reduce_sum (zip_with (λ v t, (v - t) * (v - t)) vs vs) = 0.
Proof.
  induction vs as [|v vs IH].
  - unfold reduce_sum. simpl. lra.
  - simpl zip_with. rewrite reduce_sum_cons, IH. lra.
Qed.
End ValueLoss.

(** X12.  The value loss of [learn] is never negative, and it is zero when
    every state value equals its one-step target
    [reward + gamma * next_v_pred] (over the reals). *)
Theorem value_loss_nonneg :
  ∀ (Weights Obs : Type) (network : Weights → Obs → list R * R) (self : Hyper R)
    (θ : Params R Weights) (observations : list Obs) (actions : list (list R))
    (log_probs next_v_preds rewards gaes : list R),
    let vf :=
      vf_loss
        (losses network self observations actions log_probs next_v_preds rewards
           gaes θ) in
    (0 <= vf)%R
    ∧ ((λ ob, (network (weights θ) ob).2) <$> observations
       = zip_with (λ r nv, (r + gamma self * nv)%R) rewards next_v_preds →
       vf = 0%R).
Proof.
  intros Weights Obs network self θ observations actions log_probs next_v_preds
    rewards gaes vf.
  unfold vf. rewrite losses_spec. cbn [vf_loss].
  unfold spec_value_loss. split.
  - apply mean_nonneg, squares_nonneg.
  - intros ->. unfold mean.
    change (zip_with (λ r nv, (r + gamma self * nv)%num) rewards next_v_preds)
      with (zip_with (λ r nv, (r + gamma self * nv)%R) rewards next_v_preds).
    set (ts := zip_with _ rewards next_v_preds).
    change (reduce_sum (zip_with (λ v t, ((v - t) * (v - t))%R) ts ts)
            / of_nat (length (zip_with (λ v t, ((v - t) * (v - t))%R) ts ts)) = 0)%R.
    rewrite squares_zero. unfold Rdiv. apply Rmult_0_l.
Qed.

Lemma value_loss_nonneg_witness :
  vf_loss
    (losses constant_network unit_box [tt] [[1%R]] [0%R] [0%R] [0%R] [3%R]
       no_weights)
  = 0%R.
Proof.
  apply (value_loss_nonneg unit unit constant_network unit_box no_weights [tt]
           [[1%R]] [0%R] [0%R] [0%R] [3%R]).
  simpl. f_equal. lra.
Defined.

(** ** Normalization and the scale of the advantages *)

Section NormalizeAffine.
Local Open Scope R_scope.
Variables a b : R.




End NormalizeAffine.



(** ** Loops in general *)

(** What a loop invariant gives when the loop returns. *)
Lemma while_invariant {S : Type} (I : S → Prop) (cond : S → bool)
  (body : S → outcome S) (fuel : nat) (s s' : S) :
  (∀ s s', I s → cond s = true → body s = Ok s' → I s') →
  I s → while fuel cond body s = Ok s' → I s' ∧ cond s' = false.
Proof.
  intros Hstep. revert s.
  induction fuel as [|fuel IH]; intros s Hs Hrun; simpl in Hrun.
  - destruct (cond s) eqn:Hc; [discriminate|]. injection Hrun as <-. by split.
  - destruct (cond s) eqn:Hc.
    + destruct (body s) as [s1| |] eqn:Hb; simpl in Hrun; try discriminate.
      apply (IH s1); [by eapply Hstep | exact Hrun].
    + injection Hrun as <-. by split.
Qed.

(** A loop whose body returns and keeps the condition true never ends. *)
Lemma while_diverges {S : Type} (I : S → Prop) (cond : S → bool)
  (body : S → outcome S) (fuel : nat) (s : S) :
  (∀ s, I s → cond s = true ∧ ∃ s', body s = Ok s' ∧ I s') →
  I s → while fuel cond body s = OutOfFuel.
Proof.
  intros Hstep. revert s.
  induction fuel as [|fuel IH]; intros s Hs; simpl;
    destruct (Hstep s Hs) as (Hc & s1 & Hb & Hs1); rewrite Hc; [done|].
  rewrite Hb. simpl. by apply IH.
Qed.

(** ** The training loop, in general *)

Section TrainingLoop.
Context {num : Type} `{Elementary num}.
Context {Weights Obs Rng Opt Env : Type}.
Variable network : Weights → Obs → list num * num.
Variable sample : Normal num → Rng → list num * Rng.
Variable apply_gradients :
  Opt → (Weights * list num → num) → Weights * list num → (Weights * list num) * Opt.
Variable self : Hyper num.
Variable env_reset : Env → Obs * Env.
Variable env_step : Env → list num → (Obs * num * bool) * Env.
Variable randint : Rng → nat → nat → list nat * Rng.

Lemma train_inv_init (save_freq : Z) (θ : Params num Weights) (o : Opt) (e : Env)
  (g : Rng) :
  train_inv self save_freq (train_init θ o e g).
Proof.
  unfold train_inv, train_init. cbn.
  split; [lia|]. split; [reflexivity|].
  split; [intros k Hk; inversion Hk|].
  split; [intros k Hk; lia | intros k Hk; inversion Hk].
Qed.

Lemma episode_saves_spec (max_steps save_freq : Z) (steps episode : nat)
  (c : Checkpoint) :
  c ∈ episode_saves max_steps save_freq steps episode →
  c = ppo_episode episode.
Proof.
  unfold episode_saves. intros Hc.
  apply elem_of_app in Hc as [Hc|Hc];
    [destruct (max_steps <=? Z.of_nat steps)%Z
    |destruct (Z.of_nat episode mod save_freq =? 0)%Z];
    try (by inversion Hc);
    apply list_elem_of_singleton in Hc; exact Hc.
Qed.

Lemma episode_saves_periodic (max_steps save_freq : Z) (steps episode : nat) :
  (Z.of_nat episode mod save_freq = 0)%Z →
  ppo_episode episode ∈ episode_saves max_steps save_freq steps episode.
Proof.
  intros Hmod. unfold episode_saves. apply elem_of_app. right.
  apply Z.eqb_eq in Hmod. rewrite Hmod. left.
Qed.

Hypothesis randint_range :
  ∀ g high size, 0 < high → Forall (λ i, i < high) (randint g high size).1.

(** One episode keeps the invariant. *)
Lemma train_inv_body (max_steps save_freq : Z)
  (t t' : Trainer num Weights Rng Opt Env) :
  (1 ≤ max_steps)%Z → save_freq ≠ 0%Z →
  train_inv self save_freq t →
  train_body network sample apply_gradients self env_reset env_step randint
    max_steps save_freq t = Ok t' →
  train_inv self save_freq t'
  ∧ episode t' = episode t + 1 ∧ epoch t' = epoch t + n_updates self.
Proof.
  intros Hmax Hfreq (Hep & Hcount & Hfinal & Hper & Hran) Hbody.
  destruct (train_body_Ok network sample apply_gradients self env_reset env_step
              randint randint_range max_steps save_freq t Hmax Hfreq)
    as (r & t1 & _ & _ & _ & Hb & Hepi & Hepo & Hsv & Hc).
  rewrite Hb in Hbody. injection Hbody as <-.
  split; [|by split].
  unfold train_inv. rewrite Hepi, Hepo, Hsv, Hc.
  split; [lia|]. split; [lia|]. split; [|split].
  - intros k Hk. apply elem_of_app in Hk as [Hk|Hk]; [by eapply Hfinal|].
    apply episode_saves_spec in Hk. discriminate.
  - intros k Hk Hmod. apply elem_of_app.
    destruct (decide (k = episode t + 1)) as [->|Hne].
    + right. by apply episode_saves_periodic.
    + left. apply Hper; [lia | exact Hmod].
  - intros k Hk. apply elem_of_app in Hk as [Hk|Hk].
    + apply Hran in Hk. lia.
    + apply episode_saves_spec in Hk. injection Hk as ->. lia.
Qed.

(** The outer loop ends within [max_epochs - epoch] passes. *)
Lemma train_loop (max_epochs max_steps save_freq : Z) (fuel : nat)
  (t : Trainer num Weights Rng Opt Env) :
  1 ≤ n_updates self → (1 ≤ max_steps)%Z → save_freq ≠ 0%Z →
  train_inv self save_freq t →
  (max_epochs ≤ Z.of_nat (epoch t) + Z.of_nat fuel)%Z →
  ∃ t',
    while fuel (λ t, (Z.of_nat (epoch t) <? max_epochs)%Z)
      (train_body network sample apply_gradients self env_reset env_step randint
         max_steps save_freq) t = Ok t'
    ∧ train_inv self save_freq t'
    ∧ (max_epochs ≤ Z.of_nat (epoch t'))%Z
    ∧ ((Z.of_nat (epoch t) < max_epochs)%Z →
       (Z.of_nat (epoch t') < max_epochs + Z.of_nat (n_updates self))%Z)
    ∧ ((max_epochs ≤ Z.of_nat (epoch t))%Z → t' = t).
Proof.
  intros Hn Hmax Hfreq. revert t.
  induction fuel as [|fuel IH]; intros t Hinv Hfuel.
  - exists t. simpl.
    assert (Hc : (Z.of_nat (epoch t) <? max_epochs)%Z = false)
      by (apply Z.ltb_ge; lia).
    rewrite Hc. split; [done|]. split; [exact Hinv|]. split; [lia|].
    split; [lia|done].
  - simpl. destruct (Z.of_nat (epoch t) <? max_epochs)%Z eqn:Hc.
    + apply Z.ltb_lt in Hc.
      destruct (train_body_Ok network sample apply_gradients self env_reset
                  env_step randint randint_range max_steps save_freq t Hmax Hfreq)
        as (r & t1 & _ & _ & _ & Hb & _).
      destruct (train_inv_body max_steps save_freq t t1 Hmax Hfreq Hinv Hb)
        as (Hinv1 & Hepi & Hepo).
      rewrite Hb. simpl.
      destruct (IH t1 Hinv1) as (t' & Hw & Hinv' & Hge & Hlt & Hsame); [lia|].
      exists t'. split; [exact Hw|]. split; [exact Hinv'|]. split; [exact Hge|].
      split; [|lia]. intros _.
      destruct (Z.lt_ge_cases (Z.of_nat (epoch t1)) max_epochs) as [Hlt1|Hge1].
      * by apply Hlt.
      * rewrite (Hsame Hge1). lia.
    + apply Z.ltb_ge in Hc. exists t.
      split; [done|]. split; [exact Hinv|]. split; [lia|]. split; [lia|done].
Qed.

(** [train] returns once the fuel covers [max_epochs]. *)
Lemma train_result (fuel : nat) (max_epochs max_steps save_freq : Z)
  (θ : Params num Weights) (o : Opt) (e : Env) (g : Rng) :
  1 ≤ n_updates self → (1 ≤ max_steps)%Z → save_freq ≠ 0%Z →
  Z.to_nat max_epochs ≤ fuel →
  ∃ t',
    train network sample apply_gradients self env_reset env_step randint fuel
      max_epochs max_steps save_freq θ o e g
    = Ok (save_model (ppo_final_episode (episode t')) t')
    ∧ train_inv self save_freq t'
    ∧ (max_epochs ≤ Z.of_nat (epoch t'))%Z
    ∧ (Z.of_nat (epoch t') < Z.max 0 max_epochs + Z.of_nat (n_updates self))%Z.
Proof.
  intros Hn Hmax Hfreq Hfuel.
  destruct (train_loop max_epochs max_steps save_freq fuel (train_init θ o e g)
              Hn Hmax Hfreq (train_inv_init save_freq θ o e g))
    as (t' & Hw & Hinv & Hge & Hlt & Hsame).
  { simpl. lia. }
  exists t'. unfold train. rewrite Hw. simpl.
  split; [reflexivity|]. split; [exact Hinv|]. split; [exact Hge|].
  cbn [train_init epoch] in Hlt, Hsame.
  destruct (Z.lt_ge_cases 0 max_epochs) as [Hpos|Hneg].
  - specialize (Hlt Hpos). lia.
  - rewrite (Hsame Hneg). simpl. lia.
Qed.
End TrainingLoop.
(** X14.  With [n_updates >= 1], [max_steps >= 1], [save_freq] not zero and
    indices drawn in range, [train] terminates for every [max_epochs] (fuel
    [max_epochs] is enough): it stops at the first multiple of [n_updates]
    that reaches [max_epochs], with [epoch = n_updates * episode], and has
    written four loss entries per epoch. *)
Theorem train_terminates :
  ∀ (num : Type) (A : Arith num) (E : Elementary num)
    (Weights Obs Rng Opt Env : Type)
    (network : Weights → Obs → list num * num)
    (sample : Normal num → Rng → list num * Rng)
    (apply_gradients :
       Opt → (Weights * list num → num) → Weights * list num
       → (Weights * list num) * Opt)
    (self : Hyper num) (env_reset : Env → Obs * Env)
    (env_step : Env → list num → (Obs * num * bool) * Env)
    (randint : Rng → nat → nat → list nat * Rng)
    (max_epochs max_steps save_freq : Z) (θ : Params num Weights) (o : Opt)
    (e : Env) (g : Rng) (fuel : nat),
    (∀ g high size, 0 < high → Forall (λ i, i < high) (randint g high size).1) →
    1 ≤ n_updates self → (1 ≤ max_steps)%Z → save_freq ≠ 0%Z →
    Z.to_nat max_epochs ≤ fuel →
    ∃ t : Trainer num Weights Rng Opt Env,
      train network sample apply_gradients self env_reset env_step randint fuel
        max_epochs max_steps save_freq θ o e g = Ok t
      ∧ epoch t = n_updates self * episode t
      ∧ (max_epochs ≤ Z.of_nat (epoch t))%Z
      ∧ (Z.of_nat (epoch t) < Z.max 0 max_epochs + Z.of_nat (n_updates self))%Z
      ∧ count_loss (scalars t) = 4 * epoch t.
Proof.
  intros num A E Weights Obs Rng Opt Env network sample apply_gradients self
    env_reset env_step randint max_epochs max_steps save_freq θ o e g fuel
    Hrange Hn Hmax Hfreq Hfuel.
  destruct (train_result network sample apply_gradients self env_reset env_step
              randint Hrange fuel max_epochs max_steps save_freq θ o e g
              Hn Hmax Hfreq Hfuel)
    as (t' & Ht & (Hep & Hcount & _) & Hge & Hlt).
  eexists. split; [exact Ht|]. cbn [save_model epoch episode scalars].
  repeat split; assumption.
Qed.

Lemma train_terminates_witness :
  ∃ t : Trainer R unit unit unit nat,
    train constant_network mean_sampler idle_optimizer unit_box fixed_reward_reset
      (fixed_reward_step 3) first_index 6 6 5 50 no_weights tt 0 tt = Ok t
    ∧ epoch t = 4 * episode t
    ∧ (6 ≤ Z.of_nat (epoch t) < 10)%Z.
Proof.
  destruct (train_terminates R _ _ unit unit unit unit nat constant_network
              mean_sampler idle_optimizer unit_box fixed_reward_reset
              (fixed_reward_step 3) first_index 6 5 50 no_weights tt 0 tt 6)
    as (t & Ht & Hep & Hge & Hlt & _);
    [exact first_index_range | simpl; lia | lia | discriminate | simpl; lia |].
  exists t. split; [exact Ht|]. split; [exact Hep|]. simpl in Hlt. lia.
Defined.

(** X15.  Under the same conditions the checkpoints [train] has written are:
    last, the one final checkpoint [ppo_final_episode] of the last episode;
    before it only [ppo_episode k] files with [1 <= k <= episode], among them
    every [k] that [save_freq] divides. *)
Theorem train_checkpoints :
  ∀ (num : Type) (A : Arith num) (E : Elementary num)
    (Weights Obs Rng Opt Env : Type)
    (network : Weights → Obs → list num * num)
    (sample : Normal num → Rng → list num * Rng)
    (apply_gradients :
       Opt → (Weights * list num → num) → Weights * list num
       → (Weights * list num) * Opt)
    (self : Hyper num) (env_reset : Env → Obs * Env)
    (env_step : Env → list num → (Obs * num * bool) * Env)
    (randint : Rng → nat → nat → list nat * Rng)
    (max_epochs max_steps save_freq : Z) (θ : Params num Weights) (o : Opt)
    (e : Env) (g : Rng) (fuel : nat),
    (∀ g high size, 0 < high → Forall (λ i, i < high) (randint g high size).1) →
    1 ≤ n_updates self → (1 ≤ max_steps)%Z → save_freq ≠ 0%Z →
    Z.to_nat max_epochs ≤ fuel →
    ∃ (t : Trainer num Weights Rng Opt Env) (earlier : list Checkpoint),
      train network sample apply_gradients self env_reset env_step randint fuel
        max_epochs max_steps save_freq θ o e g = Ok t
      ∧ saved t = earlier ++ [ppo_final_episode (episode t)]
      ∧ (∀ k, ppo_final_episode k ∉ earlier)
      ∧ (∀ k, 1 ≤ k ≤ episode t → (Z.of_nat k mod save_freq = 0)%Z →
              ppo_episode k ∈ earlier)
      ∧ (∀ k, ppo_episode k ∈ earlier → 1 ≤ k ≤ episode t).
Proof.
  intros num A E Weights Obs Rng Opt Env network sample apply_gradients self
    env_reset env_step randint max_epochs max_steps save_freq θ o e g fuel
    Hrange Hn Hmax Hfreq Hfuel.
  destruct (train_result network sample apply_gradients self env_reset env_step
              randint Hrange fuel max_epochs max_steps save_freq θ o e g
              Hn Hmax Hfreq Hfuel)
    as (t' & Ht & (_ & _ & Hfinal & Hper & Hran) & _ & _).
  exists (save_model (ppo_final_episode (episode t')) t'), (saved t').
  split; [exact Ht|]. cbn [save_model saved episode].
  repeat split; try assumption; by apply Hran.
Qed.

Lemma train_checkpoints_witness :
  ∃ (t : Trainer R unit unit unit nat) (earlier : list Checkpoint),
    train constant_network mean_sampler idle_optimizer unit_box fixed_reward_reset
      (fixed_reward_step 3) first_index 6 6 5 1 no_weights tt 0 tt = Ok t
    ∧ saved t = earlier ++ [ppo_final_episode (episode t)]
    ∧ (1 ≤ episode t → ppo_episode 1 ∈ earlier).
Proof.
  destruct (train_checkpoints R _ _ unit unit unit unit nat constant_network
              mean_sampler idle_optimizer unit_box fixed_reward_reset
              (fixed_reward_step 3) first_index 6 5 1 no_weights tt 0 tt 6)
    as (t & earlier & Ht & Hs & _ & Hper & _);
    [exact first_index_range | simpl; lia | lia | discriminate | simpl; lia |].
  exists t, earlier. split; [exact Ht|]. split; [exact Hs|].
  intros H1. apply Hper; [lia | reflexivity].
Defined.

(** X16.  With [max_epochs <= 0] the loop of [train] is not entered: the
    environment is not reset, nothing is logged, and the only file written
    is [ppo_final_episode0.h5]. *)
Theorem train_no_epochs :
  ∀ (num : Type) (A : Arith num) (E : Elementary num)
    (Weights Obs Rng Opt Env : Type)
    (network : Weights → Obs → list num * num)
    (sample : Normal num → Rng → list num * Rng)
    (apply_gradients :
       Opt → (Weights * list num → num) → Weights * list num
       → (Weights * list num) * Opt)
    (self : Hyper num) (env_reset : Env → Obs * Env)
    (env_step : Env → list num → (Obs * num * bool) * Env)
    (randint : Rng → nat → nat → list nat * Rng)
    (max_epochs max_steps save_freq : Z) (θ : Params num Weights) (o : Opt)
    (e : Env) (g : Rng) (fuel : nat),
    (max_epochs ≤ 0)%Z →
    train network sample apply_gradients self env_reset env_step randint fuel
      max_epochs max_steps save_freq θ o e g
    = Ok {| params := θ; opt := o; env := e; rng := g; episode := 0; epoch := 0;
            saved := [ppo_final_episode 0]; scalars := [] |}.
Proof.
  intros num A E Weights Obs Rng Opt Env network sample apply_gradients self
    env_reset env_step randint max_epochs max_steps save_freq θ o e g fuel Hle.
  unfold train.
  assert (Hc : (0 <? max_epochs)%Z = false) by (apply Z.ltb_ge; lia).
  destruct fuel; simpl; change (Z.of_nat 0) with 0%Z; rewrite Hc; reflexivity.
Qed.

Lemma train_no_epochs_witness :
  train constant_network mean_sampler idle_optimizer unit_box fixed_reward_reset
    (fixed_reward_step 3) first_index 7 0 5 50 no_weights tt 0 tt
  = Ok {| params := no_weights; opt := tt; env := 0; rng := tt; episode := 0;
          epoch := 0; saved := [ppo_final_episode 0]; scalars := [] |}.
Proof. apply train_no_epochs. lia. Defined.

Section TrainingEdges.
Context {num : Type} `{Elementary num}.
Context {Weights Obs Rng Opt Env : Type}.
Variable network : Weights → Obs → list num * num.
Variable sample : Normal num → Rng → list num * Rng.
Variable apply_gradients :
  Opt → (Weights * list num → num) → Weights * list num → (Weights * list num) * Opt.
Variable self : Hyper num.
Variable env_reset : Env → Obs * Env.
Variable env_step : Env → list num → (Obs * num * bool) * Env.
Variable randint : Rng → nat → nat → list nat * Rng.

(** Without updates an episode returns with [epoch] unchanged. *)
Lemma train_body_no_updates (max_steps save_freq : Z)
  (t : Trainer num Weights Rng Opt Env) :
  n_updates self = 0 → save_freq ≠ 0%Z →
  ∃ t',
    train_body network sample apply_gradients self env_reset env_step randint
      max_steps save_freq t = Ok t'
    ∧ epoch t' = epoch t.
Proof.
  intros Hn Hfreq. unfold train_body.
  destruct (env_reset (env t)) as [cur e].
  destruct (rollout_fuel network sample self env_step (params t) max_steps cur e (rng t))
    as (r & Hr & _).
  rewrite Hr. cbn [mbind outcome_bind].
  destruct (episode_data_Ok self r) as [_ Hd]. rewrite Hd. cbn [mbind outcome_bind].
  rewrite Hn. cbn [range seq for_each mbind outcome_bind].
  apply Z.eqb_neq in Hfreq. rewrite Hfreq.
  eexists. split; [reflexivity|].
  destruct (max_steps <=? Z.of_nat (steps r))%Z;
    cbn [episode save_model];
    destruct (_ mod save_freq =? 0)%Z; reflexivity.
Qed.

(** With [save_freq = 0] the first episode ends in the division. *)
Lemma train_body_save_freq_zero (max_steps : Z)
  (t : Trainer num Weights Rng Opt Env) :
  (∀ g high size, 0 < high → Forall (λ i, i < high) (randint g high size).1) →
  (1 ≤ max_steps)%Z →
  train_body network sample apply_gradients self env_reset env_step randint
    max_steps 0 t = Raise ZeroDivisionError.
Proof.
  intros Hrange Hmax. unfold train_body.
  destruct (env_reset (env t)) as [cur e].
  destruct (rollout_fuel network sample self env_step (params t) max_steps cur e (rng t))
    as (r & Hr & (Ho & Ha & Hl & Hrw & Hv) & _ & Hsteps).
  destruct (Hsteps Hmax) as [H1 Hle].
  rewrite Hr. cbn [mbind outcome_bind].
  destruct (episode_data_Ok self r) as [_ Hd]. rewrite Hd. cbn [mbind outcome_bind].
  match goal with
  | |- context [for_each ?xs (update _ _ _ _ (?ob, ?ac, ?lp, ?nv, ?rw, ?ga)) ?t0] =>
      destruct (updates_Ok network apply_gradients self randint Hrange
                  ob ac lp nv rw ga xs t0)
        as (t1 & Hf & _)
  end.
  { lia. } { lia. } { lia. } { lia. }
  { rewrite length_next_v_preds; lia. }
  { rewrite length_normalize, length_gae_backward.
    rewrite (length_deltas self _ _ _ (steps r)); try lia.
    rewrite length_next_v_preds; lia. }
  rewrite Hf. reflexivity.
Qed.

(** With [max_steps <= 0] no step is taken and the first update fails to
    draw indices. *)
Lemma train_body_without_steps (max_steps save_freq : Z)
  (t : Trainer num Weights Rng Opt Env) :
  1 ≤ n_updates self → (max_steps ≤ 0)%Z →
  train_body network sample apply_gradients self env_reset env_step randint
    max_steps save_freq t = Raise ValueError.
Proof.
  intros Hn Hmax. unfold train_body.
  destruct (env_reset (env t)) as [cur e].
  assert (Hr : rollout network sample self env_step (params t) max_steps cur e (rng t)
               = Ok (rollout_init cur e (rng t))).
  { unfold rollout.
    replace (Z.to_nat max_steps) with 0 by lia. cbn [while].
    assert (Hc : rollout_cond max_steps (rollout_init (num:=num) cur e (rng t))
                 = false).
    { unfold rollout_cond. apply andb_false_iff. right.
      apply Z.ltb_ge. simpl. lia. }
    by rewrite Hc. }
  rewrite Hr. cbn [mbind outcome_bind].
  destruct (episode_data_Ok self (rollout_init (num:=num) cur e (rng t))) as [_ Hd].
  rewrite Hd. cbn [mbind outcome_bind].
  destruct (n_updates self) as [|n]; [lia|].
  reflexivity.
Qed.

Lemma rollout_body_done (θ : Params num Weights) (s : Rollout num Obs Rng Env) :
  (∀ e a, (env_step e a).1.2 = false) →
  done (rollout_body network sample self env_step θ s) = false.
Proof.
  intros Hnever. unfold rollout_body.
  destruct (act _ _ _ _ _ _ _) as [[[action value] log_prob] g].
  specialize (Hnever (r_env s) action).
  destruct (env_step _ _) as [[[next reward] d] e]. exact Hnever.
Qed.
End TrainingEdges.

(** X17.  With [n_updates = 0] the counter [epoch] never moves: for
    [max_epochs >= 1] (and [save_freq] not zero) [train] runs episode after
    episode and does not terminate, whatever the fuel. *)
Theorem train_without_updates_diverges :
  ∀ (num : Type) (A : Arith num) (E : Elementary num)
    (Weights Obs Rng Opt Env : Type)
    (network : Weights → Obs → list num * num)
    (sample : Normal num → Rng → list num * Rng)
    (apply_gradients :
       Opt → (Weights * list num → num) → Weights * list num
       → (Weights * list num) * Opt)
    (self : Hyper num) (env_reset : Env → Obs * Env)
    (env_step : Env → list num → (Obs * num * bool) * Env)
    (randint : Rng → nat → nat → list nat * Rng)
    (max_epochs max_steps save_freq : Z) (θ : Params num Weights) (o : Opt)
    (e : Env) (g : Rng) (fuel : nat),
    n_updates self = 0 → (1 ≤ max_epochs)%Z → save_freq ≠ 0%Z →
    train network sample apply_gradients self env_reset env_step randint fuel
      max_epochs max_steps save_freq θ o e g = OutOfFuel.
Proof.
  intros num A E Weights Obs Rng Opt Env network sample apply_gradients self
    env_reset env_step randint max_epochs max_steps save_freq θ o e g fuel
    Hn Hep Hfreq.
  unfold train.
  rewrite (while_diverges (λ t, epoch t = 0)); [reflexivity| |reflexivity].
  intros t Ht. split; [apply Z.ltb_lt; lia|].
  destruct (train_body_no_updates network sample apply_gradients self env_reset
              env_step randint max_steps save_freq t Hn Hfreq) as (t' & Hb & Hepo).
  exists t'. split; [exact Hb | congruence].
Qed.

Lemma train_without_updates_diverges_witness :
  train constant_network mean_sampler idle_optimizer no_updates fixed_reward_reset
    (fixed_reward_step 3) first_index 100 1 5 50 no_weights tt 0 tt = OutOfFuel.
Proof.
  apply train_without_updates_diverges; [reflexivity | lia | discriminate].
Defined.

(** X18.  With [save_freq = 0] (and [max_epochs >= 1], [max_steps >= 1],
    indices in range) [train] raises [ZeroDivisionError] at the end of its
    first episode, at [episode % save_freq]. *)
Theorem train_save_freq_zero :
  ∀ (num : Type) (A : Arith num) (E : Elementary num)
    (Weights Obs Rng Opt Env : Type)
    (network : Weights → Obs → list num * num)
    (sample : Normal num → Rng → list num * Rng)
    (apply_gradients :
       Opt → (Weights * list num → num) → Weights * list num
       → (Weights * list num) * Opt)
    (self : Hyper num) (env_reset : Env → Obs * Env)
    (env_step : Env → list num → (Obs * num * bool) * Env)
    (randint : Rng → nat → nat → list nat * Rng)
    (max_epochs max_steps : Z) (θ : Params num Weights) (o : Opt)
    (e : Env) (g : Rng) (fuel : nat),
    (∀ g high size, 0 < high → Forall (λ i, i < high) (randint g high size).1) →
    (1 ≤ max_epochs)%Z → (1 ≤ max_steps)%Z → 1 ≤ fuel →
    train network sample apply_gradients self env_reset env_step randint fuel
      max_epochs max_steps 0 θ o e g = Raise ZeroDivisionError.
Proof.
  intros num A E Weights Obs Rng Opt Env network sample apply_gradients self
    env_reset env_step randint max_epochs max_steps θ o e g fuel
    Hrange Hep Hmax Hfuel.
  unfold train. destruct fuel as [|fuel]; [lia|]. cbn [while].
  assert (Hc : (Z.of_nat (epoch (train_init (num:=num) θ o e g)) <? max_epochs)%Z
               = true) by (apply Z.ltb_lt; simpl; lia).
  rewrite Hc, train_body_save_freq_zero by assumption. reflexivity.
Qed.

Lemma train_save_freq_zero_witness :
  train constant_network mean_sampler idle_optimizer unit_box fixed_reward_reset
    (fixed_reward_step 3) first_index 1 1 5 0 no_weights tt 0 tt
  = Raise ZeroDivisionError.
Proof.
  apply train_save_freq_zero; [exact first_index_range | lia | lia | lia].
Defined.

(** X19.  With [max_steps <= 0] (and [max_epochs >= 1], [n_updates >= 1])
    the rollout takes no step and the first call of [np.random.randint] with
    [high = 0] raises [ValueError]. *)
Theorem train_without_steps_raises :
  ∀ (num : Type) (A : Arith num) (E : Elementary num)
    (Weights Obs Rng Opt Env : Type)
    (network : Weights → Obs → list num * num)
    (sample : Normal num → Rng → list num * Rng)
    (apply_gradients :
       Opt → (Weights * list num → num) → Weights * list num
       → (Weights * list num) * Opt)
    (self : Hyper num) (env_reset : Env → Obs * Env)
    (env_step : Env → list num → (Obs * num * bool) * Env)
    (randint : Rng → nat → nat → list nat * Rng)
    (max_epochs max_steps save_freq : Z) (θ : Params num Weights) (o : Opt)
    (e : Env) (g : Rng) (fuel : nat),
    1 ≤ n_updates self → (1 ≤ max_epochs)%Z → (max_steps ≤ 0)%Z → 1 ≤ fuel →
    train network sample apply_gradients self env_reset env_step randint fuel
      max_epochs max_steps save_freq θ o e g = Raise ValueError.
Proof.
  intros num A E Weights Obs Rng Opt Env network sample apply_gradients self
    env_reset env_step randint max_epochs max_steps save_freq θ o e g fuel
    Hn Hep Hmax Hfuel.
  unfold train. destruct fuel as [|fuel]; [lia|]. cbn [while].
  assert (Hc : (Z.of_nat (epoch (train_init (num:=num) θ o e g)) <? max_epochs)%Z
               = true) by (apply Z.ltb_lt; simpl; lia).
  rewrite Hc, train_body_without_steps by assumption. reflexivity.
Qed.

Lemma train_without_steps_raises_witness :
  train constant_network mean_sampler idle_optimizer unit_box fixed_reward_reset
    (fixed_reward_step 3) first_index 1 1 0 50 no_weights tt 0 tt
  = Raise ValueError.
Proof.
  apply train_without_steps_raises; [simpl; lia | lia | lia | lia].
Defined.

(** X20.  For [max_steps >= 1] the rollout of an episode takes between 1 and
    [max_steps] steps; it stops short of [max_steps] only when the
    environment has reported [done], and on an environment that never does
    it takes exactly [max_steps] steps. *)
Theorem rollout_stops :
  ∀ (num : Type) (A : Arith num) (E : Elementary num) (Weights Obs Rng Env : Type)
    (network : Weights → Obs → list num * num)
    (sample : Normal num → Rng → list num * Rng) (self : Hyper num)
    (env_step : Env → list num → (Obs * num * bool) * Env)
    (θ : Params num Weights) (max_steps : Z) (cur : Obs) (e : Env) (g : Rng),
    (1 ≤ max_steps)%Z →
    ∃ r : Rollout num Obs Rng Env,
      rollout network sample self env_step θ max_steps cur e g = Ok r
      ∧ (1 ≤ Z.of_nat (steps r) ≤ max_steps)%Z
      ∧ ((Z.of_nat (steps r) < max_steps)%Z → done r = true)
      ∧ ((∀ e a, (env_step e a).1.2 = false) →
         Z.of_nat (steps r) = max_steps ∧ done r = false).
Proof.
  intros num A E Weights Obs Rng Env network sample self env_step θ max_steps
    cur e g Hmax.
  destruct (rollout_fuel network sample self env_step θ max_steps cur e g)
    as (r & Hr & _ & Hstop & Hsteps).
  destruct (Hsteps Hmax) as [H1 Hle].
  exists r. split; [exact Hr|]. split; [lia|].
  unfold rollout_cond in Hstop. apply andb_false_iff in Hstop.
  assert (Hearly : (Z.of_nat (steps r) < max_steps)%Z → done r = true).
  { intros Hlt. destruct Hstop as [Hd|Hs].
    - by apply negb_false_iff in Hd.
    - apply Z.ltb_ge in Hs. lia. }
  split; [exact Hearly|].
  intros Hnever.
  assert (Hd : done r = false).
  { unfold rollout in Hr.
    eapply (while_invariant (λ s, done s = false)) in Hr as [Hd _];
      [exact Hd | | reflexivity].
    intros s s' _ _ Hb. injection Hb as <-.
    by apply rollout_body_done. }
  split; [|exact Hd].
  destruct (Z.lt_ge_cases (Z.of_nat (steps r)) max_steps) as [Hlt|Hge]; [|lia].
  rewrite (Hearly Hlt) in Hd. discriminate.
Qed.

Lemma rollout_stops_witness :
  ∃ r : Rollout R unit unit nat,
    rollout constant_network mean_sampler unit_box endless_step no_weights 5 tt 0 tt
    = Ok r
    ∧ Z.of_nat (steps r) = 5%Z.
Proof.
  destruct (rollout_stops R _ _ unit unit unit nat constant_network mean_sampler
              unit_box endless_step no_weights 5 tt 0 tt)
    as (r & Hr & _ & _ & Hnever); [lia|].
  exists r. split; [exact Hr|]. apply Hnever. reflexivity.
Defined.

(** ** Evaluation *)

(** Two loops whose states stay related run in lockstep. *)
Lemma while_lockstep {S1 S2 : Type} (rel : S1 → S2 → Prop)
  (cond1 : S1 → bool) (cond2 : S2 → bool) (f1 : S1 → S1) (f2 : S2 → S2)
  (fuel : nat) (s1 : S1) (s2 : S2) :
  (∀ s1 s2, rel s1 s2 → cond1 s1 = cond2 s2) →
  (∀ s1 s2, rel s1 s2 → rel (f1 s1) (f2 s2)) →
  rel s1 s2 →
  match while fuel cond1 (λ s, Ok (f1 s)) s1, while fuel cond2 (λ s, Ok (f2 s)) s2 with
  | Ok r1, Ok r2 => rel r1 r2
  | OutOfFuel, OutOfFuel => True
  | _, _ => False
  end.
Proof.
  intros Hcond Hstep. revert s1 s2.
  induction fuel as [|fuel IH]; intros s1 s2 Hrel; simpl;
    rewrite <- (Hcond s1 s2 Hrel); destruct (cond1 s1); try done.
  simpl. apply IH, Hstep, Hrel.
Qed.

Section Evaluation_facts.
Context {num : Type} `{Elementary num}.
Context {Weights Obs Rng Env Frame : Type}.
Variable network : Weights → Obs → list num * num.
Variable self : Hyper num.
Variable env_reset : Env → Obs * Env.
Variable env_step : Env → list num → (Obs * num * bool) * Env.
Variable env_render : Env → Frame.

(** One step of [test] does not look at the sampler, the generator state or,
    for the rewards, at [render]. *)
Lemma test_body_fields (sample : Normal num → Rng → list num * Rng)
  (render : bool) (θ : Params num Weights) (s : Playback num Obs Rng Env Frame) :
  let action :=
    zip_with nadd
      (zip_with nmul
         (clip_by_value (network (weights θ) (p_state s)).1 (- one)%num one)
         (action_bound self))
      (action_shift self) in
  let step := env_step (p_env s) action in
  test_body network sample self env_step env_render render θ s
  = {| p_state := step.1.1.1; p_done := step.1.2;
       p_rewards := (p_rewards s + step.1.1.2)%num;
       p_video := if render then p_video s ++ [env_render step.2] else p_video s;
       p_env := step.2; p_rng := p_rng s |}.
Proof.
  intros action step. subst step action.
  unfold test_body. rewrite act_test. cbv beta zeta. cbn [fst snd].
  match goal with
  | |- context [env_step ?e ?a] => destruct (env_step e a) as [[[next reward] d] e']
  end.
  reflexivity.
Qed.
End Evaluation_facts.

(** X21.  [test] has no step limit: on an environment that never reports
    [done] it does not terminate, whatever the fuel (unlike the rollout of
    [train], which stops at [max_steps]). *)
Theorem test_diverges_without_done :
  ∀ (num : Type) (A : Arith num) (E : Elementary num)
    (Weights Obs Rng Env Frame : Type)
    (network : Weights → Obs → list num * num)
    (sample : Normal num → Rng → list num * Rng) (self : Hyper num)
    (env_reset : Env → Obs * Env)
    (env_step : Env → list num → (Obs * num * bool) * Env)
    (env_render : Env → Frame) (render : bool) (θ : Params num Weights)
    (e : Env) (g : Rng) (fuel : nat),
    (∀ e a, (env_step e a).1.2 = false) →
    test network sample self env_reset env_step env_render fuel render θ e g
    = OutOfFuel.
Proof.
  intros num A E Weights Obs Rng Env Frame network sample self env_reset env_step
    env_render render θ e g fuel Hnever.
  unfold test. destruct (env_reset e) as [cur e'].
  rewrite (while_diverges (λ s, p_done s = false)); [reflexivity| |reflexivity].
  intros s Hs. split; [by rewrite Hs|].
  eexists. split; [reflexivity|].
  rewrite test_body_fields. cbn [p_done]. apply Hnever.
Qed.

Lemma test_diverges_without_done_witness :
  test constant_network mean_sampler unit_box fixed_reward_reset endless_step
    (λ n : nat, n) 50 true no_weights 0 tt = OutOfFuel.
Proof. apply test_diverges_without_done. reflexivity. Defined.

(** X22.  [test] plays with [act(state, test=True)] only: from one state of the
    environment its result, the summed rewards and the frames, is the same
    whatever the sampler and the state of the random generator. *)
Theorem test_ignores_randomness :
  ∀ (num : Type) (A : Arith num) (E : Elementary num)
    (Weights Obs Rng Env Frame : Type)
    (network : Weights → Obs → list num * num)
    (sample1 sample2 : Normal num → Rng → list num * Rng) (self : Hyper num)
    (env_reset : Env → Obs * Env)
    (env_step : Env → list num → (Obs * num * bool) * Env)
    (env_render : Env → Frame) (render : bool) (θ : Params num Weights)
    (e : Env) (g1 g2 : Rng) (fuel : nat),
    test network sample1 self env_reset env_step env_render fuel render θ e g1
    = test network sample2 self env_reset env_step env_render fuel render θ e g2.
Proof.
  intros num A E Weights Obs Rng Env Frame network sample1 sample2 self env_reset
    env_step env_render render θ e g1 g2 fuel.
  unfold test. destruct (env_reset e) as [cur e'].
  set (rel := λ s1 s2 : Playback num Obs Rng Env Frame,
         p_state s1 = p_state s2 ∧ p_done s1 = p_done s2
         ∧ p_rewards s1 = p_rewards s2 ∧ p_video s1 = p_video s2
         ∧ p_env s1 = p_env s2).
  match goal with
  | |- ?w1 ≫= _ = ?w2 ≫= _ =>
      assert (Hsim : match w1, w2 with
                     | Ok r1, Ok r2 => rel r1 r2
                     | OutOfFuel, OutOfFuel => True
                     | _, _ => False
                     end)
  end.
  { apply (while_lockstep rel).
    - intros s1 s2 (_ & Hd & _). by rewrite Hd.
    - intros s1 s2 (Hs & Hd & Hr & Hv & He). rewrite !test_body_fields.
      unfold rel. cbn. rewrite Hs, He, Hr, Hv. done.
    - unfold rel. cbn. done. }
  destruct (while _ _ _ _) as [r1| |], (while _ _ _ _) as [r2| |]; try done.
  destruct Hsim as (_ & _ & Hr & Hv & _). simpl. by rewrite Hr, Hv.
Qed.

(** ** The metric log *)

Section MetricLog.
Context {num : Type} `{Elementary num}.
Context {Weights Obs Rng Opt Env : Type}.
Variable network : Weights → Obs → list num * num.
Variable sample : Normal num → Rng → list num * Rng.
Variable apply_gradients :
  Opt → (Weights * list num → num) → Weights * list num → (Weights * list num) * Opt.
Variable self : Hyper num.
Variable env_reset : Env → Obs * Env.
Variable env_step : Env → list num → (Obs * num * bool) * Env.
Variable randint : Rng → nat → nat → list nat * Rng.

Lemma log_of_app (l k : list (Scalar num)) :
  log_of (l ++ k) = log_of l ++ log_of k.
Proof. unfold log_of. apply fmap_app. Qed.

(** One update writes the four loss entries at step [epoch]. *)
Lemma update_log (data : Data num Obs) (t t' : Trainer num Weights Rng Opt Env)
  (i : nat) :
  update network apply_gradients self randint data t i = Ok t' →
  log_of (scalars t') = log_of (scalars t) ++ loss_group (epoch t)
  ∧ epoch t' = epoch t + 1 ∧ episode t' = episode t.
Proof.
  destruct data as [[[[[ob ac] lp] nv] rw] ga].
  unfold update. intros Hu.
  destruct (decide (0 < length rw)); [|discriminate].
  destruct (randint (rng t) (length rw) (batch_size self)) as [idx g].
  cbn [mbind outcome_bind] in Hu.
  destruct (np_take ob idx); cbn [mbind outcome_bind] in Hu; try discriminate.
  destruct (np_take ac idx); cbn [mbind outcome_bind] in Hu; try discriminate.
  destruct (np_take lp idx); cbn [mbind outcome_bind] in Hu; try discriminate.
  destruct (np_take nv idx); cbn [mbind outcome_bind] in Hu; try discriminate.
  destruct (np_take rw idx); cbn [mbind outcome_bind] in Hu; try discriminate.
  destruct (np_take ga idx); cbn [mbind outcome_bind] in Hu; try discriminate.
  destruct (learn _ _ _ _ _ _ _ _ _ _ _) as [[θ o] summ].
  injection Hu as <-. cbn [scalars epoch episode].
  rewrite log_of_app. by repeat split.
Qed.

Lemma updates_log (data : Data num Obs) (xs : list nat)
  (t t' : Trainer num Weights Rng Opt Env) :
  for_each xs (update network apply_gradients self randint data) t = Ok t' →
  log_of (scalars t')
  = log_of (scalars t) ++ flat_map loss_group (seq (epoch t) (length xs))
  ∧ epoch t' = epoch t + length xs ∧ episode t' = episode t.
Proof.
  revert t. induction xs as [|x xs IH]; intros t Hf; cbn [for_each] in Hf.
  - injection Hf as <-. simpl. rewrite app_nil_r.
    split; [reflexivity | split; [lia | reflexivity]].
  - destruct (update network apply_gradients self randint data t x)
      as [t1| |] eqn:Hu; cbn [mbind outcome_bind] in Hf; try discriminate.
    destruct (update_log data t t1 x Hu) as (Hl1 & He1 & Hp1).
    destruct (IH t1 Hf) as (Hl & He & Hp).
    rewrite Hl, Hl1, He1, He, Hp, Hp1. cbn [length seq flat_map].
    rewrite <- app_assoc. replace (epoch t + 1) with (S (epoch t)) by lia.
    split; [reflexivity | split; [lia | reflexivity]].
Qed.

(** One episode appends its [n_updates] groups and the two episode
    entries. *)
Lemma train_body_log (max_steps save_freq : Z)
  (t t' : Trainer num Weights Rng Opt Env) :
  train_body network sample apply_gradients self env_reset env_step randint
    max_steps save_freq t = Ok t' →
  log_of (scalars t')
  = log_of (scalars t)
    ++ flat_map loss_group (seq (epoch t) (n_updates self))
    ++ [(Main_episode_reward, episode t + 1); (Main_episode_steps, episode t + 1)].
Proof.
  unfold train_body. intros Hb.
  destruct (env_reset (env t)) as [cur e].
  destruct (rollout _ _ _ _ _ _ _ _ _) as [r| |];
    cbn [mbind outcome_bind] in Hb; try discriminate.
  destruct (episode_data self r) as [data| |];
    cbn [mbind outcome_bind] in Hb; try discriminate.
  destruct (for_each _ _ _) as [t1| |] eqn:Hf;
    cbn [mbind outcome_bind] in Hb; try discriminate.
  apply updates_log in Hf as (Hl & He & Hp). cbn [scalars epoch episode] in Hl, He, Hp.
  unfold range in Hl. rewrite length_seq in Hl.
  destruct (save_freq =? 0)%Z; [discriminate|]. injection Hb as <-.
  destruct (max_steps <=? Z.of_nat (steps r))%Z;
    cbn [episode save_model saved scalars];
    destruct (_ mod save_freq =? 0)%Z;
    cbn [episode save_model saved scalars];
    rewrite log_of_app, Hl, Hp, <- app_assoc; reflexivity.
Qed.
End MetricLog.

(** X23.  The metric log of a run of [train] (one that returns: [n_updates >= 1],
    [max_steps >= 1], [save_freq] not zero)
    has a fixed shape: for each episode in turn, [n_updates] groups of the
    four loss scalars [Loss/total_loss], [Loss/clipped_surr], [Loss/vf_loss],
    [Loss/entropy], with consecutive step indices continuing across
    episodes, followed by [Main/episode_reward] and [Main/episode_steps] at
    the number of the episode. *)
Theorem train_log_shape :
  ∀ (num : Type) (A : Arith num) (E : Elementary num)
    (Weights Obs Rng Opt Env : Type)
    (network : Weights → Obs → list num * num)
    (sample : Normal num → Rng → list num * Rng)
    (apply_gradients :
       Opt → (Weights * list num → num) → Weights * list num
       → (Weights * list num) * Opt)
    (self : Hyper num) (env_reset : Env → Obs * Env)
    (env_step : Env → list num → (Obs * num * bool) * Env)
    (randint : Rng → nat → nat → list nat * Rng)
    (max_epochs max_steps save_freq : Z) (θ : Params num Weights) (o : Opt)
    (e : Env) (g : Rng) (fuel : nat),
    (∀ g high size, 0 < high → Forall (λ i, i < high) (randint g high size).1) →
    1 ≤ n_updates self → (1 ≤ max_steps)%Z → save_freq ≠ 0%Z →
    Z.to_nat max_epochs ≤ fuel →
    ∃ t : Trainer num Weights Rng Opt Env,
      train network sample apply_gradients self env_reset env_step randint fuel
        max_epochs max_steps save_freq θ o e g = Ok t
      ∧ log_of (scalars t)
        = flat_map (episode_log (n_updates self)) (seq 0 (episode t)).
Proof.
  intros num A E Weights Obs Rng Opt Env network sample apply_gradients self
    env_reset env_step randint max_epochs max_steps save_freq θ o e g fuel
    Hrange Hn Hmax Hfreq Hfuel.
  destruct (train_loop network sample apply_gradients self env_reset env_step
              randint Hrange max_epochs max_steps save_freq fuel
              (train_init (num:=num) θ o e g) Hn Hmax Hfreq
              (train_inv_init self save_freq θ o e g))
    as (t' & Hw & _).
  { simpl. lia. }
  exists (save_model (ppo_final_episode (episode t')) t').
  split; [unfold train; rewrite Hw; reflexivity|].
  cbn [save_model scalars episode].
  apply (while_invariant
           (λ t, train_inv self save_freq t
                 ∧ log_of (scalars t)
                   = flat_map (episode_log (n_updates self)) (seq 0 (episode t))))
    in Hw as [[_ Hlog] _]; [exact Hlog| |].
  - intros s s' [Hinv Hlog] _ Hb.
    destruct (train_inv_body network sample apply_gradients self env_reset
                env_step randint Hrange max_steps save_freq s s' Hmax Hfreq Hinv Hb)
      as (Hinv' & Hepi & Hepo).
    split; [exact Hinv'|].
    rewrite (train_body_log network sample apply_gradients self env_reset env_step
               randint max_steps save_freq s s' Hb).
    rewrite Hepi, Hlog. replace (episode s + 1) with (S (episode s)) by lia.
    rewrite seq_S, flat_map_app. cbn [flat_map]. rewrite app_nil_r.
    unfold episode_log at 3. destruct Hinv as (Hep & _). rewrite Hep.
    cbn [Nat.add]. replace (S (episode s)) with (episode s + 1) by lia.
    reflexivity.
  - split; [apply train_inv_init | reflexivity].
Qed.

Lemma train_log_shape_witness :
  ∃ t : Trainer R unit unit unit nat,
    train constant_network mean_sampler idle_optimizer unit_box fixed_reward_reset
      (fixed_reward_step 3) first_index 1 1 5 50 no_weights tt 0 tt = Ok t
    ∧ log_of (scalars t) = flat_map (episode_log 4) (seq 0 (episode t)).
Proof.
  destruct (train_log_shape R _ _ unit unit unit unit nat constant_network
              mean_sampler idle_optimizer unit_box fixed_reward_reset
              (fixed_reward_step 3) first_index 1 5 50 no_weights tt 0 tt 1)
    as (t & Ht & Hlog);
    [exact first_index_range | simpl; lia | lia | discriminate | simpl; lia |].
  exists t. split; [exact Ht | exact Hlog].
Defined.
